(** * OpenBCI WiFi Shield -> virtual COM bridge (bridge.js)

    A shallow embedding of [bridge.js].  The module-level variables of the
    script ([tcpBuffer], [cmdBuf], [stats], [cmdQ], ...) are the fields of one
    [State] record; every callback the script registers (socket "data" and
    "close", serial "data" and "drain", the timers, the settling of a [fetch])
    is a function on that record, and [handle] is the event loop that
    dispatches them.

    Conventions.
    - A [Buffer] is a [list byte]; [subarray]/[slice] are [firstn]/[skipn]
      (no buffer is ever written to, so sharing between views is not
      observable).
    - [cmdBuf] and the command tokens are [string]s; [String.fromCharCode]
      of a byte is [ascii_of_byte].
    - The counters of [stats] and the values of [Date.now()] are integers
      ([Z]).  JavaScript numbers are exact on integers below 2^53, which is
      the range the model is meant for.
    - An [async] function is a term of the free monad [Async]: it runs up to
      its next [await] and leaves a continuation.  A promise chain built with
      [then]/[catch]/[finally] is the composition of such terms.
    - What the script does to the outside (calls of [fetch],
      [socket.pause()], [serial.write], ...) is appended to [trace], each
      entry stamped with the time of the callback that produced it.
      Console output is not modelled. *)

From Stdlib Require Import ZArith NArith List String Ascii Bool Lia.
From Stdlib.Strings Require Import Byte.
From Stdlib Require Import DecimalString.
Import ListNotations.

Local Open Scope string_scope.
Local Open Scope list_scope.
Local Open Scope Z_scope.

(** ** HTTP requests and their outcomes *)

Inductive Method := GET | POST.

(** The body handed to [fetch].  The two JSON objects the script serialises
    are kept structured. *)
Inductive Payload :=
| NoPayload
| JsonCommand (cmd : string)
| JsonTcp (ip : string) (port latency : Z) (output : bool)
| PlainText (s : string).

Record Request := mkRequest {
  method : Method;
  url : string;
  contentType : option string;
  payload : Payload
}.

(** A response as the script looks at it: its status, and its body text
    ([None] when reading the body fails, which the script turns into the
    empty string). *)
Record Response := mkResponse {
  status : Z;
  bodyText : option string
}.

(** [r.ok]: the status is in the range 200-299. *)
Definition resp_ok (r : Response) : bool :=
  (200 <=? status r) && (status r <=? 299).

Definition resp_text (r : Response) : string :=
  match bodyText r with Some t => t | None => "" end.

(** How a [fetch] settles: with a response of any status, or rejected
    (connection refused, DNS failure, ...). *)
Inductive FetchResult :=
| Responded (r : Response)
| Failed (e : string).

(** The object [{ ok, status, text }] returned by the HTTP helpers. *)
Record Reply := mkReply {
  ok : bool;
  code : Z;
  text : string
}.

Definition replyOf (r : Response) : Reply :=
  mkReply (resp_ok r) (status r) (resp_text r).

(** ** Asynchronous code *)

(** Assignments to module-level variables made from inside [async] code. *)
Inductive Action :=
| SetLastStartAt        (* stats.lastStartAt = Date.now() *)
| SetLastStopAt         (* stats.lastStopAt = Date.now() *)
| DecQueueDepth.        (* cmdQueueDepth = Math.max(0, cmdQueueDepth - 1) *)

(** An [async] computation, up to its outcome.
    - [Ret a]: fulfilled with [a];
    - [Throw e]: rejected with [e], the rejection still open to a handler;
    - [Unhandled e]: rejected inside a callback whose promise nobody holds
      (the [async] callbacks given to [setTimeout] and [server.listen]);
    - [Fetch r k]: [await fetch(r)], then [k] on how it settled;
    - [Sleep ms body]: [new Promise(res => setTimeout(..., ms))] where the
      timer callback runs [body] and resolves the promise with its result;
    - [Do a k]: a synchronous assignment, then [k]. *)
Inductive Async (A : Type) : Type :=
| Ret (a : A)
| Throw (e : string)
| Unhandled (e : string)
| Fetch (r : Request) (k : FetchResult -> Async A)
| Sleep (ms : Z) (body : Async A)
| Do (a : Action) (k : Async A).

Arguments Ret {A} a.
Arguments Throw {A} e.
Arguments Unhandled {A} e.
Arguments Fetch {A} r k.
Arguments Sleep {A} ms body.
Arguments Do {A} a k.

(** [await m] followed by [f]. *)
Fixpoint bind {A B : Type} (m : Async A) (f : A -> Async B) : Async B :=
  match m with
  | Ret a => f a
  | Throw e => Throw e
  | Unhandled e => Unhandled e
  | Fetch r k => Fetch r (fun x => bind (k x) f)
  | Sleep ms body => Sleep ms (bind body f)
  | Do a k => Do a (bind k f)
  end.

Notation "x <- m ;; f" := (bind m (fun x => f))
  (at level 61, m at next level, right associativity).

(** [p.then(f)]: [f] runs once [p] is fulfilled and is skipped when [p] is
    rejected. *)
Definition pthen {A B : Type} (p : Async A) (f : Async B) : Async B :=
  bind p (fun _ => f).

(** [p.catch(h)]. *)
Fixpoint pcatch {A : Type} (p : Async A) (h : string -> Async A) : Async A :=
  match p with
  | Ret a => Ret a
  | Throw e => h e
  | Unhandled e => Unhandled e
  | Fetch r k => Fetch r (fun x => pcatch (k x) h)
  | Sleep ms body => Sleep ms (pcatch body h)
  | Do a k => Do a (pcatch k h)
  end.

(** [p.finally(h)]: [h] runs either way and the outcome of [p] is kept. *)
Fixpoint pfinally {A : Type} (p : Async A) (h : Async unit) : Async A :=
  match p with
  | Ret a => bind h (fun _ => Ret a)
  | Throw e => bind h (fun _ => Throw e)
  | Unhandled e => Unhandled e
  | Fetch r k => Fetch r (fun x => pfinally (k x) h)
  | Sleep ms body => Sleep ms (pfinally body h)
  | Do a k => Do a (pfinally k h)
  end.

(** The body of an [async] callback whose returned promise is dropped: a
    rejection has no handler to go to. *)
Fixpoint detached {A : Type} (p : Async A) : Async A :=
  match p with
  | Ret a => Ret a
  | Throw e => Unhandled e
  | Unhandled e => Unhandled e
  | Fetch r k => Fetch r (fun x => detached (k x))
  | Sleep ms body => Sleep ms (detached body)
  | Do a k => Do a (detached k)
  end.

(** [await fetch(r)] as the helpers use it: a rejection is thrown. *)
Definition fetch (r : Request) : Async Response :=
  Fetch r (fun x => match x with
                    | Responded resp => Ret resp
                    | Failed e => Throw e
                    end).

(** ** Configuration (CLI and environment) *)

Record Config := mkConfig {
  shieldIp : string;
  localIp : string;
  tcpPort : Z;
  latencyUs : Z;
  initCmd : string;
  channelCmds : list (nat * string)
}.

(** ** The program state *)

Definition Socket := nat.

(** Which asynchronous activity a request or a continuation belongs to: the
    command queue [cmdQ], the n-th sequence started by a 'b' byte, the n-th
    stop started by an 's' byte, or the [listen] callback. *)
Inductive Who :=
| Queue
| Begin (n : nat)
| Stop (n : nat)
| Configure.

(** A promise under way: it has code to run at the next microtask
    checkpoint ([Runnable], which is also the form of a settled promise,
    [Runnable (Ret tt)] or [Runnable (Throw e)]), or it waits for a [fetch]
    or for a timer. *)
Inductive Task :=
| Runnable (p : Async unit)
| OnFetch (k : FetchResult -> Async unit)
| OnTimer (body : Async unit).

Inductive Callback :=
| CbBegin               (* startServer(); startStream().catch(() => {}) *)
| CbStop                (* stopStream().catch(() => {}) *)
| CbWake (w : Who).     (* the timer inside startStream *)

Record Timer := mkTimer {
  tm_id : nat;
  tm_due : Z;
  tm_cb : Callback
}.

(** The serial port as the script sees it: [serial.writable], and what the
    next calls of [serial.write] are going to return ([true] once the list
    is used up). *)
Record SerialPort := mkSerialPort {
  writable : bool;
  writeResults : list bool
}.

Inductive Listener := NotListening | Binding | Listening.

Inductive Effect :=
| EQueue (cmd : string)             (* queueCmd(cmd) *)
| EHttp (w : Who) (r : Request)     (* fetch(r) *)
| EFrame (frame : list byte)        (* writeToSerial(frame) called *)
| ESerialWrite (data : list byte)   (* serial.write(data) *)
| EPause (sock : Socket)            (* socket.pause() *)
| EResume (sock : Socket)           (* socket.resume() *)
| EListen.                          (* server.listen(...) *)

Record Stats := mkStats {
  startedAt : Z;
  tcpConnects : Z;
  tcpBytes : Z;
  tcpFramesOk : Z;
  tcpFramesBad : Z;
  serialBytes : Z;
  serialFrames : Z;
  serialBackpressure : Z;
  lastTcpAt : Z;
  lastSerialAt : Z;
  lastBioAt : Z;
  lastStartAt : Z;
  lastStopAt : Z
}.

Record State := mkState {
  (* the variables of the script *)
  stats : Stats;
  currentSocket : option Socket;
  serverStarted : bool;
  tcpBuffer : list byte;
  pausedBySerialBackpressure : bool;
  cmdBuf : string;
  cmdQueueDepth : Z;
  cmdQ : Task;
  (* the event loop *)
  timers : list Timer;
  nextTimer : nat;
  tasks : list (Who * Task);
  nextTask : nat;
  (* the outside *)
  serial : SerialPort;
  sockets : list Socket;
  listener : Listener;
  halted : bool;
  clock : Z;
  trace : list (Z * Effect)
}.

(** Field updates. *)

Definition set_startedAt (v : Z) (st : Stats) : Stats :=
  mkStats v (tcpConnects st) (tcpBytes st) (tcpFramesOk st) (tcpFramesBad st)
    (serialBytes st) (serialFrames st) (serialBackpressure st) (lastTcpAt st)
    (lastSerialAt st) (lastBioAt st) (lastStartAt st) (lastStopAt st).

Definition set_tcpConnects (v : Z) (st : Stats) : Stats :=
  mkStats (startedAt st) v (tcpBytes st) (tcpFramesOk st) (tcpFramesBad st)
    (serialBytes st) (serialFrames st) (serialBackpressure st) (lastTcpAt st)
    (lastSerialAt st) (lastBioAt st) (lastStartAt st) (lastStopAt st).

Definition set_tcpBytes (v : Z) (st : Stats) : Stats :=
  mkStats (startedAt st) (tcpConnects st) v (tcpFramesOk st) (tcpFramesBad st)
    (serialBytes st) (serialFrames st) (serialBackpressure st) (lastTcpAt st)
    (lastSerialAt st) (lastBioAt st) (lastStartAt st) (lastStopAt st).

Definition set_tcpFramesOk (v : Z) (st : Stats) : Stats :=
  mkStats (startedAt st) (tcpConnects st) (tcpBytes st) v (tcpFramesBad st)
    (serialBytes st) (serialFrames st) (serialBackpressure st) (lastTcpAt st)
    (lastSerialAt st) (lastBioAt st) (lastStartAt st) (lastStopAt st).

Definition set_tcpFramesBad (v : Z) (st : Stats) : Stats :=
  mkStats (startedAt st) (tcpConnects st) (tcpBytes st) (tcpFramesOk st) v
    (serialBytes st) (serialFrames st) (serialBackpressure st) (lastTcpAt st)
    (lastSerialAt st) (lastBioAt st) (lastStartAt st) (lastStopAt st).

Definition set_serialBytes (v : Z) (st : Stats) : Stats :=
  mkStats (startedAt st) (tcpConnects st) (tcpBytes st) (tcpFramesOk st) (tcpFramesBad
    st) v (serialFrames st) (serialBackpressure st) (lastTcpAt st) (lastSerialAt st)
    (lastBioAt st) (lastStartAt st) (lastStopAt st).

Definition set_serialFrames (v : Z) (st : Stats) : Stats :=
  mkStats (startedAt st) (tcpConnects st) (tcpBytes st) (tcpFramesOk st) (tcpFramesBad
    st) (serialBytes st) v (serialBackpressure st) (lastTcpAt st) (lastSerialAt st)
    (lastBioAt st) (lastStartAt st) (lastStopAt st).

Definition set_serialBackpressure (v : Z) (st : Stats) : Stats :=
  mkStats (startedAt st) (tcpConnects st) (tcpBytes st) (tcpFramesOk st) (tcpFramesBad
    st) (serialBytes st) (serialFrames st) v (lastTcpAt st) (lastSerialAt st)
    (lastBioAt st) (lastStartAt st) (lastStopAt st).

Definition set_lastTcpAt (v : Z) (st : Stats) : Stats :=
  mkStats (startedAt st) (tcpConnects st) (tcpBytes st) (tcpFramesOk st) (tcpFramesBad
    st) (serialBytes st) (serialFrames st) (serialBackpressure st) v (lastSerialAt st)
    (lastBioAt st) (lastStartAt st) (lastStopAt st).

Definition set_lastSerialAt (v : Z) (st : Stats) : Stats :=
  mkStats (startedAt st) (tcpConnects st) (tcpBytes st) (tcpFramesOk st) (tcpFramesBad
    st) (serialBytes st) (serialFrames st) (serialBackpressure st) (lastTcpAt st) v
    (lastBioAt st) (lastStartAt st) (lastStopAt st).

Definition set_lastBioAt (v : Z) (st : Stats) : Stats :=
  mkStats (startedAt st) (tcpConnects st) (tcpBytes st) (tcpFramesOk st) (tcpFramesBad
    st) (serialBytes st) (serialFrames st) (serialBackpressure st) (lastTcpAt st)
    (lastSerialAt st) v (lastStartAt st) (lastStopAt st).

Definition set_lastStartAt (v : Z) (st : Stats) : Stats :=
  mkStats (startedAt st) (tcpConnects st) (tcpBytes st) (tcpFramesOk st) (tcpFramesBad
    st) (serialBytes st) (serialFrames st) (serialBackpressure st) (lastTcpAt st)
    (lastSerialAt st) (lastBioAt st) v (lastStopAt st).

Definition set_lastStopAt (v : Z) (st : Stats) : Stats :=
  mkStats (startedAt st) (tcpConnects st) (tcpBytes st) (tcpFramesOk st) (tcpFramesBad
    st) (serialBytes st) (serialFrames st) (serialBackpressure st) (lastTcpAt st)
    (lastSerialAt st) (lastBioAt st) (lastStartAt st) v.

Definition set_stats (v : Stats) (s : State) : State :=
  mkState v (currentSocket s) (serverStarted s) (tcpBuffer s)
    (pausedBySerialBackpressure s) (cmdBuf s) (cmdQueueDepth s) (cmdQ s) (timers s)
    (nextTimer s) (tasks s) (nextTask s) (serial s) (sockets s) (listener s) (halted
    s) (clock s) (trace s).

Definition set_currentSocket (v : option Socket) (s : State) : State :=
  mkState (stats s) v (serverStarted s) (tcpBuffer s) (pausedBySerialBackpressure s)
    (cmdBuf s) (cmdQueueDepth s) (cmdQ s) (timers s) (nextTimer s) (tasks s) (nextTask
    s) (serial s) (sockets s) (listener s) (halted s) (clock s) (trace s).

Definition set_serverStarted (v : bool) (s : State) : State :=
  mkState (stats s) (currentSocket s) v (tcpBuffer s) (pausedBySerialBackpressure s)
    (cmdBuf s) (cmdQueueDepth s) (cmdQ s) (timers s) (nextTimer s) (tasks s) (nextTask
    s) (serial s) (sockets s) (listener s) (halted s) (clock s) (trace s).

Definition set_tcpBuffer (v : list byte) (s : State) : State :=
  mkState (stats s) (currentSocket s) (serverStarted s) v (pausedBySerialBackpressure
    s) (cmdBuf s) (cmdQueueDepth s) (cmdQ s) (timers s) (nextTimer s) (tasks s)
    (nextTask s) (serial s) (sockets s) (listener s) (halted s) (clock s) (trace s).

Definition set_pausedBySerialBackpressure (v : bool) (s : State) : State :=
  mkState (stats s) (currentSocket s) (serverStarted s) (tcpBuffer s) v (cmdBuf s)
    (cmdQueueDepth s) (cmdQ s) (timers s) (nextTimer s) (tasks s) (nextTask s) (serial
    s) (sockets s) (listener s) (halted s) (clock s) (trace s).

Definition set_cmdBuf (v : string) (s : State) : State :=
  mkState (stats s) (currentSocket s) (serverStarted s) (tcpBuffer s)
    (pausedBySerialBackpressure s) v (cmdQueueDepth s) (cmdQ s) (timers s) (nextTimer
    s) (tasks s) (nextTask s) (serial s) (sockets s) (listener s) (halted s) (clock s)
    (trace s).

Definition set_cmdQueueDepth (v : Z) (s : State) : State :=
  mkState (stats s) (currentSocket s) (serverStarted s) (tcpBuffer s)
    (pausedBySerialBackpressure s) (cmdBuf s) v (cmdQ s) (timers s) (nextTimer s)
    (tasks s) (nextTask s) (serial s) (sockets s) (listener s) (halted s) (clock s)
    (trace s).

Definition set_cmdQ (v : Task) (s : State) : State :=
  mkState (stats s) (currentSocket s) (serverStarted s) (tcpBuffer s)
    (pausedBySerialBackpressure s) (cmdBuf s) (cmdQueueDepth s) v (timers s)
    (nextTimer s) (tasks s) (nextTask s) (serial s) (sockets s) (listener s) (halted
    s) (clock s) (trace s).

Definition set_timers (v : list Timer) (s : State) : State :=
  mkState (stats s) (currentSocket s) (serverStarted s) (tcpBuffer s)
    (pausedBySerialBackpressure s) (cmdBuf s) (cmdQueueDepth s) (cmdQ s) v (nextTimer
    s) (tasks s) (nextTask s) (serial s) (sockets s) (listener s) (halted s) (clock s)
    (trace s).

Definition set_nextTimer (v : nat) (s : State) : State :=
  mkState (stats s) (currentSocket s) (serverStarted s) (tcpBuffer s)
    (pausedBySerialBackpressure s) (cmdBuf s) (cmdQueueDepth s) (cmdQ s) (timers s) v
    (tasks s) (nextTask s) (serial s) (sockets s) (listener s) (halted s) (clock s)
    (trace s).

Definition set_tasks (v : list (Who * Task)) (s : State) : State :=
  mkState (stats s) (currentSocket s) (serverStarted s) (tcpBuffer s)
    (pausedBySerialBackpressure s) (cmdBuf s) (cmdQueueDepth s) (cmdQ s) (timers s)
    (nextTimer s) v (nextTask s) (serial s) (sockets s) (listener s) (halted s) (clock
    s) (trace s).

Definition set_nextTask (v : nat) (s : State) : State :=
  mkState (stats s) (currentSocket s) (serverStarted s) (tcpBuffer s)
    (pausedBySerialBackpressure s) (cmdBuf s) (cmdQueueDepth s) (cmdQ s) (timers s)
    (nextTimer s) (tasks s) v (serial s) (sockets s) (listener s) (halted s) (clock s)
    (trace s).

Definition set_serial (v : SerialPort) (s : State) : State :=
  mkState (stats s) (currentSocket s) (serverStarted s) (tcpBuffer s)
    (pausedBySerialBackpressure s) (cmdBuf s) (cmdQueueDepth s) (cmdQ s) (timers s)
    (nextTimer s) (tasks s) (nextTask s) v (sockets s) (listener s) (halted s) (clock
    s) (trace s).

Definition set_sockets (v : list Socket) (s : State) : State :=
  mkState (stats s) (currentSocket s) (serverStarted s) (tcpBuffer s)
    (pausedBySerialBackpressure s) (cmdBuf s) (cmdQueueDepth s) (cmdQ s) (timers s)
    (nextTimer s) (tasks s) (nextTask s) (serial s) v (listener s) (halted s) (clock
    s) (trace s).

Definition set_listener (v : Listener) (s : State) : State :=
  mkState (stats s) (currentSocket s) (serverStarted s) (tcpBuffer s)
    (pausedBySerialBackpressure s) (cmdBuf s) (cmdQueueDepth s) (cmdQ s) (timers s)
    (nextTimer s) (tasks s) (nextTask s) (serial s) (sockets s) v (halted s) (clock s)
    (trace s).

Definition set_halted (v : bool) (s : State) : State :=
  mkState (stats s) (currentSocket s) (serverStarted s) (tcpBuffer s)
    (pausedBySerialBackpressure s) (cmdBuf s) (cmdQueueDepth s) (cmdQ s) (timers s)
    (nextTimer s) (tasks s) (nextTask s) (serial s) (sockets s) (listener s) v (clock
    s) (trace s).

Definition set_clock (v : Z) (s : State) : State :=
  mkState (stats s) (currentSocket s) (serverStarted s) (tcpBuffer s)
    (pausedBySerialBackpressure s) (cmdBuf s) (cmdQueueDepth s) (cmdQ s) (timers s)
    (nextTimer s) (tasks s) (nextTask s) (serial s) (sockets s) (listener s) (halted
    s) v (trace s).

Definition set_trace (v : list (Z * Effect)) (s : State) : State :=
  mkState (stats s) (currentSocket s) (serverStarted s) (tcpBuffer s)
    (pausedBySerialBackpressure s) (cmdBuf s) (cmdQueueDepth s) (cmdQ s) (timers s)
    (nextTimer s) (tasks s) (nextTask s) (serial s) (sockets s) (listener s) (halted
    s) (clock s) v.

Definition upd_stats (f : Stats -> Stats) (s : State) : State :=
  set_stats (f (stats s)) s.

(** Record an effect on the outside. *)
Definition emit (now : Z) (e : Effect) (s : State) : State :=
  set_trace (trace s ++ [(now, e)]) s.

(** A JavaScript string used as a condition: true unless empty. *)
Definition truthy (x : string) : bool :=
  match x with EmptyString => false | String _ _ => true end.

Section Program.

Variable cfg : Config.

(** ** HTTP helpers *)

Definition endpoint (path : string) : string :=
  ("http://" ++ shieldIp cfg ++ path)%string.

Definition httpJson (u : string) (body : Payload) : Async Reply :=
  r <- fetch (mkRequest POST u (Some "application/json") body) ;;
  Ret (replyOf r).

Definition httpGet (u : string) : Async Reply :=
  r <- fetch (mkRequest GET u None NoPayload) ;;
  Ret (replyOf r).

Definition commandJson (cmd : string) : Request :=
  mkRequest POST (endpoint "/command") (Some "application/json") (JsonCommand cmd).

Definition commandText (cmd : string) : Request :=
  mkRequest POST (endpoint "/command") (Some "text/plain") (PlainText cmd).

(** [sendShieldCommand]: try JSON, then fall back to text/plain. *)
Definition sendShieldCommand (cmd : string) : Async Reply :=
  r <- httpJson (endpoint "/command") (JsonCommand cmd) ;;
  if ok r then Ret r
  else
    rr <- fetch (commandText cmd) ;;
    Ret (replyOf rr).

(** ** The command queue *)

(** The callback given to [then]: send the command and log the reply. *)
Definition dispatch (cmd : string) : Async unit :=
  r <- sendShieldCommand cmd ;;
  Ret tt.

(** [cmdQ.then(...).catch(...).finally(...)] *)
Definition link (prev : Async unit) (cmd : string) : Async unit :=
  pfinally
    (pcatch (pthen prev (dispatch cmd)) (fun _ => Ret tt))
    (Do DecQueueDepth (Ret tt)).

(** Chaining onto a promise that is under way chains onto what is left of
    it. *)
Definition mapTask (f : Async unit -> Async unit) (t : Task) : Task :=
  match t with
  | Runnable p => Runnable (f p)
  | OnFetch k => OnFetch (fun x => f (k x))
  | OnTimer body => OnTimer (f body)
  end.

Definition queueCmd (now : Z) (cmd : string) (s : State) : State :=
  let s := set_cmdQueueDepth (cmdQueueDepth s + 1) s in
  let s := emit now (EQueue cmd) s in
  set_cmdQ (mapTask (fun p => link p cmd) (cmdQ s)) s.

(** ** The command aggregator *)

Definition singleCharCmd : list string :=
  [ "b"; "s"; "v"; "?"; "~";
    "0"; "1"; "2"; "3"; "4"; "5"; "6"; "7"; "8"; "9";
    "!"; "@"; "#"; "$"; "%"; "^"; "&"; "*"; "("; ")";
    "<"; ">"; ","; "." ].

Definition has (set : list string) (x : string) : bool :=
  existsb (String.eqb x) set.

(** The characters [String.prototype.trim] removes, among the code units a
    byte can give: TAB, LF, VT, FF, CR, space and the no-break space. *)
Definition isWhiteSpace (c : ascii) : bool :=
  let n := N_of_ascii c in
  ((n =? 9) || (n =? 10) || (n =? 11) || (n =? 12) || (n =? 13)
   || (n =? 32) || (n =? 160))%N.

Fixpoint trimStart (x : string) : string :=
  match x with
  | EmptyString => EmptyString
  | String c r => if isWhiteSpace c then trimStart r else x
  end.

Fixpoint trimEnd (x : string) : string :=
  match x with
  | EmptyString => EmptyString
  | String c r =>
      match trimEnd r with
      | EmptyString => if isWhiteSpace c then EmptyString else String c EmptyString
      | r' => String c r'
      end
  end.

Definition trim (x : string) : string := trimEnd (trimStart x).

(** One turn of the [for] loop of [feedCmdBytes]. *)
Definition feedByte (now : Z) (b : byte) (s : State) : State :=
  let ch := ascii_of_byte b in
  if Byte.eqb b x00 then s
  else
    let s := set_cmdBuf (cmdBuf s ++ String ch EmptyString)%string s in
    if Ascii.eqb ch "010" || Ascii.eqb ch "013" then
      let cmd := trim (cmdBuf s) in
      let s := set_cmdBuf "" s in
      if truthy cmd then queueCmd now cmd s else s
    else if (String.length (cmdBuf s) =? 1)%nat && has singleCharCmd (cmdBuf s) then
      let cmd := cmdBuf s in
      let s := set_cmdBuf "" s in
      queueCmd now cmd s
    else if Ascii.eqb ch "X" || Ascii.eqb ch "Z" then
      let cmd := trim (cmdBuf s) in
      let s := set_cmdBuf "" s in
      if truthy cmd then queueCmd now cmd s else s
    else if (256 <? String.length (cmdBuf s))%nat then set_cmdBuf "" s
    else s.

Definition feedCmdBytes (now : Z) (buf : list byte) (s : State) : State :=
  fold_left (fun s b => feedByte now b s) buf
            (upd_stats (set_lastBioAt now) s).

(** ** Serial side of the data path *)

Definition writeToSerial (now : Z) (data : list byte) (s : State) : State :=
  if negb (writable (serial s)) then s
  else
    (* const ok = serial.write(data) *)
    let okw := hd true (writeResults (serial s)) in
    let s := set_serial (mkSerialPort (writable (serial s))
                                      (tl (writeResults (serial s)))) s in
    let s := emit now (ESerialWrite data) s in
    let s := upd_stats (fun st =>
               set_lastSerialAt now
                 (set_serialFrames (serialFrames st + 1)
                    (set_serialBytes (serialBytes st + Z.of_nat (List.length data)) st)))
               s in
    match currentSocket s with
    | Some sock =>
        if negb okw && negb (pausedBySerialBackpressure s) then
          let s := emit now (EPause sock) s in
          let s := set_pausedBySerialBackpressure true s in
          upd_stats (fun st => set_serialBackpressure (serialBackpressure st + 1) st) s
        else s
    | None => s
    end.

Definition serialOnDrain (now : Z) (s : State) : State :=
  match currentSocket s with
  | Some sock =>
      if pausedBySerialBackpressure s then
        let s := emit now (EResume sock) s in
        set_pausedBySerialBackpressure false s
      else s
  | None => s
  end.

(** ** Parsing the TCP stream into 33-byte frames *)

Fixpoint indexOfFrom (v : byte) (buf : list byte) (i : Z) : Z :=
  match buf with
  | [] => -1
  | x :: r => if Byte.eqb x v then i else indexOfFrom v r (i + 1)
  end.

(** [buf.indexOf(v)] *)
Definition indexOf (buf : list byte) (v : byte) : Z := indexOfFrom v buf 0.

(** [buf[i] !== v]; an index out of range gives [undefined]. *)
Definition differs (x : option byte) (v : byte) : bool :=
  match x with
  | Some b => negb (Byte.eqb b v)
  | None => true
  end.

(** [x & m]; [undefined] counts as 0. *)
Definition bitAnd (x : option byte) (m : N) : N :=
  match x with
  | Some b => N.land (Byte.to_N b) m
  | None => 0%N
  end.

(** How a turn of the [while] loop ends. *)
Inductive Flow := Continue | Return.

(** The body of the [while] loop of [processTcpBuffer]. *)
Definition loopBody (now : Z) (s : State) : Flow * State :=
  if differs (nth_error (tcpBuffer s) 0) xa0 then
    let idx := indexOf (tcpBuffer s) xa0 in
    if idx =? -1 then (Return, set_tcpBuffer [] s)
    else (Continue, set_tcpBuffer (skipn (Z.to_nat idx) (tcpBuffer s)) s)
  else if (List.length (tcpBuffer s) <? 33)%nat then (Return, s)
  else
    let frame := firstn 33 (tcpBuffer s) in
    let stop := nth_error frame 32 in
    if negb (bitAnd stop 0xf0 =? 0xc0)%N then
      let s := upd_stats (fun st => set_tcpFramesBad (tcpFramesBad st + 1) st) s in
      (Continue, set_tcpBuffer (skipn 1 (tcpBuffer s)) s)
    else
      let s := upd_stats (fun st => set_tcpFramesOk (tcpFramesOk st + 1) st) s in
      let s := writeToSerial now frame (emit now (EFrame frame) s) in
      (Continue, set_tcpBuffer (skipn 33 (tcpBuffer s)) s).

(** The [while] loop, for at most [fuel] turns.  Every turn that continues
    shortens the buffer, so [processTcpBuffer] gives it more turns than it
    can take. *)
Fixpoint whileLoop (fuel : nat) (now : Z) (s : State) : State :=
  match fuel with
  | O => s
  | S fuel' =>
      if (33 <=? List.length (tcpBuffer s))%nat then
        match loopBody now s with
        | (Continue, s') => whileLoop fuel' now s'
        | (Return, s') => s'
        end
      else s
  end.

Definition processTcpBuffer (now : Z) (s : State) : State :=
  whileLoop (S (List.length (tcpBuffer s))) now s.

(** ** TCP server *)

Definition onConnection (sock : Socket) (s : State) : State :=
  let s := upd_stats (fun st => set_tcpConnects (tcpConnects st + 1) st) s in
  set_currentSocket (Some sock) s.

Definition socketOnData (now : Z) (chunk : list byte) (s : State) : State :=
  let s := upd_stats (fun st =>
             set_lastTcpAt now
               (set_tcpBytes (tcpBytes st + Z.of_nat (List.length chunk)) st)) s in
  let s := set_tcpBuffer
             (if (List.length (tcpBuffer s) =? 0)%nat then chunk
              else tcpBuffer s ++ chunk) s in
  processTcpBuffer now s.

Definition socketOnClose (sock : Socket) (s : State) : State :=
  let s := match currentSocket s with
           | Some cur => if Nat.eqb cur sock then set_currentSocket None s else s
           | None => s
           end in
  set_tcpBuffer [] s.

(** ** Shield configuration and stream life cycle *)

Definition tcpConfig (output : bool) : Payload :=
  JsonTcp (localIp cfg) (tcpPort cfg) (latencyUs cfg) output.

Definition configureShieldTcp : Async bool :=
  r <- httpJson (endpoint "/tcp") (tcpConfig true) ;;
  if negb (ok r) then
    r2 <- httpJson (endpoint "/tcp") (tcpConfig false) ;;
    Ret (ok r2)
  else Ret true.

Definition streamStop : Request :=
  mkRequest GET (endpoint "/stream/stop") None NoPayload.

Definition streamStart : Request :=
  mkRequest GET (endpoint "/stream/start") None NoPayload.

Definition stopStream : Async bool :=
  Do SetLastStopAt
    (r <- httpGet (endpoint "/stream/stop") ;;
     Ret (ok r)).

Fixpoint forOf {A : Type} (l : list A) (body : A -> Async unit) : Async unit :=
  match l with
  | [] => Ret tt
  | x :: rest => _ <- body x ;; forOf rest body
  end.

Definition startStream : Async bool :=
  Do SetLastStartAt
    (_ <- stopStream ;;
     _ <- (if truthy (initCmd cfg)
           then init <- sendShieldCommand (initCmd cfg) ;; Ret tt
           else Ret tt) ;;
     _ <- (match channelCmds cfg with
           | _ :: _ =>
               forOf (channelCmds cfg)
                     (fun c => r <- sendShieldCommand (snd c) ;; Ret tt)
           | [] => Ret tt
           end) ;;
     Sleep 1000
       (detached (r <- httpGet (endpoint "/stream/start") ;;
                  Ret (ok r)))).

(** How a synchronous call ends: it returns, or it throws. *)
Inductive Ending := Returns | Throws.

(** The ports [server.listen] takes; it checks the port before anything
    else and throws [ERR_SOCKET_BAD_PORT] on any other.  A port outside
    the range also stands for what [Number] gives that is no port at all
    ([NaN], a fraction), which [server.listen] refuses in the same way. *)
Definition validPort (port : Z) : bool := (0 <=? port) && (port <=? 65535).

(** [server.listen(tcpPort, "0.0.0.0", ...)] *)
Definition listen (now : Z) (s : State) : Ending * State :=
  let s := emit now EListen s in
  if validPort (tcpPort cfg) then (Returns, set_listener Binding s)
  else (Throws, s).

Definition startServer (now : Z) (s : State) : Ending * State :=
  if serverStarted s then (Returns, s)
  else listen now (set_serverStarted true s).

(** The callback of [server.listen]. *)
Definition onListening : Async unit :=
  detached (okc <- configureShieldTcp ;; Ret tt).

(** ** The event loop *)

Definition perform (a : Action) (now : Z) (s : State) : State :=
  match a with
  | SetLastStartAt => upd_stats (set_lastStartAt now) s
  | SetLastStopAt => upd_stats (set_lastStopAt now) s
  | DecQueueDepth => set_cmdQueueDepth (Z.max 0 (cmdQueueDepth s - 1)) s
  end.

Definition setTimeout (now ms : Z) (cb : Callback) (s : State) : State :=
  let tm := mkTimer (nextTimer s) (now + ms) cb in
  set_nextTimer (S (nextTimer s)) (set_timers (timers s ++ [tm]) s).

(** Run [p] up to its next [await].  A rejection that reaches the top has
    no handler: Node ends the process. *)
Fixpoint advance (now : Z) (w : Who) (p : Async unit) (s : State) : Task * State :=
  match p with
  | Ret _ => (Runnable p, s)
  | Throw _ => (Runnable p, set_halted true s)
  | Unhandled _ => (Runnable p, set_halted true s)
  | Fetch r k => (OnFetch k, emit now (EHttp w r) s)
  | Sleep ms body => (OnTimer body, setTimeout now ms (CbWake w) s)
  | Do a k => advance now w k (perform a now s)
  end.

Definition who_eqb (a b : Who) : bool :=
  match a, b with
  | Queue, Queue => true
  | Begin n, Begin m => Nat.eqb n m
  | Stop n, Stop m => Nat.eqb n m
  | Configure, Configure => true
  | _, _ => false
  end.

Fixpoint assoc (w : Who) (l : list (Who * Task)) : option Task :=
  match l with
  | [] => None
  | (w', t) :: r => if who_eqb w w' then Some t else assoc w r
  end.

Definition dropTask (w : Who) (l : list (Who * Task)) : list (Who * Task) :=
  filter (fun e => negb (who_eqb w (fst e))) l.

Definition lookupTask (w : Who) (s : State) : option Task :=
  match w with
  | Queue => Some (cmdQ s)
  | _ => assoc w (tasks s)
  end.

(** [cmdQ] is kept when settled (commands chain onto it); the other
    promises are dropped once they are. *)
Definition storeTask (w : Who) (t : Task) (s : State) : State :=
  match w with
  | Queue => set_cmdQ t s
  | _ =>
      match t with
      | Runnable _ => set_tasks (dropTask w (tasks s)) s
      | _ => set_tasks ((w, t) :: dropTask w (tasks s)) s
      end
  end.

Definition runTask (now : Z) (w : Who) (p : Async unit) (s : State) : State :=
  storeTask w (fst (advance now w p s)) (snd (advance now w p s)).

(** The microtask checkpoint after a callback: the reactions chained
    onto [cmdQ] run. *)
Definition pump (now : Z) (s : State) : State :=
  match cmdQ s with
  | Runnable p => runTask now Queue p s
  | _ => s
  end.

Definition fire (now : Z) (cb : Callback) (s : State) : State :=
  match cb with
  | CbBegin =>
      match startServer now s with
      | (Throws, s) =>
          (* an exception that leaves a timer callback ends the process *)
          set_halted true s
      | (Returns, s) =>
          let n := nextTask s in
          runTask now (Begin n)
                  (pcatch (_ <- startStream ;; Ret tt) (fun _ => Ret tt))
                  (set_nextTask (S n) s)
      end
  | CbStop =>
      let n := nextTask s in
      runTask now (Stop n)
              (pcatch (_ <- stopStream ;; Ret tt) (fun _ => Ret tt))
              (set_nextTask (S n) s)
  | CbWake w =>
      match lookupTask w s with
      | Some (OnTimer body) => runTask now w body s
      | _ => s
      end
  end.

(** The second loop of [serial.on("data")]: the trigger bytes. *)
Definition triggerByte (now : Z) (b : byte) (s : State) : State :=
  let s := if Byte.eqb b x62 (* "b" *) then setTimeout now 1000 CbBegin s else s in
  if Byte.eqb b x73 (* "s" *) then setTimeout now 1000 CbStop s else s.

Definition serialOnData (now : Z) (buf : list byte) (s : State) : State :=
  fold_left (fun s b => triggerByte now b s) buf (feedCmdBytes now buf s).

(** What the outside can do. *)
Inductive Event :=
| TcpConnect (sock : Socket)
| TcpData (sock : Socket) (chunk : list byte)
| TcpClose (sock : Socket)
| SerialData (buf : list byte)
| SerialDrain
| SerialStatus (p : SerialPort)   (* the port changes what it will answer *)
| TimerFires (id : nat)
| FetchSettles (w : Who) (r : FetchResult)
| ServerListening
| ServerError.

Definition findTimer (id : nat) (s : State) : option Timer :=
  find (fun tm => Nat.eqb (tm_id tm) id) (timers s).

Definition dropTimer (id : nat) (s : State) : State :=
  set_timers (filter (fun tm => negb (Nat.eqb (tm_id tm) id)) (timers s)) s.

Definition isOpen (sock : Socket) (s : State) : bool :=
  existsb (Nat.eqb sock) (sockets s).

(** When an event can happen at time [now]: the process is alive, time does
    not go back, a timer does not fire early, a socket speaks only while it
    is open, a [fetch] settles only while one is awaited. *)
Definition enabled (now : Z) (e : Event) (s : State) : bool :=
  negb (halted s) && (clock s <=? now) &&
  match e with
  | TcpConnect sock =>
      match listener s with Listening => negb (isOpen sock s) | _ => false end
  | TcpData sock _ => isOpen sock s
  | TcpClose sock => isOpen sock s
  | SerialData _ => true
  | SerialDrain => true
  | SerialStatus _ => true
  | TimerFires id =>
      match findTimer id s with
      | Some tm => tm_due tm <=? now
      | None => false
      end
  | FetchSettles w _ =>
      match lookupTask w s with Some (OnFetch _) => true | _ => false end
  | ServerListening =>
      match listener s with Binding => true | _ => false end
  | ServerError =>
      match listener s with NotListening => false | _ => true end
  end.

Definition react (now : Z) (e : Event) (s : State) : State :=
  match e with
  | TcpConnect sock => onConnection sock (set_sockets (sock :: sockets s) s)
  | TcpData _ chunk => socketOnData now chunk s
  | TcpClose sock =>
      socketOnClose sock
        (set_sockets (filter (fun x => negb (Nat.eqb sock x)) (sockets s)) s)
  | SerialData buf => serialOnData now buf s
  | SerialDrain => serialOnDrain now s
  | SerialStatus p => set_serial p s
  | TimerFires id =>
      match findTimer id s with
      | Some tm => fire now (tm_cb tm) (dropTimer id s)
      | None => s
      end
  | FetchSettles w r =>
      match lookupTask w s with
      | Some (OnFetch k) => runTask now w (k r) s
      | _ => s
      end
  | ServerListening => runTask now Configure onListening (set_listener Listening s)
  | ServerError => set_halted true s   (* process.exit(1) *)
  end.

(** One turn of the event loop: the callback, then the microtasks. *)
Definition handle (now : Z) (e : Event) (s : State) : option State :=
  if enabled now e s then Some (pump now (react now e (set_clock now s)))
  else None.

Fixpoint run (evs : list (Z * Event)) (s : State) : option State :=
  match evs with
  | [] => Some s
  | (now, e) :: rest =>
      match handle now e s with
      | Some s' => run rest s'
      | None => None
      end
  end.

End Program.

(** The state once the serial port is open and the handlers are in place. *)
Definition initial (t0 : Z) (port : SerialPort) : State :=
  mkState (mkStats t0 0 0 0 0 0 0 0 0 0 0 0 0)
          None false [] false "" 0 (Runnable (Ret tt))
          [] 0 [] 0
          port [] NotListening false t0 [].

Inductive reachable (cfg : Config) : State -> Prop :=
| reachable_initial : forall t0 port, reachable cfg (initial t0 port)
| reachable_step : forall s now e s',
    reachable cfg s -> handle cfg now e s = Some s' -> reachable cfg s'.

(** * Vocabulary of the properties *)

(** ** Observations on the trace *)

(** The frames handed to [writeToSerial], in order. *)
Definition framesOf (tr : list (Z * Effect)) : list (list byte) :=
  flat_map (fun e => match snd e with EFrame f => [f] | _ => [] end) tr.

(** The tokens handed to [queueCmd], in order. *)
Definition tokensOf (tr : list (Z * Effect)) : list string :=
  flat_map (fun e => match snd e with EQueue c => [c] | _ => [] end) tr.

(** The flow-control signals sent to sockets, in order. *)
Inductive Signal :=
| Pause (sock : Socket)
| Resume (sock : Socket).

Definition signalsOf (tr : list (Z * Effect)) : list Signal :=
  flat_map (fun e => match snd e with
                     | EPause sock => [Pause sock]
                     | EResume sock => [Resume sock]
                     | _ => []
                     end) tr.

(** Replay signals against a flag: a pause needs the flag down and raises
    it, a resume needs it up and lowers it.  [None] as soon as a signal
    repeats the one before. *)
Fixpoint flagAfter (flag : bool) (sigs : list Signal) : option bool :=
  match sigs with
  | [] => Some flag
  | Pause _ :: rest => if flag then None else flagAfter true rest
  | Resume _ :: rest => if flag then flagAfter false rest else None
  end.

(** The requests sent on behalf of [w], with the time of each. *)
Definition requestsOf (w : Who) (tr : list (Z * Effect)) : list (Z * Request) :=
  flat_map (fun e => match snd e with
                     | EHttp w' r => if who_eqb w w' then [(fst e, r)] else []
                     | _ => []
                     end) tr.

(** All the requests sent, with their time and on whose behalf. *)
Definition httpOf (tr : list (Z * Effect)) : list (Z * Who * Request) :=
  flat_map (fun e => match snd e with
                     | EHttp w r => [(fst e, w, r)]
                     | _ => []
                     end) tr.

(** The commands whose JSON POST the queue has sent, in order: the
    dispatches started so far. *)
Definition dispatchedOf (tr : list (Z * Effect)) : list string :=
  flat_map (fun e => match snd e with
                     | EHttp Queue r =>
                         match payload r with
                         | JsonCommand c => [c]
                         | _ => []
                         end
                     | _ => []
                     end) tr.

(** The high nibble of a byte. *)
Definition highNibble (b : byte) : N := N.shiftr (Byte.to_N b) 4.

(** ** The frames in a byte stream *)

(** What is left of a buffer from its first sync byte on. *)
Fixpoint toSync (buf : list byte) : list byte :=
  match buf with
  | [] => []
  | x :: rest => if Byte.eqb x xa0 then buf else toSync rest
  end.

(** The [while] loop of [processTcpBuffer] seen from its buffer alone: the
    frames it hands on and the bytes it leaves. *)
Fixpoint scan (fuel : nat) (buf : list byte) : list (list byte) * list byte :=
  match fuel with
  | O => ([], buf)
  | S fuel' =>
      if (33 <=? List.length buf)%nat then
        if differs (nth_error buf 0) xa0 then
          if indexOf buf xa0 =? -1 then ([], [])
          else scan fuel' (skipn (Z.to_nat (indexOf buf xa0)) buf)
        else if (List.length buf <? 33)%nat then ([], buf)
        else if negb (bitAnd (nth_error (firstn 33 buf) 32) 0xf0 =? 0xc0)%N then
          scan fuel' (skipn 1 buf)
        else
          (firstn 33 buf :: fst (scan fuel' (skipn 33 buf)),
           snd (scan fuel' (skipn 33 buf)))
      else ([], buf)
  end.

Definition parse (buf : list byte) : list (list byte) * list byte :=
  scan (S (List.length buf)) buf.

(** ** The tokens in a byte stream *)

(** A turn of the loop of [feedCmdBytes] seen from [cmdBuf] alone: the
    buffer it leaves and the tokens it queues. *)
Definition tokenStep (buf : string) (b : byte) : string * list string :=
  let ch := ascii_of_byte b in
  if Byte.eqb b x00 then (buf, [])
  else
    let buf := (buf ++ String ch EmptyString)%string in
    if Ascii.eqb ch "010" || Ascii.eqb ch "013" then
      ("", if truthy (trim buf) then [trim buf] else [])
    else if (String.length buf =? 1)%nat && has singleCharCmd buf then
      ("", [buf])
    else if Ascii.eqb ch "X" || Ascii.eqb ch "Z" then
      ("", if truthy (trim buf) then [trim buf] else [])
    else if (256 <? String.length buf)%nat then ("", [])
    else (buf, []).

Fixpoint tokenize (buf : string) (bytes : list byte) : string * list string :=
  match bytes with
  | [] => (buf, [])
  | b :: rest =>
      (fst (tokenize (fst (tokenStep buf b)) rest),
       snd (tokenStep buf b) ++ snd (tokenize (fst (tokenStep buf b)) rest))
  end.

(** ** Running asynchronous code against scripted answers *)

(** How a promise ends: fulfilled, rejected, still waiting for an answer,
    or never settled because a rejection without a handler has ended the
    process. *)
Inductive Outcome (A : Type) : Type :=
| Fulfilled (a : A)
| Rejected (e : string)
| Waiting
| Crashed (e : string).

Arguments Fulfilled {A} a.
Arguments Rejected {A} e.
Arguments Waiting {A}.
Arguments Crashed {A} e.

(** The requests [p] makes, in order, when its fetches settle as [script]
    says, and how [p] ends ([Waiting] if the script runs out first).  Timers
    are taken to fire. *)
Fixpoint play {A : Type} (p : Async A) (script : list FetchResult)
  : list Request * Outcome A :=
  match p with
  | Ret a => ([], Fulfilled a)
  | Throw e => ([], Rejected e)
  | Unhandled e => ([], Crashed e)
  | Fetch r k =>
      match script with
      | [] => ([r], Waiting)
      | x :: rest => (r :: fst (play (k x) rest), snd (play (k x) rest))
      end
  | Sleep _ body => play body script
  | Do _ k => play k script
  end.

(** ** What flow control and the frame counters depend on *)

Definition flowView (s : State) : Z * Z * bool * list Signal :=
  (tcpFramesOk (stats s), serialFrames (stats s),
   pausedBySerialBackpressure s, signalsOf (trace s)).

(** The flag agrees with the signals sent so far, none of them redundant. *)
Definition flagInv (s : State) : Prop :=
  flagAfter false (signalsOf (trace s)) = Some (pausedBySerialBackpressure s).

(** A sequence of signals made of pauses only. *)
Definition pausesOnly (sigs : list Signal) : Prop :=
  forall sock, ~ In (Resume sock) sigs.

(** ** What the command queue depends on *)

Definition queueView (s : State) : Task * list string * list string :=
  (cmdQ s, tokensOf (trace s), dispatchedOf (trace s)).

(** [Plan cfg p cmds]: however its fetches settle, [p] starts the dispatch
    of each of [cmds], in that order and once each, makes no request but the
    two POSTs of a command, and ends fulfilled. *)
Inductive Plan (cfg : Config) : Async unit -> list string -> Prop :=
| Plan_done : Plan cfg (Ret tt) []
| Plan_dec : forall k cmds,
    Plan cfg k cmds -> Plan cfg (Do DecQueueDepth k) cmds
| Plan_json : forall cmd k cmds,
    (forall x, Plan cfg (k x) cmds) ->
    Plan cfg (Fetch (commandJson cfg cmd) k) (cmd :: cmds)
| Plan_text : forall cmd k cmds,
    (forall x, Plan cfg (k x) cmds) ->
    Plan cfg (Fetch (commandText cfg cmd) k) cmds.

Definition TaskPlan (cfg : Config) (t : Task) (cmds : list string) : Prop :=
  match t with
  | Runnable p => Plan cfg p cmds
  | OnFetch k => forall x, Plan cfg (k x) cmds
  | OnTimer _ => False
  end.

(** [Chained cfg t t' added]: [t'] is [t] with one link chained on for each
    of [added]. *)
Inductive Chained (cfg : Config) (t : Task) : Task -> list string -> Prop :=
| Chained_nil : Chained cfg t t []
| Chained_snoc : forall t' added cmd,
    Chained cfg t t' added ->
    Chained cfg t (mapTask (fun p => link cfg p cmd) t') (added ++ [cmd]).

(** [cmdQ] awaits the answer to a request. *)
Definition inFlight (s : State) : Prop := exists k, cmdQ s = OnFetch k.

(** Between two turns of the event loop: what was queued is what was
    dispatched followed by what [cmdQ] still has to dispatch, and [cmdQ] is
    settled with nothing left or awaits an answer. *)
Definition queueInv (cfg : Config) (s : State) : Prop :=
  exists waiting,
    TaskPlan cfg (cmdQ s) waiting /\
    tokensOf (trace s) = dispatchedOf (trace s) ++ waiting /\
    (cmdQ s = Runnable (Ret tt) /\ waiting = [] \/ inFlight s).

(** What a callback may do to the queue: chain links onto it, one for each
    token it queues, and start no dispatch. *)
Definition chains (cfg : Config) (s s' : State) : Prop :=
  exists added,
    Chained cfg (cmdQ s) (cmdQ s') added /\
    tokensOf (trace s') = tokensOf (trace s) ++ added /\
    dispatchedOf (trace s') = dispatchedOf (trace s).

(** ** Sample inputs and runs *)

(** A configuration with no initialization command and no channel
    commands. *)
Definition cfg0 : Config :=
  mkConfig "192.168.10.106" "192.168.10.101" 9000 200 "" [].

(** A serial port that takes every write; one that refuses writes
    ([serial.writable] is false); one that reports saturation on its next
    write. *)
Definition port0 : SerialPort := mkSerialPort true [].

Definition closedPort : SerialPort := mkSerialPort false [].

Definition saturatedPort : SerialPort := mkSerialPort true [false].

(** A block of 33 bytes with the sync byte in front and [stop] at the
    end. *)
Definition frameWith (stop : byte) : list byte := xa0 :: repeat x00 31 ++ [stop].

(** The bytes of a text. *)
Definition bytesOf (x : string) : list byte :=
  List.map byte_of_ascii (list_ascii_of_string x).

(** A run in which a valid frame arrives while the port refuses writes. *)
Definition droppedFrameRun : list (Z * Event) :=
  [ (10, SerialData [x62]);
    (1010, TimerFires 0%nat);
    (1020, ServerListening);
    (1030, TcpConnect 1%nat);
    (1040, SerialStatus closedPort);
    (1050, TcpData 1%nat (frameWith xc0)) ].

(** A run in which a frame is written to a saturated port, which pauses
    the socket. *)
Definition pausedRun : list (Z * Event) :=
  [ (10, SerialData [x62]);
    (1010, TimerFires 0%nat);
    (1020, ServerListening);
    (1030, TcpConnect 1%nat);
    (1040, SerialStatus saturatedPort);
    (1050, TcpData 1%nat (frameWith xc0)) ].

(** A run in which two commands arrive in one chunk. *)
Definition twoCommandsRun : list (Z * Event) :=
  [ (10, SerialData (bytesOf "v5")) ].

(** A run in which the command "v" is queued and its JSON POST is refused
    by the network. *)
Definition refusedCommandRun : list (Z * Event) :=
  [ (10, SerialData (bytesOf "v"));
    (20, FetchSettles Queue (Failed "ECONNREFUSED")) ].

(** * More vocabulary *)

(** ** The data path *)

(** What was written to the serial port, in order. *)
Definition writesOf (tr : list (Z * Effect)) : list (list byte) :=
  flat_map (fun e => match snd e with ESerialWrite d => [d] | _ => [] end) tr.

(** A well-formed frame: 33 bytes, the sync byte in front, a stop byte
    with high nibble 0xC at the end. *)
Definition isFrame (f : list byte) : bool :=
  (List.length f =? 33)%nat
  && negb (differs (nth_error f 0) xa0)
  && match nth_error f 32 with
     | Some b => (highNibble b =? 0xc)%N
     | None => false
     end.

(** How many pauses a trace holds. *)
Definition pausesOf (tr : list (Z * Effect)) : Z :=
  Z.of_nat (List.length
              (filter (fun g => match g with Pause _ => true | Resume _ => false end)
                      (signalsOf tr))).

Fixpoint bytes_eqb (a b : list byte) : bool :=
  match a, b with
  | [], [] => true
  | x :: a', y :: b' => Byte.eqb x y && bytes_eqb a' b'
  | _, _ => false
  end.

(** Replay a trace, keeping the frame handed on and not yet written:
    [None] if something is written that is not that frame. *)
Fixpoint pendingAfter (pending : option (list byte)) (tr : list (Z * Effect))
  : option (option (list byte)) :=
  match tr with
  | [] => Some pending
  | (_, EFrame f) :: rest => pendingAfter (Some f) rest
  | (_, ESerialWrite d) :: rest =>
      match pending with
      | Some f => if bytes_eqb f d then pendingAfter None rest else None
      | None => None
      end
  | _ :: rest => pendingAfter pending rest
  end.

(** What the command side and the life cycle never touch. *)
Definition dataSide (s : State)
  : list byte * (Z * Z * Z * Z * Z * Z)
    * list (list byte) * list (list byte) * list Signal
    * option (option (list byte)) :=
  (tcpBuffer s,
   (tcpBytes (stats s), tcpFramesOk (stats s), tcpFramesBad (stats s),
    serialBytes (stats s), serialFrames (stats s), serialBackpressure (stats s)),
   framesOf (trace s), writesOf (trace s), signalsOf (trace s),
   pendingAfter None (trace s)).

(** The books of the data path. *)
Definition sinkInv (s : State) : Prop :=
  Forall (fun f => isFrame f = true) (framesOf (trace s)) /\
  pendingAfter None (trace s) <> None /\
  tcpFramesOk (stats s) = Z.of_nat (List.length (framesOf (trace s))) /\
  serialFrames (stats s) = Z.of_nat (List.length (writesOf (trace s))) /\
  serialBytes (stats s) = 33 * serialFrames (stats s) /\
  serialBackpressure (stats s) = pausesOf (trace s) /\
  33 * tcpFramesOk (stats s) + tcpFramesBad (stats s)
    + Z.of_nat (List.length (tcpBuffer s)) <= tcpBytes (stats s).

(** An effect that is neither a frame handed on nor a write. *)
Definition aside (e : Effect) : bool :=
  match e with
  | EFrame _ | ESerialWrite _ => false
  | _ => true
  end.

(** ** The command side *)

(** A token as the shield should get it: not empty, no white space at
    either end, no longer than the accumulator can get. *)
Definition goodToken (t : string) : Prop :=
  truthy t = true /\ trim t = t /\ (String.length t <= 257)%nat.

(** The invariant of the aggregator. *)
Definition cmdInv (s : State) : Prop :=
  (String.length (cmdBuf s) <= 256)%nat /\ Forall goodToken (tokensOf (trace s)).

(** A character that the aggregator only collects: not NUL, not an end of
    line, not 'X' or 'Z'. *)
Definition plainChar (c : ascii) : bool :=
  negb (Ascii.eqb c "000" || Ascii.eqb c "010" || Ascii.eqb c "013"
        || Ascii.eqb c "X" || Ascii.eqb c "Z").

Fixpoint allPlain (x : string) : bool :=
  match x with
  | EmptyString => true
  | String c r => plainChar c && allPlain r
  end.

(** A line the aggregator keeps in one piece: plain characters, at most
    256 of them, the first of which is not a single-character command. *)
Definition plainLine (x : string) : bool :=
  allPlain x && (String.length x <=? 256)%nat &&
  match x with
  | EmptyString => true
  | String c _ => negb (has singleCharCmd (String c EmptyString))
  end.

(** A byte other than NUL. *)
Definition notNull (b : byte) : bool := negb (Byte.eqb b x00).

(** What only the "data" callback of the serial port touches. *)
Definition cmdSide (s : State) : string * list string :=
  (cmdBuf s, tokensOf (trace s)).

(** The timer callbacks that the trigger bytes of a chunk ask for, in
    order. *)
Definition triggersOf (buf : list byte) : list Callback :=
  flat_map (fun b => if Byte.eqb b x62 then [CbBegin]
                     else if Byte.eqb b x73 then [CbStop]
                     else []) buf.

(** Timers for callbacks, numbered from [id] on, all due at [due]. *)
Fixpoint stamp (id : nat) (due : Z) (cbs : list Callback) : list Timer :=
  match cbs with
  | [] => []
  | cb :: rest => mkTimer id due cb :: stamp (S id) due rest
  end.

(** A run in which a chunk holds a channel command between blanks and
    NUL bytes, and a chunk ends in the middle of a line. *)
Definition commandsRun : list (Z * Event) :=
  [ (10, SerialData (x00 :: bytesOf " x1060110X" ++ [x00; x0d; x0a]));
    (20, SerialData (bytesOf "/0")) ].

(** ** The depth of the command queue *)

(** Where a program of the command queue stands.  [Stage cfg false p cmds]:
    [p] is between two links; it is done, or it is about to send the JSON
    request of the first of [cmds].  [Stage cfg true p cmds]: [p] is inside
    a link, whose decrement of [cmdQueueDepth] is still to come, with the
    links of [cmds] behind it. *)
Inductive Stage (cfg : Config) : bool -> Async unit -> list string -> Prop :=
| Stage_done : Stage cfg false (Ret tt) []
| Stage_json : forall cmd k cmds,
    (forall x, Stage cfg true (k x) cmds) ->
    Stage cfg false (Fetch (commandJson cfg cmd) k) (cmd :: cmds)
| Stage_text : forall cmd k cmds,
    (forall x, Stage cfg true (k x) cmds) ->
    Stage cfg true (Fetch (commandText cfg cmd) k) cmds
| Stage_dec : forall k cmds,
    Stage cfg false k cmds -> Stage cfg true (Do DecQueueDepth k) cmds.

(** A program that never assigns to [cmdQueueDepth]. *)
Inductive Quiet {A : Type} : Async A -> Prop :=
| Quiet_ret : forall a, Quiet (Ret a)
| Quiet_throw : forall e, Quiet (Throw e)
| Quiet_unhandled : forall e, Quiet (Unhandled e)
| Quiet_fetch : forall r k, (forall x, Quiet (k x)) -> Quiet (Fetch r k)
| Quiet_sleep : forall ms body, Quiet body -> Quiet (Sleep ms body)
| Quiet_do : forall a k, a <> DecQueueDepth -> Quiet k -> Quiet (Do a k).

Definition TaskQuiet (t : Task) : Prop :=
  match t with
  | Runnable p => Quiet p
  | OnFetch k => forall x, Quiet (k x)
  | OnTimer body => Quiet body
  end.

(** [cmdQ] awaits the answer to a request. *)
Definition awaiting (t : Task) : bool :=
  match t with OnFetch _ => true | _ => false end.

(** What the books of the queue read. *)
Definition depthView (s : State)
  : Task * Z * list string * list string * list (Who * Task) :=
  (cmdQ s, cmdQueueDepth s, tokensOf (trace s), dispatchedOf (trace s), tasks s).

(** The promise [t] of the queue agrees with the books of [s]: the depth
    is the number of commands waiting, and one more while a command is
    under way. *)
Definition queueOk (cfg : Config) (t : Task) (s : State) : Prop :=
  match t with
  | Runnable p =>
      exists waiting,
        Stage cfg false p waiting /\
        tokensOf (trace s) = dispatchedOf (trace s) ++ waiting /\
        cmdQueueDepth s = Z.of_nat (List.length waiting)
  | OnFetch k =>
      exists waiting,
        (forall x, Stage cfg true (k x) waiting) /\
        tokensOf (trace s) = dispatchedOf (trace s) ++ waiting /\
        cmdQueueDepth s = 1 + Z.of_nat (List.length waiting)
  | OnTimer _ => False
  end.

Definition depthInv (cfg : Config) (s : State) : Prop :=
  queueOk cfg (cmdQ s) s /\
  Forall (fun e => TaskQuiet (snd e)) (tasks s).

(** ** The requests of the life cycle *)

(** A text/plain POST: the second attempt at a command. *)
Definition isFallback (r : Request) : bool :=
  match payload r with PlainText _ => true | _ => false end.

(** Requests less the second attempts. *)
Definition firstAttempts (rs : list Request) : list Request :=
  filter (fun r => negb (isFallback r)) rs.

(** A [fetch] that got a response, of whatever status; one that got a
    response with a status in 200-299. *)
Definition responded (x : FetchResult) : bool :=
  match x with Responded _ => true | Failed _ => false end.

Definition accepted (x : FetchResult) : bool :=
  match x with Responded r => resp_ok r | Failed _ => false end.

(** The commands of the begin sequence: the initialization command when
    there is one, then the channel commands. *)
Definition setupCmds (cfg : Config) : list string :=
  (if truthy (initCmd cfg) then [initCmd cfg] else [])
  ++ List.map snd (channelCmds cfg).

(** [Strict avoid p]: [p] sets no timer, never requests [avoid], and lets
    a transport failure through: when a [fetch] is rejected, [p] is
    rejected with the same error, there and then. *)
Inductive Strict {A : Type} (avoid : Request) : Async A -> Prop :=
| Strict_ret : forall a, Strict avoid (Ret a)
| Strict_fetch : forall r k,
    r <> avoid ->
    (forall resp, Strict avoid (k (Responded resp))) ->
    (forall e, k (Failed e) = Throw e) ->
    Strict avoid (Fetch r k)
| Strict_do : forall a k, Strict avoid k -> Strict avoid (Do a k).

(** The timer that ends [startStream]: the start-stream call is awaited
    inside the [async] callback of the timer, whose promise nobody holds. *)
Definition wakeStart (cfg : Config) : Async bool :=
  Sleep 1000
    (detached (r <- httpGet (endpoint cfg "/stream/start") ;; Ret (ok r))).

(** [Begins cfg p]: [p] is strict up to that timer, and ends with it. *)
Inductive Begins (cfg : Config) : Async bool -> Prop :=
| Begins_wake : Begins cfg (wakeStart cfg)
| Begins_fetch : forall r k,
    r <> streamStart cfg ->
    (forall resp, Begins cfg (k (Responded resp))) ->
    (forall e, k (Failed e) = Throw e) ->
    Begins cfg (Fetch r k)
| Begins_do : forall a k, Begins cfg k -> Begins cfg (Do a k).

(** A configuration with an initialization command and two channel
    commands. *)
Definition cfg2 : Config :=
  mkConfig "192.168.10.106" "192.168.10.101" 9000 200 "/0d~6"
           [(1%nat, "x1060110X"); (2%nat, "x2060110X")].

Definition okResponse : FetchResult := Responded (mkResponse 200 (Some "ok")).

Definition notFound : FetchResult := Responded (mkResponse 404 None).

(** The POST of [configureShieldTcp], with or without the [output]
    member. *)
Definition tcpRequest (cfg : Config) (output : bool) : Request :=
  mkRequest POST (endpoint cfg "/tcp") (Some "application/json")
            (tcpConfig cfg output).

(** ** The TCP server *)

(** The times of the calls of [server.listen]. *)
Definition listensOf (tr : list (Z * Effect)) : list Z :=
  flat_map (fun e => match snd e with EListen => [fst e] | _ => [] end) tr.

(** What the serial side, the timers and the requests leave alone, but
    for the call of [startServer]. *)
Definition serverView (s : State) :=
  (serverStarted s, listensOf (trace s), listener s, sockets s,
   currentSocket s, tcpBuffer s, framesOf (trace s), writesOf (trace s),
   tcpBytes (stats s), tcpConnects (stats s)).

Definition listenView (s : State) : bool * list Z :=
  (serverStarted s, listensOf (trace s)).

(** Before [startServer] nothing of the TCP side exists; after it,
    [server.listen] has been called once. *)
Definition serverInv (s : State) : Prop :=
  if serverStarted s
  then List.length (listensOf (trace s)) = 1%nat
  else serverView s = (false, [], NotListening, [], None, [], [], [], 0, 0).

(** ** What ends the process *)

(** [Sound p]: [p] never ends rejected, however its requests settle. *)
Inductive Sound {A : Type} : Async A -> Prop :=
| Sound_ret : forall a, Sound (Ret a)
| Sound_fetch : forall r k, (forall x, Sound (k x)) -> Sound (Fetch r k)
| Sound_sleep : forall ms body, Sound body -> Sound (Sleep ms body)
| Sound_do : forall a k, Sound k -> Sound (Do a k).

(** [Calm false p]: [p] is not rejected before its next [await], and
    goes on in the same way when its requests are answered.  [Calm true p]
    is what is left of such a program when a request has failed: it may go
    on, or be rejected there and then. *)
Inductive Calm {A : Type} : bool -> Async A -> Prop :=
| Calm_ret : forall b a, Calm b (Ret a)
| Calm_throw : forall e, Calm true (Throw e)
| Calm_unhandled : forall e, Calm true (Unhandled e)
| Calm_fetch : forall b r k,
    (forall resp, Calm false (k (Responded resp))) ->
    (forall e, Calm true (k (Failed e))) ->
    Calm b (Fetch r k)
| Calm_sleep : forall b ms body, Calm false body -> Calm b (Sleep ms body)
| Calm_do : forall b a k, Calm b k -> Calm b (Do a k).

Definition TaskSound (t : Task) : Prop :=
  match t with
  | Runnable p => Sound p
  | OnFetch k => forall x, Sound (k x)
  | OnTimer body => Sound body
  end.

Definition TaskCalm (t : Task) : Prop :=
  match t with
  | Runnable p => Calm false p
  | OnFetch k =>
      (forall resp, Calm false (k (Responded resp))) /\
      (forall e, Calm true (k (Failed e)))
  | OnTimer body => Calm false body
  end.

(** The promises of the stop triggers are sound, the others calm. *)
Definition taskOk (e : Who * Task) : Prop :=
  match fst e with
  | Stop _ => TaskSound (snd e)
  | _ => TaskCalm (snd e)
  end.

(** The events that can end the process: an error of the TCP server; a
    transport failure met by the listen callback or by a begin sequence;
    and the timer of a 'b' byte that finds the server not started and a
    port that [server.listen] refuses. *)
Definition fatal (cfg : Config) (s : State) (e : Event) : Prop :=
  e = ServerError \/
  (exists w err,
     e = FetchSettles w (Failed err) /\
     (w = Configure \/ exists n, w = Begin n)) \/
  (exists id tm,
     e = TimerFires id /\ findTimer id s = Some tm /\ tm_cb tm = CbBegin /\
     serverStarted s = false /\ validPort (tcpPort cfg) = false).

Definition haltView (s : State) : bool * list (Who * Task) :=
  (halted s, tasks s).

(** A begin sequence in which the server starts and the shield is
    configured, the stop-stream call is answered, and the network refuses
    the start-stream request. *)
Definition startRefusedRun : list (Z * Event) :=
  [ (10, SerialData [x62]);
    (1010, TimerFires 0%nat);
    (1011, ServerListening);
    (1015, FetchSettles Configure okResponse);
    (1020, FetchSettles (Begin 0) okResponse);
    (2020, TimerFires 1%nat);
    (2030, FetchSettles (Begin 0) (Failed "ECONNREFUSED")) ].

(** A configuration with a TCP port that [server.listen] refuses, and
    the arrival of a 'b' byte. *)
Definition cfgBadPort : Config :=
  mkConfig "192.168.10.106" "192.168.10.101" 70000 200 "" [].

Definition triggerRun : list (Z * Event) := [ (10, SerialData [x62]) ].

(** ** Command line and environment *)

(** A JavaScript value, as far as the configuration code tells values
    apart. *)
Inductive Value :=
| Undefined
| Bool (b : bool)
| Str (x : string).

(** [process.env]: a variable is set to a string, or is not set.  The
    strings are taken to hold code units below 256. *)
Definition Env := string -> option string.

Definition getenv (env : Env) (key : string) : Value :=
  match env key with Some v => Str v | None => Undefined end.

(** A value used as a condition. *)
Definition truthyValue (v : Value) : bool :=
  match v with
  | Undefined => false
  | Bool b => b
  | Str x => truthy x
  end.

(** [String(v)] *)
Definition toString (v : Value) : string :=
  match v with
  | Undefined => "undefined"
  | Bool true => "true"
  | Bool false => "false"
  | Str x => x
  end.

(** [a ?? b] and [a || b] *)
Definition nullish (a b : Value) : Value :=
  match a with Undefined => b | _ => a end.

Definition orElse (a b : Value) : Value :=
  if truthyValue a then a else b.

(** [argv.indexOf(x)] *)
Fixpoint indexOfArg (x : string) (argv : list string) (i : Z) : Z :=
  match argv with
  | [] => -1
  | a :: rest => if String.eqb a x then i else indexOfArg x rest (i + 1)
  end.

(** [arg(name, def)] over [process.argv]. *)
Definition arg (argv : list string) (name : string) (def : Value) : Value :=
  let i := indexOfArg ("--" ++ name) argv 0 in
  if i =? -1 then def
  else
    match nth_error argv (Z.to_nat (i + 1)) with
    | None => Bool true                       (* v is undefined *)
    | Some v =>
        if negb (truthy v) || prefix "--" v then Bool true else Str v
    end.

(** The constant [initCmd]. *)
Definition initCmdOf (argv : list string) (env : Env) : string :=
  trim (toString
          (orElse (arg argv "init" (nullish (getenv env "INIT_CMD") (Str "")))
                  (Str ""))).

(** The name of the variable of channel [i]. *)
Definition channelKey (i : nat) : string :=
  "CH" ++ NilZero.string_of_uint (Nat.to_uint i).

(** The [for] loop of [readChannelCmdsFromEnv] from [i] on, with [turns]
    turns to go before [i] passes 32. *)
Fixpoint channelsFrom (env : Env) (turns i : nat) : list (nat * string) :=
  match turns with
  | O => []
  | S turns' =>
      match env (channelKey i) with
      | None => []                                        (* break *)
      | Some v =>
          let cmd := trim v in
          if truthy cmd then (i, cmd) :: channelsFrom env turns' (S i)
          else []                                         (* break *)
      end
  end.

Definition readChannelCmdsFromEnv (env : Env) : list (nat * string) :=
  channelsFrom env 32 1.

(** A variable that is not set, or is set to white space. *)
Definition blank (env : Env) (key : string) : Prop :=
  match env key with
  | None => True
  | Some v => truthy (trim v) = false
  end.

(** An environment with CH1, CH2 and CH4, but no CH3. *)
Definition envGap : Env :=
  fun key =>
    if String.eqb key "CH1" then Some " x1060110X "
    else if String.eqb key "CH2" then Some "x2060110X"
    else if String.eqb key "CH4" then Some "x4060110X"
    else if String.eqb key "INIT_CMD" then Some "/0"
    else None.

(** [n] times the character [c]. *)
Fixpoint chars (n : nat) (c : ascii) : string :=
  match n with
  | O => EmptyString
  | S n' => String c (chars n' c)
  end.

(** ** The begin sequence *)


















(** The same when the network refuses the /tcp request of the listen
    callback while the stop-stream call is under way. *)
Definition tcpRefusedRun : list (Z * Event) :=
  [ (10, SerialData [x62]);
    (1010, TimerFires 0%nat);
    (1011, ServerListening);
    (1015, FetchSettles Configure (Failed "ECONNREFUSED")) ].

(** * Properties *)

(** ** Traces *)

Lemma framesOf_app : forall a b, framesOf (a ++ b) = framesOf a ++ framesOf b.
Proof. intros; unfold framesOf; apply flat_map_app. Qed.

Lemma signalsOf_app : forall a b, signalsOf (a ++ b) = signalsOf a ++ signalsOf b.
Proof. intros; unfold signalsOf; apply flat_map_app. Qed.

Lemma tokensOf_app : forall a b, tokensOf (a ++ b) = tokensOf a ++ tokensOf b.
Proof. intros; unfold tokensOf; apply flat_map_app. Qed.


Lemma flagAfter_app : forall a b flag,
  flagAfter flag (a ++ b) =
  match flagAfter flag a with
  | Some flag' => flagAfter flag' b
  | None => None
  end.
Proof.
  induction a as [|x a IH]; intros b flag; simpl.
  - reflexivity.
  - destruct x, flag; auto.
Qed.

(** ** The serial sink *)

(** What [writeToSerial] leaves alone. *)
Lemma writeToSerial_frame : forall now data s,
  let s' := writeToSerial now data s in
  tcpBuffer s' = tcpBuffer s /\
  currentSocket s' = currentSocket s /\
  tcpFramesOk (stats s') = tcpFramesOk (stats s) /\
  tcpFramesBad (stats s') = tcpFramesBad (stats s) /\
  framesOf (trace s') = framesOf (trace s) /\
  tokensOf (trace s') = tokensOf (trace s) /\
  cmdQ s' = cmdQ s /\ cmdQueueDepth s' = cmdQueueDepth s.
Proof.
  intros now data s; unfold writeToSerial.
  destruct (writable (serial s)); simpl; [|tauto].
  destruct (currentSocket s) as [sock|] eqn:Hsock; simpl.
  - destruct (hd true (writeResults (serial s))),
             (pausedBySerialBackpressure s); simpl;
      rewrite ?framesOf_app, ?tokensOf_app; simpl; rewrite ?app_nil_r;
      repeat split; auto.
  - rewrite ?framesOf_app, ?tokensOf_app; simpl; rewrite ?app_nil_r;
      repeat split; auto.
Qed.

(** A write that the port refuses changes nothing at all. *)
Lemma writeToSerial_not_writable : forall now data s,
  writable (serial s) = false -> writeToSerial now data s = s.
Proof. intros now data s H; unfold writeToSerial; rewrite H; reflexivity. Qed.

(** [serialFrames] goes up by one on a write that the port takes, and
    stays otherwise. *)
Lemma writeToSerial_serialFrames : forall now data s,
  serialFrames (stats (writeToSerial now data s)) =
  serialFrames (stats s) + (if writable (serial s) then 1 else 0).
Proof.
  intros now data s; unfold writeToSerial.
  destruct (writable (serial s)); simpl; [|lia].
  destruct (currentSocket s); simpl; [|reflexivity].
  destruct (hd true (writeResults (serial s))),
           (pausedBySerialBackpressure s); reflexivity.
Qed.

(** ** One turn of the reassembly loop *)

Lemma stop_byte_test : forall b : byte,
  (N.land (Byte.to_N b) 0xf0 =? 0xc0)%N = (highNibble b =? 0xc)%N.
Proof. intros b; destruct b; reflexivity. Qed.

Lemma nth_error_firstn_33 : forall (buf : list byte),
  nth_error (firstn 33 buf) 32 = nth_error buf 32.
Proof.
  intros buf. rewrite nth_error_firstn.
  reflexivity.
Qed.

(** ** Looking for the sync byte *)

Lemma indexOfFrom_toSync : forall buf i,
  0 <= i ->
  (indexOfFrom xa0 buf i = -1 /\ toSync buf = []) \/
  (i <= indexOfFrom xa0 buf i /\
   skipn (Z.to_nat (indexOfFrom xa0 buf i - i)) buf = toSync buf /\
   toSync buf <> []).
Proof.
  induction buf as [|x buf IH]; intros i Hi; simpl.
  - left; auto.
  - destruct (Byte.eqb x xa0) eqn:Hx.
    + right. rewrite Z.sub_diag. simpl. repeat split; [lia|discriminate].
    + destruct (IH (i + 1) ltac:(lia)) as [[H1 H2]|[H1 [H2 H3]]].
      * left; auto.
      * right. repeat split; [lia| |assumption].
        replace (Z.to_nat (indexOfFrom xa0 buf (i + 1) - i))
          with (S (Z.to_nat (indexOfFrom xa0 buf (i + 1) - (i + 1)))) by lia.
        simpl. exact H2.
Qed.

Lemma indexOf_none : forall buf,
  (indexOf buf xa0 =? -1) = true -> toSync buf = [].
Proof.
  intros buf H. apply Z.eqb_eq in H. unfold indexOf in H.
  destruct (indexOfFrom_toSync buf 0 ltac:(lia)) as [[_ H2]|[H1 _]]; [assumption|lia].
Qed.

Lemma indexOf_some : forall buf,
  (indexOf buf xa0 =? -1) = false ->
  skipn (Z.to_nat (indexOf buf xa0)) buf = toSync buf /\ toSync buf <> [].
Proof.
  intros buf H. apply Z.eqb_neq in H. unfold indexOf in *.
  destruct (indexOfFrom_toSync buf 0 ltac:(lia)) as [[H1 _]|[_ [H2 H3]]]; [contradiction|].
  rewrite Z.sub_0_r in H2. auto.
Qed.

Lemma toSync_length : forall buf, (List.length (toSync buf) <= List.length buf)%nat.
Proof.
  induction buf as [|x buf IH]; simpl; [lia|].
  destruct (Byte.eqb x xa0); simpl; lia.
Qed.

Lemma toSync_skips : forall buf,
  buf <> [] -> differs (nth_error buf 0) xa0 = true ->
  (List.length (toSync buf) < List.length buf)%nat.
Proof.
  intros [|x buf] Hne Hd; [contradiction|]. simpl in *.
  destruct (Byte.eqb x xa0); [discriminate|].
  pose proof (toSync_length buf). lia.
Qed.

Lemma toSync_synced : forall buf,
  differs (nth_error buf 0) xa0 = false -> toSync buf = buf.
Proof.
  intros [|x buf] Hd; simpl in *; [reflexivity|].
  destruct (Byte.eqb x xa0); [reflexivity|discriminate].
Qed.

Lemma toSync_app : forall x y,
  toSync (x ++ y) = match toSync x with [] => toSync y | _ => toSync x ++ y end.
Proof.
  induction x as [|b x IH]; intros y; simpl.
  - reflexivity.
  - destruct (Byte.eqb b xa0); [reflexivity|apply IH].
Qed.

(** ** The loop and its buffer *)

#[local] Arguments skipn : simpl never.
#[local] Arguments firstn : simpl never.

(** A turn that continues leaves a shorter buffer. *)
Lemma loopBody_shrinks : forall now s,
  (33 <= List.length (tcpBuffer s))%nat ->
  fst (loopBody now s) = Continue ->
  (List.length (tcpBuffer (snd (loopBody now s))) < List.length (tcpBuffer s))%nat.
Proof.
  intros now s Hlen. unfold loopBody.
  destruct (differs (nth_error (tcpBuffer s) 0) xa0) eqn:Hd.
  - destruct (indexOf (tcpBuffer s) xa0 =? -1) eqn:Hi; simpl; [discriminate|].
    intros _. destruct (indexOf_some _ Hi) as [-> _].
    apply toSync_skips; [|assumption].
    destruct (tcpBuffer s); [simpl in Hlen; lia|discriminate].
  - destruct (List.length (tcpBuffer s) <? 33)%nat eqn:Hlt; simpl; [discriminate|].
    destruct (negb _); simpl; intros _.
    + rewrite length_skipn. lia.
    + destruct (writeToSerial_frame now (firstn 33 (tcpBuffer s))
        (emit now (EFrame (firstn 33 (tcpBuffer s)))
           (upd_stats (fun st => set_tcpFramesOk (tcpFramesOk st + 1) st) s)))
        as [Hb _].
      rewrite Hb. simpl. rewrite length_skipn. lia.
Qed.

(** A turn that returns leaves fewer than 33 bytes. *)
Lemma loopBody_returns : forall now s,
  (33 <= List.length (tcpBuffer s))%nat ->
  fst (loopBody now s) = Return ->
  tcpBuffer (snd (loopBody now s)) = [].
Proof.
  intros now s Hlen. unfold loopBody.
  destruct (differs (nth_error (tcpBuffer s) 0) xa0).
  - destruct (indexOf (tcpBuffer s) xa0 =? -1); simpl; [reflexivity|discriminate].
  - destruct (List.length (tcpBuffer s) <? 33)%nat eqn:Hlt; simpl.
    + apply Nat.ltb_lt in Hlt. lia.
    + destruct (negb _); simpl; discriminate.
Qed.

Lemma whileLoop_S : forall fuel now s,
  whileLoop (S fuel) now s =
  if (33 <=? List.length (tcpBuffer s))%nat then
    match loopBody now s with
    | (Continue, s') => whileLoop fuel now s'
    | (Return, s') => s'
    end
  else s.
Proof. reflexivity. Qed.

(** The loop has turns to spare: it ends on its own test, with fewer than
    33 bytes buffered. *)
Lemma whileLoop_exits : forall fuel now s,
  (List.length (tcpBuffer s) < fuel)%nat ->
  (List.length (tcpBuffer (whileLoop fuel now s)) < 33)%nat.
Proof.
  induction fuel as [|fuel IH]; intros now s Hf; [lia|]. rewrite whileLoop_S.
  destruct (33 <=? List.length (tcpBuffer s))%nat eqn:Hlen.
  - apply Nat.leb_le in Hlen.
    pose proof (loopBody_shrinks now s Hlen) as Hs.
    pose proof (loopBody_returns now s Hlen) as Hr.
    destruct (loopBody now s) as [[|] s']; cbn [fst snd] in *.
    + apply IH. specialize (Hs eq_refl). lia.
    + rewrite (Hr eq_refl). simpl. lia.
  - apply Nat.leb_gt in Hlen. assumption.
Qed.

(** More turns than the buffer has bytes change nothing. *)
Lemma whileLoop_fuel : forall fuel fuel' now s,
  (List.length (tcpBuffer s) < fuel)%nat ->
  (List.length (tcpBuffer s) < fuel')%nat ->
  whileLoop fuel now s = whileLoop fuel' now s.
Proof.
  induction fuel as [|fuel IH]; intros fuel' now s Hf Hf'; [lia|].
  destruct fuel' as [|fuel']; [lia|]. rewrite !whileLoop_S.
  destruct (33 <=? List.length (tcpBuffer s))%nat eqn:Hlen; [|reflexivity].
  apply Nat.leb_le in Hlen.
  pose proof (loopBody_shrinks now s Hlen) as Hs.
  destruct (loopBody now s) as [[|] s']; cbn [fst snd] in *; [|reflexivity].
  specialize (Hs eq_refl). apply IH; lia.
Qed.

(** The loop and [scan] agree on the frames and on the buffer. *)
Lemma whileLoop_scan : forall fuel now s,
  framesOf (trace (whileLoop fuel now s)) =
    framesOf (trace s) ++ fst (scan fuel (tcpBuffer s)) /\
  tcpBuffer (whileLoop fuel now s) = snd (scan fuel (tcpBuffer s)).
Proof.
  induction fuel as [|fuel IH]; intros now s.
  - simpl. rewrite app_nil_r; auto.
  - rewrite whileLoop_S. cbn [scan].
    destruct (33 <=? List.length (tcpBuffer s))%nat eqn:Hlen;
      [|simpl; rewrite app_nil_r; auto].
    unfold loopBody.
    destruct (differs (nth_error (tcpBuffer s) 0) xa0).
    + destruct (indexOf (tcpBuffer s) xa0 =? -1); simpl.
      * rewrite app_nil_r; auto.
      * apply (IH now (set_tcpBuffer _ s)).
    + destruct (List.length (tcpBuffer s) <? 33)%nat; simpl.
      * rewrite app_nil_r; auto.
      * destruct (negb _); simpl.
        -- apply (IH now (set_tcpBuffer _ (upd_stats _ s))).
        -- match goal with
           | |- context [writeToSerial ?n ?d ?x] =>
               destruct (writeToSerial_frame n d x) as (Hb & _ & _ & _ & Hf & _);
               set (s2 := writeToSerial n d x) in *
           end.
           destruct (IH now (set_tcpBuffer (skipn 33 (tcpBuffer s2)) s2)) as [IH1 IH2].
           rewrite IH1, IH2. simpl in Hb, Hf |- *.
           rewrite Hb, Hf, framesOf_app.
           simpl. rewrite <- app_assoc. simpl. auto.
Qed.

(** ** The frames of a stream do not depend on how it is cut *)

Lemma scan_S : forall fuel buf,
  scan (S fuel) buf =
  if (33 <=? List.length buf)%nat then
    if differs (nth_error buf 0) xa0 then
      if indexOf buf xa0 =? -1 then ([], [])
      else scan fuel (skipn (Z.to_nat (indexOf buf xa0)) buf)
    else if (List.length buf <? 33)%nat then ([], buf)
    else if negb (bitAnd (nth_error (firstn 33 buf) 32) 0xf0 =? 0xc0)%N then
      scan fuel (skipn 1 buf)
    else
      (firstn 33 buf :: fst (scan fuel (skipn 33 buf)),
       snd (scan fuel (skipn 33 buf)))
  else ([], buf).
Proof. reflexivity. Qed.

Lemma scan_fuel : forall fuel fuel' buf,
  (List.length buf < fuel)%nat -> (List.length buf < fuel')%nat ->
  scan fuel buf = scan fuel' buf.
Proof.
  induction fuel as [|fuel IH]; intros fuel' buf Hf Hf'; [lia|].
  destruct fuel' as [|fuel']; [lia|]. rewrite !scan_S.
  destruct (33 <=? List.length buf)%nat eqn:Hlen; [|reflexivity].
  apply Nat.leb_le in Hlen.
  destruct (differs (nth_error buf 0) xa0) eqn:Hd.
  - destruct (indexOf buf xa0 =? -1) eqn:Hi; [reflexivity|].
    destruct (indexOf_some _ Hi) as [E _].
    assert (List.length (toSync buf) < List.length buf)%nat.
    { apply toSync_skips; [|assumption]. destruct buf; [simpl in Hlen; lia|discriminate]. }
    apply IH; rewrite E; lia.
  - destruct (List.length buf <? 33)%nat; [reflexivity|].
    destruct (negb _).
    + apply IH; rewrite length_skipn; lia.
    + rewrite (IH fuel' (skipn 33 buf)); [reflexivity| |]; rewrite length_skipn; lia.
Qed.

Lemma parse_short : forall buf,
  (List.length buf < 33)%nat -> parse buf = ([], buf).
Proof.
  intros buf H. unfold parse. rewrite scan_S.
  apply Nat.leb_gt in H. rewrite H. reflexivity.
Qed.

(** The loop, one turn unfolded. *)
Lemma parse_long : forall buf,
  (33 <= List.length buf)%nat ->
  parse buf =
  if differs (nth_error buf 0) xa0 then parse (toSync buf)
  else if negb (bitAnd (nth_error buf 32) 0xf0 =? 0xc0)%N then parse (skipn 1 buf)
  else (firstn 33 buf :: fst (parse (skipn 33 buf)), snd (parse (skipn 33 buf))).
Proof.
  intros buf Hlen. unfold parse at 1. rewrite scan_S.
  pose proof Hlen as Hlen'. apply Nat.leb_le in Hlen'. rewrite Hlen'.
  destruct (differs (nth_error buf 0) xa0) eqn:Hd.
  - destruct (indexOf buf xa0 =? -1) eqn:Hi.
    + rewrite (indexOf_none _ Hi). reflexivity.
    + destruct (indexOf_some _ Hi) as [E _]. rewrite E.
      assert (List.length (toSync buf) < List.length buf)%nat.
      { apply toSync_skips; [|assumption]. destruct buf; [simpl in Hlen; lia|discriminate]. }
      apply scan_fuel; lia.
  - assert (Hlt : (List.length buf <? 33)%nat = false) by (apply Nat.ltb_ge; lia).
    rewrite Hlt, nth_error_firstn_33.
    destruct (negb _).
    + apply scan_fuel; rewrite length_skipn; lia.
    + unfold parse.
      rewrite (scan_fuel (List.length buf) (S (List.length (skipn 33 buf))));
        [reflexivity| |]; rewrite length_skipn; lia.
Qed.

(** Bytes before the first sync byte carry no frame. *)
Lemma parse_toSync : forall buf, fst (parse (toSync buf)) = fst (parse buf).
Proof.
  intros buf.
  destruct (Nat.lt_ge_cases (List.length buf) 33) as [Hs|Hl].
  - rewrite (parse_short buf Hs), parse_short; [reflexivity|].
    pose proof (toSync_length buf). lia.
  - rewrite (parse_long buf Hl).
    destruct (differs (nth_error buf 0) xa0) eqn:Hd; [reflexivity|].
    rewrite (toSync_synced _ Hd), (parse_long buf Hl), Hd. reflexivity.
Qed.

Lemma nth_error_app_32 : forall (x y : list byte),
  (33 <= List.length x)%nat -> nth_error (x ++ y) 32 = nth_error x 32.
Proof. intros x y H. apply nth_error_app1. lia. Qed.

Lemma nth_error_app_0 : forall (x y : list byte),
  (33 <= List.length x)%nat -> nth_error (x ++ y) 0 = nth_error x 0.
Proof. intros x y H. apply nth_error_app1. lia. Qed.

(** Parsing [x ++ y] at once gives the frames of [x], then the frames of
    what [x] left followed by [y]. *)
Lemma parse_app : forall n x y,
  (List.length x <= n)%nat ->
  fst (parse (x ++ y)) = fst (parse x) ++ fst (parse (snd (parse x) ++ y)).
Proof.
  induction n as [|n IH]; intros x y Hn.
  - rewrite (parse_short x) by lia. reflexivity.
  - destruct (Nat.lt_ge_cases (List.length x) 33) as [Hs|Hl].
    + rewrite (parse_short x Hs). reflexivity.
    + assert (Hxy : (33 <= List.length (x ++ y))%nat) by (rewrite length_app; lia).
      rewrite (parse_long _ Hxy), (parse_long _ Hl).
      rewrite nth_error_app_0, nth_error_app_32 by assumption.
      destruct (differs (nth_error x 0) xa0) eqn:Hd.
      * rewrite toSync_app.
        destruct (toSync x) as [|b r] eqn:Hx.
        -- rewrite parse_toSync, (parse_short []) by (simpl; lia). reflexivity.
        -- rewrite <- Hx. apply IH.
           assert (List.length (toSync x) < List.length x)%nat.
           { apply toSync_skips; [|assumption]. destruct x; [simpl in Hl; lia|discriminate]. }
           lia.
      * destruct (negb _).
        -- replace (skipn 1 (x ++ y)) with (skipn 1 x ++ y)
             by (rewrite skipn_app; replace (1 - List.length x)%nat with 0%nat by lia;
                 reflexivity).
           apply IH. rewrite length_skipn. lia.
        -- replace (skipn 33 (x ++ y)) with (skipn 33 x ++ y)
             by (rewrite skipn_app; replace (33 - List.length x)%nat with 0%nat by lia;
                 reflexivity).
           replace (firstn 33 (x ++ y)) with (firstn 33 x)
             by (rewrite firstn_app; replace (33 - List.length x)%nat with 0%nat by lia;
                 rewrite firstn_O, app_nil_r; reflexivity).
           cbn [fst snd]. rewrite (IH (skipn 33 x) y) by (rewrite length_skipn; lia).
           reflexivity.
Qed.

(** What one "data" callback does to the frames and to the buffer. *)
Lemma socketOnData_parse : forall now chunk s,
  framesOf (trace (socketOnData now chunk s)) =
    framesOf (trace s) ++ fst (parse (tcpBuffer s ++ chunk)) /\
  tcpBuffer (socketOnData now chunk s) = snd (parse (tcpBuffer s ++ chunk)).
Proof.
  intros now chunk s. unfold socketOnData, processTcpBuffer.
  match goal with
  | |- context [whileLoop ?f now ?x] =>
      destruct (whileLoop_scan f now x) as [H1 H2]; rewrite H1, H2
  end.
  cbn [tcpBuffer trace set_tcpBuffer upd_stats set_stats].
  assert (E : (if (List.length (tcpBuffer s) =? 0)%nat then chunk
               else tcpBuffer s ++ chunk) = tcpBuffer s ++ chunk).
  { destruct (tcpBuffer s); reflexivity. }
  rewrite E. auto.
Qed.

(** ** Claims on the frame reassembler *)

(** C2.  Chunk-boundary independence: one "data" callback on [c1 ++ c2]
    hands on the same frames, in the same order, as a callback on [c1]
    followed by a callback on [c2], from the same state; whatever the times
    of the callbacks and whatever the serial port answers in each. *)
Theorem chunk_boundary_independence : forall s c1 c2 t t1 t2 p p1 p2,
  framesOf (trace (socketOnData t (c1 ++ c2) (set_serial p s))) =
  framesOf (trace (socketOnData t2 c2
                     (set_serial p2 (socketOnData t1 c1 (set_serial p1 s))))).
Proof.
  intros s c1 c2 t t1 t2 p p1 p2.
  destruct (socketOnData_parse t (c1 ++ c2) (set_serial p s)) as [H _].
  destruct (socketOnData_parse t1 c1 (set_serial p1 s)) as [H1 B1].
  destruct (socketOnData_parse t2 c2
              (set_serial p2 (socketOnData t1 c1 (set_serial p1 s)))) as [H2 _].
  rewrite H, H2. cbn [trace tcpBuffer set_serial] in *. rewrite H1, B1.
  rewrite <- app_assoc. f_equal.
  rewrite app_assoc.
  apply (parse_app (List.length (tcpBuffer s ++ c1))). lia.
Qed.

(** C3.  One turn of the loop on a buffer that starts with the sync byte
    and holds a stop byte at index 32.  If the high nibble of the stop byte
    is not 0xC: the bad-frame counter goes up by one, one byte leaves the
    head of the buffer, and nothing is handed on (the trace is unchanged).
    If it is 0xC: the first 33 bytes are handed on as they are, the
    good-frame counter goes up by one, the bad-frame counter stays, and
    those 33 bytes leave the buffer. *)
Theorem reassembly_step : forall now s stop,
  nth_error (tcpBuffer s) 0 = Some xa0 ->
  (33 <= List.length (tcpBuffer s))%nat ->
  nth_error (tcpBuffer s) 32 = Some stop ->
  (highNibble stop <> 0xc%N ->
     fst (loopBody now s) = Continue /\
     tcpFramesBad (stats (snd (loopBody now s))) = tcpFramesBad (stats s) + 1 /\
     tcpFramesOk (stats (snd (loopBody now s))) = tcpFramesOk (stats s) /\
     tcpBuffer (snd (loopBody now s)) = skipn 1 (tcpBuffer s) /\
     List.length (tcpBuffer (snd (loopBody now s))) =
       (List.length (tcpBuffer s) - 1)%nat /\
     trace (snd (loopBody now s)) = trace s) /\
  (highNibble stop = 0xc%N ->
     fst (loopBody now s) = Continue /\
     framesOf (trace (snd (loopBody now s))) =
       framesOf (trace s) ++ [firstn 33 (tcpBuffer s)] /\
     firstn 33 (tcpBuffer s) ++ tcpBuffer (snd (loopBody now s)) = tcpBuffer s /\
     tcpFramesOk (stats (snd (loopBody now s))) = tcpFramesOk (stats s) + 1 /\
     tcpFramesBad (stats (snd (loopBody now s))) = tcpFramesBad (stats s) /\
     tcpBuffer (snd (loopBody now s)) = skipn 33 (tcpBuffer s) /\
     List.length (tcpBuffer (snd (loopBody now s))) =
       (List.length (tcpBuffer s) - 33)%nat).
Proof.
  intros now s stop H0 Hlen H32.
  assert (Hlt : (List.length (tcpBuffer s) <? 33)%nat = false)
    by (apply Nat.ltb_ge; lia).
  unfold loopBody.
  rewrite H0, nth_error_firstn_33, H32, Hlt.
  cbn [differs bitAnd]. change (Byte.eqb xa0 xa0) with true. cbn [negb].
  rewrite stop_byte_test.
  split; intros Hn.
  - apply N.eqb_neq in Hn. rewrite Hn. cbn.
    rewrite length_skipn. repeat split; reflexivity.
  - apply N.eqb_eq in Hn. rewrite Hn. cbn [negb fst snd].
    match goal with
    | |- context [writeToSerial ?n ?d ?x] =>
        destruct (writeToSerial_frame n d x) as (Hb & _ & Hok & Hbad & Hf & _);
        set (s2 := writeToSerial n d x) in *
    end.
    cbn in Hb, Hok, Hbad, Hf. cbn [tcpBuffer stats trace set_tcpBuffer].
    rewrite Hb, Hok, Hbad, Hf, framesOf_app, length_skipn. cbn [framesOf flat_map snd app].
    rewrite firstn_skipn. repeat split; reflexivity.
Qed.

(** The two cases on sample buffers: a block ending in 0x07 and a block
    ending in 0xC5. *)
Lemma reassembly_step_witness :
  let bad := set_tcpBuffer (frameWith x07) (initial 0 port0) in
  let good := set_tcpBuffer (frameWith xc5) (initial 0 port0) in
  (trace (snd (loopBody 1 bad)) = trace bad /\
   tcpFramesBad (stats (snd (loopBody 1 bad))) = tcpFramesBad (stats bad) + 1) /\
  (framesOf (trace (snd (loopBody 1 good))) =
     framesOf (trace good) ++ [firstn 33 (tcpBuffer good)] /\
   tcpFramesOk (stats (snd (loopBody 1 good))) = tcpFramesOk (stats good) + 1).
Proof.
  intros bad good. split.
  - destruct (reassembly_step 1 bad x07 eq_refl ltac:(simpl; lia) eq_refl) as [H _].
    destruct (H ltac:(discriminate)) as (_ & Hb & _ & _ & _ & Ht). split; assumption.
  - destruct (reassembly_step 1 good xc5 eq_refl ltac:(simpl; lia) eq_refl) as [_ H].
    destruct (H eq_refl) as (_ & Hf & _ & Hok & _). split; assumption.
Defined.

(** C8.  When [processTcpBuffer] returns, the buffer holds fewer than 33
    bytes or starts with the sync byte. *)
Theorem reassembly_pass_leaves : forall now s,
  (List.length (tcpBuffer (processTcpBuffer now s)) < 33)%nat \/
  nth_error (tcpBuffer (processTcpBuffer now s)) 0 = Some xa0.
Proof.
  intros now s. left. unfold processTcpBuffer. apply whileLoop_exits. lia.
Qed.

(** ** The command and life-cycle side leaves the data path alone *)

Ltac view_tac :=
  unfold flowView; simpl; rewrite ?signalsOf_app; simpl; rewrite ?app_nil_r;
  reflexivity.

Lemma perform_flowView : forall a now s, flowView (perform a now s) = flowView s.
Proof. intros [] now s; reflexivity. Qed.

Lemma setTimeout_flowView : forall now ms cb s,
  flowView (setTimeout now ms cb s) = flowView s.
Proof. reflexivity. Qed.

Lemma advance_flowView : forall p now w s,
  flowView (snd (advance now w p s)) = flowView s.
Proof.
  induction p as [a|e|e|r k IH|ms body IH|a k IH]; intros now w s; simpl;
    try reflexivity.
  - view_tac.
  - rewrite IH. apply perform_flowView.
Qed.

Lemma storeTask_flowView : forall w t s, flowView (storeTask w t s) = flowView s.
Proof. intros [] [] s; reflexivity. Qed.

Lemma runTask_flowView : forall now w p s,
  flowView (runTask now w p s) = flowView s.
Proof.
  intros now w p s. unfold runTask.
  rewrite storeTask_flowView. apply advance_flowView.
Qed.

Lemma pump_flowView : forall now s, flowView (pump now s) = flowView s.
Proof.
  intros now s. unfold pump. destruct (cmdQ s); try reflexivity.
  apply runTask_flowView.
Qed.

Lemma queueCmd_flowView : forall cfg now cmd s,
  flowView (queueCmd cfg now cmd s) = flowView s.
Proof. intros; unfold queueCmd; view_tac. Qed.

Lemma feedByte_flowView : forall cfg now b s,
  flowView (feedByte cfg now b s) = flowView s.
Proof.
  intros cfg now b s. unfold feedByte.
  repeat match goal with
         | |- context [if ?c then _ else _] => destruct c
         end;
    rewrite ?queueCmd_flowView; reflexivity.
Qed.

Lemma fold_flowView : forall (f : State -> byte -> State) buf s,
  (forall s b, flowView (f s b) = flowView s) ->
  flowView (fold_left f buf s) = flowView s.
Proof.
  intros f buf. induction buf as [|b buf IH]; intros s Hf; simpl.
  - reflexivity.
  - rewrite IH by assumption. apply Hf.
Qed.

Lemma feedCmdBytes_flowView : forall cfg now buf s,
  flowView (feedCmdBytes cfg now buf s) = flowView s.
Proof.
  intros cfg now buf s. unfold feedCmdBytes.
  rewrite fold_flowView; [reflexivity|].
  intros; apply feedByte_flowView.
Qed.

Lemma triggerByte_flowView : forall now b s,
  flowView (triggerByte now b s) = flowView s.
Proof.
  intros now b s. unfold triggerByte.
  destruct (Byte.eqb b x62), (Byte.eqb b x73); reflexivity.
Qed.

Lemma serialOnData_flowView : forall cfg now buf s,
  flowView (serialOnData cfg now buf s) = flowView s.
Proof.
  intros cfg now buf s. unfold serialOnData.
  rewrite fold_flowView; [apply feedCmdBytes_flowView|].
  intros; apply triggerByte_flowView.
Qed.

Lemma startServer_flowView : forall cfg now s,
  flowView (snd (startServer cfg now s)) = flowView s.
Proof.
  intros cfg now s. unfold startServer, listen.
  destruct (serverStarted s); [reflexivity|].
  destruct (validPort (tcpPort cfg)); view_tac.
Qed.

Lemma fire_flowView : forall cfg now cb s, flowView (fire cfg now cb s) = flowView s.
Proof.
  intros cfg now cb s. destruct cb as [| |w]; unfold fire.
  - pose proof (startServer_flowView cfg now s) as H.
    destruct (startServer cfg now s) as [[|] s1]; cbn [snd] in H.
    + rewrite runTask_flowView. exact H.
    + exact H.
  - rewrite runTask_flowView. reflexivity.
  - destruct (lookupTask w s) as [[]|]; try reflexivity.
    apply runTask_flowView.
Qed.

(** Only "data" and "drain" touch the counters, the flag and the signals. *)
Lemma react_flowView : forall cfg now e s,
  (forall sock chunk, e <> TcpData sock chunk) -> e <> SerialDrain ->
  flowView (react cfg now e s) = flowView s.
Proof.
  intros cfg now e s Hd Hr. destruct e; cbn [react].
  - reflexivity.
  - exfalso. eapply Hd; reflexivity.
  - unfold socketOnClose. simpl. destruct (currentSocket s) as [c|]; [|reflexivity].
    destruct (c =? sock)%nat; reflexivity.
  - apply serialOnData_flowView.
  - contradiction.
  - reflexivity.
  - unfold findTimer. destruct (find _ (timers s)); [|reflexivity].
    rewrite fire_flowView. reflexivity.
  - destruct (lookupTask w s) as [[]|]; try reflexivity.
    apply runTask_flowView.
  - rewrite runTask_flowView. reflexivity.
  - reflexivity.
Qed.

(** ** Flow control *)

(** [writeToSerial] sends no signal and leaves the flag, or it pauses the
    current socket: then the port took the write and reported saturation,
    a socket was connected, and the flag was down and is now up. *)
Lemma writeToSerial_signal : forall now data s,
  (signalsOf (trace (writeToSerial now data s)) = signalsOf (trace s) /\
   pausedBySerialBackpressure (writeToSerial now data s) =
     pausedBySerialBackpressure s) \/
  (exists sock,
     signalsOf (trace (writeToSerial now data s)) =
       signalsOf (trace s) ++ [Pause sock] /\
     writable (serial s) = true /\
     hd true (writeResults (serial s)) = false /\
     currentSocket s = Some sock /\
     pausedBySerialBackpressure s = false /\
     pausedBySerialBackpressure (writeToSerial now data s) = true).
Proof.
  intros now data s. unfold writeToSerial.
  destruct (writable (serial s)) eqn:Hw; cbn [negb]; [|left; auto].
  simpl.
  destruct (currentSocket s) as [sock|] eqn:Hsock.
  - destruct (hd true (writeResults (serial s))) eqn:Hok;
      destruct (pausedBySerialBackpressure s) eqn:Hp; simpl;
      rewrite ?Hp, ?signalsOf_app; simpl; rewrite ?app_nil_r; auto.
    right. exists sock. repeat split; auto.
  - left. simpl. rewrite signalsOf_app. simpl. rewrite app_nil_r. auto.
Qed.

(** The "drain" callback sends no signal and leaves the flag, or it resumes
    the current socket: then the flag was up and is now down. *)
Lemma serialOnDrain_signal : forall now s,
  (signalsOf (trace (serialOnDrain now s)) = signalsOf (trace s) /\
   pausedBySerialBackpressure (serialOnDrain now s) =
     pausedBySerialBackpressure s) \/
  (exists sock,
     signalsOf (trace (serialOnDrain now s)) =
       signalsOf (trace s) ++ [Resume sock] /\
     currentSocket s = Some sock /\
     pausedBySerialBackpressure s = true /\
     pausedBySerialBackpressure (serialOnDrain now s) = false).
Proof.
  intros now s. unfold serialOnDrain.
  destruct (currentSocket s) as [sock|] eqn:Hsock; [|left; auto].
  destruct (pausedBySerialBackpressure s) eqn:Hp; [|left; auto].
  right. exists sock. simpl. rewrite signalsOf_app. simpl. auto.
Qed.

Lemma flagInv_pause : forall s s' sock,
  flagInv s ->
  signalsOf (trace s') = signalsOf (trace s) ++ [Pause sock] ->
  pausedBySerialBackpressure s = false ->
  pausedBySerialBackpressure s' = true ->
  flagInv s'.
Proof.
  unfold flagInv. intros s s' sock H Hs Hp Hp'.
  rewrite Hs, flagAfter_app, H, Hp, Hp'. reflexivity.
Qed.

Lemma flagInv_resume : forall s s' sock,
  flagInv s ->
  signalsOf (trace s') = signalsOf (trace s) ++ [Resume sock] ->
  pausedBySerialBackpressure s = true ->
  pausedBySerialBackpressure s' = false ->
  flagInv s'.
Proof.
  unfold flagInv. intros s s' sock H Hs Hp Hp'.
  rewrite Hs, flagAfter_app, H, Hp, Hp'. reflexivity.
Qed.

Lemma flagInv_same : forall s s',
  flagInv s ->
  signalsOf (trace s') = signalsOf (trace s) ->
  pausedBySerialBackpressure s' = pausedBySerialBackpressure s ->
  flagInv s'.
Proof. unfold flagInv. intros s s' H Hs Hp. rewrite Hs, Hp. assumption. Qed.

Lemma flagInv_view : forall s s', flowView s' = flowView s -> flagInv s -> flagInv s'.
Proof.
  unfold flowView. intros s s' H Hi. inversion H.
  apply (flagInv_same s); assumption.
Qed.

(** What a turn of the loop does to the counters, the signals and the
    flag. *)
Lemma loopBody_flow : forall now s,
  (serialFrames (stats s) <= tcpFramesOk (stats s) ->
   serialFrames (stats (snd (loopBody now s))) <=
     tcpFramesOk (stats (snd (loopBody now s)))) /\
  (exists new,
     signalsOf (trace (snd (loopBody now s))) = signalsOf (trace s) ++ new /\
     pausesOnly new /\
     (flagInv s -> flagInv (snd (loopBody now s)))).
Proof.
  intros now s.
  assert (Hsame : forall s', flowView s' = flowView s ->
    (serialFrames (stats s) <= tcpFramesOk (stats s) ->
     serialFrames (stats s') <= tcpFramesOk (stats s')) /\
    (exists new, signalsOf (trace s') = signalsOf (trace s) ++ new /\
                 pausesOnly new /\ (flagInv s -> flagInv s'))).
  { intros s' Hv. split.
    - unfold flowView in Hv. inversion Hv as [[H1 H2 H3 H4]]. rewrite H1, H2. auto.
    - exists []. rewrite app_nil_r. repeat split.
      + unfold flowView in Hv. inversion Hv. reflexivity.
      + intros sock [].
      + apply flagInv_view. assumption. }
  unfold loopBody.
  destruct (differs (nth_error (tcpBuffer s) 0) xa0).
  - destruct (indexOf (tcpBuffer s) xa0 =? -1); apply Hsame; reflexivity.
  - destruct (List.length (tcpBuffer s) <? 33)%nat; [apply Hsame; reflexivity|].
    destruct (negb _); [apply Hsame; reflexivity|]. cbn [snd].
    match goal with
    | |- context [writeToSerial ?n ?d ?x] =>
        pose proof (writeToSerial_frame n d x) as (_ & _ & Hok & _);
        pose proof (writeToSerial_serialFrames n d x) as Hsf;
        pose proof (writeToSerial_signal n d x) as Hsig;
        set (s2 := writeToSerial n d x) in *
    end.
    cbn [stats trace pausedBySerialBackpressure set_tcpBuffer].
    simpl in Hok, Hsf, Hsig. rewrite signalsOf_app in Hsig. simpl in Hsig.
    rewrite app_nil_r in Hsig.
    split.
    + rewrite Hok, Hsf. destruct (writable (serial s)); lia.
    + destruct Hsig as [[Hs Hp]|[sock (Hs & _ & _ & _ & Hp & Hp')]].
      * exists []. rewrite app_nil_r. repeat split; [assumption|intros ? []|].
        intros Hi. apply (flagInv_same s); assumption.
      * exists [Pause sock]. repeat split; [assumption| |].
        -- intros x [Hx|[]]. discriminate.
        -- intros Hi. apply (flagInv_pause s _ sock); assumption.
Qed.

Lemma whileLoop_flow : forall fuel now s,
  (serialFrames (stats s) <= tcpFramesOk (stats s) ->
   serialFrames (stats (whileLoop fuel now s)) <=
     tcpFramesOk (stats (whileLoop fuel now s))) /\
  (exists new,
     signalsOf (trace (whileLoop fuel now s)) = signalsOf (trace s) ++ new /\
     pausesOnly new /\
     (flagInv s -> flagInv (whileLoop fuel now s))).
Proof.
  assert (Hnil : forall s : State,
    exists new, signalsOf (trace s) = signalsOf (trace s) ++ new /\
                pausesOnly new /\ (flagInv s -> flagInv s)).
  { intros s. exists []. rewrite app_nil_r. repeat split; auto. intros ? []. }
  induction fuel as [|fuel IH]; intros now s.
  - simpl. split; auto.
  - rewrite whileLoop_S.
    destruct (33 <=? List.length (tcpBuffer s))%nat; [|split; auto].
    pose proof (loopBody_flow now s) as [Hc (new & Hs & Hp & Hi)].
    destruct (loopBody now s) as [[|] s']; cbn [snd] in *.
    + destruct (IH now s') as [Hc' (new' & Hs' & Hp' & Hi')].
      split; [auto|].
      exists (new ++ new'). rewrite Hs', Hs, app_assoc. repeat split; auto.
      intros sock Hin. apply in_app_or in Hin. destruct Hin; [eapply Hp|eapply Hp']; eauto.
    + split; [auto|]. exists new. auto.
Qed.

Lemma socketOnData_flow : forall now chunk s,
  (serialFrames (stats s) <= tcpFramesOk (stats s) ->
   serialFrames (stats (socketOnData now chunk s)) <=
     tcpFramesOk (stats (socketOnData now chunk s))) /\
  (exists new,
     signalsOf (trace (socketOnData now chunk s)) = signalsOf (trace s) ++ new /\
     pausesOnly new /\
     (flagInv s -> flagInv (socketOnData now chunk s))).
Proof.
  intros now chunk s. unfold socketOnData, processTcpBuffer.
  match goal with
  | |- context [whileLoop ?f now ?x] => apply (whileLoop_flow f now x)
  end.
Qed.

(** ** Invariants of the event loop *)

Lemma handle_inv : forall cfg now e s s',
  handle cfg now e s = Some s' ->
  enabled now e s = true /\
  s' = pump now (react cfg now e (set_clock now s)).
Proof.
  intros cfg now e s s' H. unfold handle in H.
  destruct (enabled now e s); [|discriminate].
  inversion H. auto.
Qed.

Lemma run_reachable : forall cfg evs s s',
  reachable cfg s -> run cfg evs s = Some s' -> reachable cfg s'.
Proof.
  intros cfg evs. induction evs as [|[now e] evs IH]; intros s s' Hr H; simpl in H.
  - inversion H; subst; assumption.
  - destruct (handle cfg now e s) as [s1|] eqn:Hh; [|discriminate].
    apply (IH s1); [|assumption].
    eapply reachable_step; eassumption.
Qed.

Lemma serialOnDrain_stats : forall now s, stats (serialOnDrain now s) = stats s.
Proof.
  intros now s. unfold serialOnDrain.
  destruct (currentSocket s); [|reflexivity].
  destruct (pausedBySerialBackpressure s); reflexivity.
Qed.

(** What one turn of the event loop does to the counters, the flag and the
    signals. *)
Lemma handle_flow : forall cfg now e s s',
  handle cfg now e s = Some s' ->
  (serialFrames (stats s) <= tcpFramesOk (stats s) ->
   serialFrames (stats s') <= tcpFramesOk (stats s')) /\
  (flagInv s -> flagInv s') /\
  (exists new,
     signalsOf (trace s') = signalsOf (trace s) ++ new /\
     (forall sock, In (Pause sock) new -> exists src chunk, e = TcpData src chunk) /\
     (forall sock, In (Resume sock) new -> e = SerialDrain)).
Proof.
  intros cfg now e s s' H. apply handle_inv in H. destruct H as [_ ->].
  assert (Hsame : forall x, flowView x = flowView s ->
    (serialFrames (stats s) <= tcpFramesOk (stats s) ->
     serialFrames (stats (pump now x)) <= tcpFramesOk (stats (pump now x))) /\
    (flagInv s -> flagInv (pump now x)) /\
    (exists new,
       signalsOf (trace (pump now x)) = signalsOf (trace s) ++ new /\
       (forall sock, In (Pause sock) new -> exists src chunk, e = TcpData src chunk) /\
       (forall sock, In (Resume sock) new -> e = SerialDrain))).
  { intros x Hx. rewrite <- (pump_flowView now x) in Hx.
    pose proof Hx as Hx'. unfold flowView in Hx'. injection Hx' as H1 H2 H3 H4.
    split; [|split].
    - rewrite H1, H2. auto.
    - apply flagInv_view. assumption.
    - exists []. rewrite app_nil_r. split; [assumption|split; intros ? []]. }
  destruct e;
    try (apply Hsame; rewrite react_flowView; [reflexivity|discriminate|discriminate]).
  - (* data *)
    cbn [react].
    destruct (socketOnData_flow now chunk (set_clock now s)) as [Hc (new & Hs & Hp & Hi)].
    set (x := socketOnData now chunk (set_clock now s)) in *.
    pose proof (pump_flowView now x) as Hv. pose proof Hv as Hv'.
    unfold flowView in Hv'. injection Hv' as H1 H2 H3 H4. split; [|split].
    + rewrite H1, H2. exact Hc.
    + intros Hf. apply (flagInv_view x); [exact Hv|]. apply Hi. exact Hf.
    + exists new. rewrite H4, Hs. split; [reflexivity|split].
      * intros; eauto.
      * intros sk Hin. exfalso. eapply Hp; eauto.
  - (* drain *)
    cbn [react].
    set (x := serialOnDrain now (set_clock now s)).
    pose proof (pump_flowView now x) as Hv. pose proof Hv as Hv'.
    unfold flowView in Hv'. injection Hv' as H1 H2 H3 H4.
    destruct (serialOnDrain_signal now (set_clock now s))
      as [[Hs Hp]|[sock (Hs & _ & Hp & Hp')]]; fold x in Hs, Hp;
      try fold x in Hp'; simpl in Hs, Hp.
    + split; [|split].
      * rewrite H1, H2. unfold x. rewrite serialOnDrain_stats. auto.
      * intros Hf. apply (flagInv_view x); [exact Hv|].
        apply (flagInv_same s); assumption.
      * exists []. rewrite app_nil_r, H4. split; [assumption|split; intros ? []].
    + split; [|split].
      * rewrite H1, H2. unfold x. rewrite serialOnDrain_stats. auto.
      * intros Hf. apply (flagInv_view x); [exact Hv|].
        apply (flagInv_resume s x sock); assumption.
      * exists [Resume sock]. rewrite H4. split; [assumption|split].
        -- intros ? [Hx|[]]. discriminate.
        -- reflexivity.
Qed.

Lemma reachable_flow : forall cfg s,
  reachable cfg s ->
  serialFrames (stats s) <= tcpFramesOk (stats s) /\ flagInv s.
Proof.
  intros cfg s H. induction H as [t0 port|s now e s' Hr [IH1 IH2] Hh].
  - split; [simpl; lia|reflexivity].
  - destruct (handle_flow cfg now e s s' Hh) as (H1 & H2 & _). auto.
Qed.

(** ** Claims on the serial sink and flow control *)

(** C7.  A pause is sent only by [writeToSerial], and only when the port
    took the write and reported saturation, a socket is connected and the
    flag is down; the flag is then up.  A resume is sent only by the "drain"
    callback, and only when the flag is up; the flag is then down.  In every
    reachable state the signals sent so far alternate, starting with a
    pause, and the flag is up exactly when the last one is a pause; a turn of
    the event loop sends a pause only on "data" and a resume only on
    "drain". *)
Theorem flow_control_signals :
  (forall now data s,
     (signalsOf (trace (writeToSerial now data s)) = signalsOf (trace s) /\
      pausedBySerialBackpressure (writeToSerial now data s) =
        pausedBySerialBackpressure s) \/
     (exists sock,
        signalsOf (trace (writeToSerial now data s)) =
          signalsOf (trace s) ++ [Pause sock] /\
        writable (serial s) = true /\
        hd true (writeResults (serial s)) = false /\
        currentSocket s = Some sock /\
        pausedBySerialBackpressure s = false /\
        pausedBySerialBackpressure (writeToSerial now data s) = true)) /\
  (forall now s,
     (signalsOf (trace (serialOnDrain now s)) = signalsOf (trace s) /\
      pausedBySerialBackpressure (serialOnDrain now s) =
        pausedBySerialBackpressure s) \/
     (exists sock,
        signalsOf (trace (serialOnDrain now s)) =
          signalsOf (trace s) ++ [Resume sock] /\
        currentSocket s = Some sock /\
        pausedBySerialBackpressure s = true /\
        pausedBySerialBackpressure (serialOnDrain now s) = false)) /\
  (forall cfg s,
     reachable cfg s ->
     flagAfter false (signalsOf (trace s)) = Some (pausedBySerialBackpressure s) /\
     forall now e s',
       handle cfg now e s = Some s' ->
       exists new,
         signalsOf (trace s') = signalsOf (trace s) ++ new /\
         (forall sock, In (Pause sock) new ->
                       exists src chunk, e = TcpData src chunk) /\
         (forall sock, In (Resume sock) new -> e = SerialDrain)).
Proof.
  split; [exact writeToSerial_signal|].
  split; [exact serialOnDrain_signal|].
  intros cfg s Hr. split.
  - apply (reachable_flow cfg s Hr).
  - intros now e s' Hh. apply (handle_flow cfg now e s s' Hh).
Qed.

(** The invariant on the state reached by [pausedRun], where one pause has
    been sent. *)
Lemma flow_control_signals_witness :
  exists s,
    run cfg0 pausedRun (initial 0 port0) = Some s /\
    reachable cfg0 s /\
    signalsOf (trace s) = [Pause 1%nat] /\
    flagAfter false (signalsOf (trace s)) = Some (pausedBySerialBackpressure s).
Proof.
  assert (H : exists s,
    run cfg0 pausedRun (initial 0 port0) = Some s /\
    signalsOf (trace s) = [Pause 1%nat])
    by (eexists; split; vm_compute; reflexivity).
  destruct H as (s & Hrun & Hsig). exists s.
  assert (Hreach : reachable cfg0 s)
    by (eapply run_reachable; [apply reachable_initial|exact Hrun]).
  split; [exact Hrun|]. split; [exact Hreach|]. split; [exact Hsig|].
  apply (proj1 (proj2 (proj2 flow_control_signals) cfg0 s Hreach)).
Defined.

(** C10.  A frame handed to [writeToSerial] while the port is not writable
    is dropped: nothing is written and [serialBytes], [serialFrames] and
    [lastSerialAt] stay, although the turn of the loop that handed it on
    has counted it in [tcpFramesOk].  So in every reachable state
    [serialFrames <= tcpFramesOk], and there is a reachable state where the
    two differ. *)
Theorem good_frames_bound_serial_frames :
  (forall now s stop,
     nth_error (tcpBuffer s) 0 = Some xa0 ->
     nth_error (tcpBuffer s) 32 = Some stop ->
     highNibble stop = 0xc%N ->
     writable (serial s) = false ->
     tcpFramesOk (stats (snd (loopBody now s))) = tcpFramesOk (stats s) + 1 /\
     serialBytes (stats (snd (loopBody now s))) = serialBytes (stats s) /\
     serialFrames (stats (snd (loopBody now s))) = serialFrames (stats s) /\
     lastSerialAt (stats (snd (loopBody now s))) = lastSerialAt (stats s) /\
     trace (snd (loopBody now s)) =
       trace s ++ [(now, EFrame (firstn 33 (tcpBuffer s)))]) /\
  (forall cfg s,
     reachable cfg s -> serialFrames (stats s) <= tcpFramesOk (stats s)) /\
  (exists cfg s,
     reachable cfg s /\ serialFrames (stats s) < tcpFramesOk (stats s)).
Proof.
  split; [|split].
  - intros now s stop H0 H32 Hn Hw.
    assert (Hlen : (33 <= List.length (tcpBuffer s))%nat).
    { assert (32 < List.length (tcpBuffer s))%nat; [|lia].
      apply nth_error_Some. rewrite H32. discriminate. }
    assert (Hlt : (List.length (tcpBuffer s) <? 33)%nat = false)
      by (apply Nat.ltb_ge; lia).
    unfold loopBody.
    rewrite H0, nth_error_firstn_33, H32, Hlt.
    cbn [differs bitAnd]. change (Byte.eqb xa0 xa0) with true. cbn [negb].
    rewrite stop_byte_test. apply N.eqb_eq in Hn. rewrite Hn. cbn [negb snd].
    rewrite writeToSerial_not_writable by exact Hw.
    simpl. repeat split; reflexivity.
  - intros cfg s Hr. apply (reachable_flow cfg s Hr).
  - assert (H : exists s, run cfg0 droppedFrameRun (initial 0 port0) = Some s /\
                          serialFrames (stats s) < tcpFramesOk (stats s)).
    { eexists. split; [vm_compute; reflexivity|]. vm_compute. reflexivity. }
    destruct H as (s & Hrun & Hlt).
    exists cfg0, s. split; [|exact Hlt].
    eapply run_reachable; [apply reachable_initial|exact Hrun].
Qed.

(** A dropped frame on a sample buffer, and the bound on the initial
    state. *)
Lemma good_frames_bound_serial_frames_witness :
  let s := set_serial closedPort (set_tcpBuffer (frameWith xc0) (initial 0 port0)) in
  (writable (serial s) = false /\
   tcpFramesOk (stats (snd (loopBody 5 s))) = tcpFramesOk (stats s) + 1 /\
   serialFrames (stats (snd (loopBody 5 s))) = serialFrames (stats s)) /\
  (reachable cfg0 (initial 0 port0) /\
   serialFrames (stats (initial 0 port0)) <= tcpFramesOk (stats (initial 0 port0))).
Proof.
  intros s. split.
  - destruct (proj1 good_frames_bound_serial_frames 5 s xc0
                eq_refl eq_refl eq_refl eq_refl) as (H1 & _ & H3 & _).
    repeat split; assumption.
  - split; [apply reachable_initial|].
    apply (proj1 (proj2 good_frames_bound_serial_frames) cfg0 (initial 0 port0)
             (reachable_initial cfg0 0 port0)).
Defined.

(** ** The command aggregator *)

Lemma queueCmd_tokens : forall cfg now cmd s,
  cmdBuf (queueCmd cfg now cmd s) = cmdBuf s /\
  tokensOf (trace (queueCmd cfg now cmd s)) = tokensOf (trace s) ++ [cmd].
Proof.
  intros. unfold queueCmd. simpl. rewrite tokensOf_app. auto.
Qed.

Lemma feedByte_tokenStep : forall cfg now b s,
  cmdBuf (feedByte cfg now b s) = fst (tokenStep (cmdBuf s) b) /\
  tokensOf (trace (feedByte cfg now b s)) =
    tokensOf (trace s) ++ snd (tokenStep (cmdBuf s) b).
Proof.
  intros cfg now b s. unfold feedByte, tokenStep.
  destruct (Byte.eqb b x00); [simpl; rewrite app_nil_r; auto|].
  cbn [cmdBuf set_cmdBuf].
  repeat match goal with
         | |- context [if ?c then _ else _] => destruct c
         end;
    cbn [fst snd];
    try (destruct (queueCmd_tokens cfg now (trim (cmdBuf s ++ String (ascii_of_byte b) ""))
           (set_cmdBuf "" (set_cmdBuf (cmdBuf s ++ String (ascii_of_byte b) "")%string s)))
           as [-> ->]);
    try (destruct (queueCmd_tokens cfg now (cmdBuf s ++ String (ascii_of_byte b) "")
           (set_cmdBuf "" (set_cmdBuf (cmdBuf s ++ String (ascii_of_byte b) "")%string s)))
           as [-> ->]);
    simpl; rewrite ?app_nil_r; auto.
Qed.

Lemma feedCmdBytes_tokenize : forall cfg now buf s,
  cmdBuf (feedCmdBytes cfg now buf s) = fst (tokenize (cmdBuf s) buf) /\
  tokensOf (trace (feedCmdBytes cfg now buf s)) =
    tokensOf (trace s) ++ snd (tokenize (cmdBuf s) buf).
Proof.
  intros cfg now buf s. unfold feedCmdBytes.
  change (cmdBuf s) with (cmdBuf (upd_stats (set_lastBioAt now) s)).
  change (trace s) with (trace (upd_stats (set_lastBioAt now) s)).
  generalize (upd_stats (set_lastBioAt now) s). clear s.
  induction buf as [|b buf IH]; intros s; simpl.
  - rewrite app_nil_r; auto.
  - destruct (IH (feedByte cfg now b s)) as [H1 H2].
    destruct (feedByte_tokenStep cfg now b s) as [E1 E2].
    rewrite H1, H2, E1, E2, app_assoc. auto.
Qed.

(** ** Claims on the command aggregator *)

(** C1, as the code has it.  From an empty accumulator, the bytes of
    "start34X" give two tokens: "s" at once on the first byte, which is a
    single-character command, and "tart34X" on the 'X', with no newline
    needed; before the 'X' the accumulator holds "tart34" and no second
    token is out. *)
Theorem start34X_tokens : forall cfg now s,
  cmdBuf s = "" ->
  tokensOf (trace (feedCmdBytes cfg now (bytesOf "s") s)) =
    tokensOf (trace s) ++ ["s"] /\
  tokensOf (trace (feedCmdBytes cfg now (bytesOf "start34") s)) =
    tokensOf (trace s) ++ ["s"] /\
  cmdBuf (feedCmdBytes cfg now (bytesOf "start34") s) = "tart34" /\
  tokensOf (trace (feedCmdBytes cfg now (bytesOf "start34X") s)) =
    tokensOf (trace s) ++ ["s"; "tart34X"] /\
  cmdBuf (feedCmdBytes cfg now (bytesOf "start34X") s) = "".
Proof.
  intros cfg now s Hb.
  destruct (feedCmdBytes_tokenize cfg now (bytesOf "s") s) as [_ T1].
  destruct (feedCmdBytes_tokenize cfg now (bytesOf "start34") s) as [B2 T2].
  destruct (feedCmdBytes_tokenize cfg now (bytesOf "start34X") s) as [B3 T3].
  rewrite T1, T2, B2, T3, B3, Hb. repeat split; reflexivity.
Qed.

(** The two tokens from the initial state. *)
Lemma start34X_tokens_witness :
  cmdBuf (initial 0 port0) = "" /\
  tokensOf (trace (feedCmdBytes cfg0 1 (bytesOf "start34X") (initial 0 port0))) =
    tokensOf (trace (initial 0 port0)) ++ ["s"; "tart34X"].
Proof.
  split; [reflexivity|].
  apply (start34X_tokens cfg0 1 (initial 0 port0) eq_refl).
Defined.

(** C1 as stated fails: the tokens given by "start34X" are not the single
    token "start34X". *)
Lemma start34X_not_one_token :
  tokensOf (trace (feedCmdBytes cfg0 1 (bytesOf "start34X") (initial 0 port0)))
  <> ["start34X"].
Proof. vm_compute. discriminate. Qed.

(** ** Claims on sending a command *)

(** C5, as the code has it.  [sendShieldCommand] first sends the JSON
    POST.  If that is answered with a status outside 200-299, it sends a
    second POST with the same command as text/plain; if it is answered
    with a status in 200-299, it sends nothing more; if the fetch is
    rejected (a transport failure), it sends nothing more either and is
    itself rejected with that error.  The link that [queueCmd] chains onto
    [cmdQ] sends the same requests. *)
Theorem fallback_on_http_status :
  (forall cfg cmd x rest,
     fst (play (sendShieldCommand cfg cmd) (x :: rest)) =
       commandJson cfg cmd ::
       match x with
       | Responded r => if resp_ok r then [] else [commandText cfg cmd]
       | Failed _ => []
       end) /\
  (forall cfg cmd e rest,
     snd (play (sendShieldCommand cfg cmd) (Failed e :: rest)) = Rejected e) /\
  (forall cfg cmd script,
     fst (play (link cfg (Ret tt) cmd) script) =
     fst (play (sendShieldCommand cfg cmd) script)).
Proof.
  split; [|split].
  - intros cfg cmd [r|e] rest; simpl; [|reflexivity].
    unfold replyOf; simpl. destruct (resp_ok r); simpl; [reflexivity|].
    destruct rest as [|[r'|e'] rest]; reflexivity.
  - reflexivity.
  - intros cfg cmd [|[r|e] rest]; simpl; try reflexivity.
    unfold replyOf; simpl. destruct (resp_ok r); simpl; [reflexivity|].
    destruct rest as [|[r'|e'] rest]; reflexivity.
Qed.

(** C5 as stated fails on a transport failure: the command "v" is queued,
    the fetch of its JSON POST is rejected, and the dispatch is over
    ([cmdQ] is settled, the depth is back to 0) with the JSON POST as the
    only request made. *)
Lemma transport_failure_has_no_fallback :
  exists s,
    run cfg0 refusedCommandRun (initial 0 port0) = Some s /\
    cmdQ s = Runnable (Ret tt) /\
    cmdQueueDepth s = 0 /\
    requestsOf Queue (trace s) = [(10, commandJson cfg0 "v")] /\
    ~ In (commandText cfg0 "v") (List.map snd (requestsOf Queue (trace s))).
Proof.
  eexists. split; [vm_compute; reflexivity|].
  split; [reflexivity|]. split; [reflexivity|]. split; [reflexivity|].
  simpl. intros [H|[]]. discriminate.
Qed.

(** ** Claims on the TCP server *)

(** C6, as the code has it.  The "close" callback empties [tcpBuffer]
    and, when the closing socket is the current one, forgets it.  The flag
    [pausedBySerialBackpressure] keeps its value, and so do the counters,
    the command queue and its depth, the timers and the promises under
    way, and nothing is sent to the outside. *)
Theorem close_resets_buffer_only : forall sock s,
  tcpBuffer (socketOnClose sock s) = [] /\
  currentSocket (socketOnClose sock s) =
    match currentSocket s with
    | Some cur => if Nat.eqb cur sock then None else Some cur
    | None => None
    end /\
  pausedBySerialBackpressure (socketOnClose sock s) = pausedBySerialBackpressure s /\
  stats (socketOnClose sock s) = stats s /\
  cmdQ (socketOnClose sock s) = cmdQ s /\
  cmdQueueDepth (socketOnClose sock s) = cmdQueueDepth s /\
  cmdBuf (socketOnClose sock s) = cmdBuf s /\
  timers (socketOnClose sock s) = timers s /\
  tasks (socketOnClose sock s) = tasks s /\
  serverStarted (socketOnClose sock s) = serverStarted s /\
  trace (socketOnClose sock s) = trace s.
Proof.
  intros sock s. unfold socketOnClose.
  destruct (currentSocket s) as [cur|] eqn:Hc; simpl.
  - destruct (Nat.eqb cur sock); simpl; rewrite ?Hc; repeat split; reflexivity.
  - rewrite Hc. repeat split; reflexivity.
Qed.

(** C6 as stated fails on the flag: in a state reached with the socket
    paused by backpressure, the close of that socket leaves the flag up,
    in the callback and after the whole turn of the event loop. *)
Lemma close_keeps_flag :
  exists s s',
    run cfg0 pausedRun (initial 0 port0) = Some s /\
    pausedBySerialBackpressure s = true /\
    currentSocket s = Some 1%nat /\
    pausedBySerialBackpressure (socketOnClose 1%nat s) = true /\
    handle cfg0 1060 (TcpClose 1%nat) s = Some s' /\
    pausedBySerialBackpressure s' = true.
Proof.
  eexists. eexists. split; [vm_compute; reflexivity|].
  split; [reflexivity|]. split; [reflexivity|]. split; [reflexivity|].
  split; [vm_compute; reflexivity|]. reflexivity.
Qed.

(** ** The command queue *)

Lemma dispatchedOf_app : forall a b,
  dispatchedOf (a ++ b) = dispatchedOf a ++ dispatchedOf b.
Proof. intros; unfold dispatchedOf; apply flat_map_app. Qed.

Ltac qview_tac :=
  unfold queueView; simpl; rewrite ?tokensOf_app, ?dispatchedOf_app; simpl;
  rewrite ?app_nil_r; reflexivity.

(** A link chained onto a plan extends the plan. *)
Lemma plan_link : forall cfg p cmds cmd,
  Plan cfg p cmds -> Plan cfg (link cfg p cmd) (cmds ++ [cmd]).
Proof.
  intros cfg p cmds cmd H.
  induction H as [|k cmds H IH|c k cmds H IH|c k cmds H IH]; simpl.
  - apply Plan_json. intros [r|e]; simpl.
    + destruct (resp_ok r); simpl.
      * apply Plan_dec, Plan_done.
      * apply Plan_text. intros [r'|e']; simpl; apply Plan_dec, Plan_done.
    + apply Plan_dec, Plan_done.
  - apply Plan_dec. exact IH.
  - apply Plan_json. exact IH.
  - apply Plan_text. exact IH.
Qed.

Lemma chained_plan : forall cfg t t' added cmds,
  Chained cfg t t' added -> TaskPlan cfg t cmds -> TaskPlan cfg t' (cmds ++ added).
Proof.
  intros cfg t t' added cmds H Hp.
  induction H as [|t' added cmd H IH].
  - rewrite app_nil_r. assumption.
  - rewrite app_assoc. destruct t' as [p|k|body]; simpl in *.
    + apply plan_link. assumption.
    + intros x. apply plan_link. apply IH.
    + assumption.
Qed.

Lemma chained_inFlight : forall cfg t t' added,
  Chained cfg t t' added -> (exists k, t = OnFetch k) -> exists k', t' = OnFetch k'.
Proof.
  intros cfg t t' added H Hk. induction H as [|t' added cmd H IH]; [assumption|].
  destruct IH as [k' ->]. simpl. eauto.
Qed.

Lemma chained_trans : forall cfg a b c x y,
  Chained cfg a b x -> Chained cfg b c y -> Chained cfg a c (x ++ y).
Proof.
  intros cfg a b c x y Hab Hbc. induction Hbc as [|c y cmd H IH].
  - rewrite app_nil_r. assumption.
  - rewrite app_assoc. apply Chained_snoc. assumption.
Qed.

(** Running [cmdQ] up to its next [await]: at most one dispatch starts,
    the next of the plan; the promise then awaits an answer, or is settled
    with nothing left; the process is not ended. *)
Lemma advance_queue : forall cfg p cmds,
  Plan cfg p cmds ->
  forall now s,
  exists new rest,
    cmds = new ++ rest /\
    (List.length new <= 1)%nat /\
    dispatchedOf (trace (snd (advance now Queue p s))) =
      dispatchedOf (trace s) ++ new /\
    tokensOf (trace (snd (advance now Queue p s))) = tokensOf (trace s) /\
    TaskPlan cfg (fst (advance now Queue p s)) rest /\
    (fst (advance now Queue p s) = Runnable (Ret tt) /\ rest = [] \/
     exists k, fst (advance now Queue p s) = OnFetch k) /\
    halted (snd (advance now Queue p s)) = halted s /\
    cmdQ (snd (advance now Queue p s)) = cmdQ s.
Proof.
  intros cfg p cmds H.
  induction H as [|k cmds H IH|c k cmds H IH|c k cmds H IH]; intros now s.
  - exists [], []. simpl. rewrite app_nil_r. repeat split; auto. constructor.
  - simpl. destruct (IH now (perform DecQueueDepth now s))
      as (new & rest & H1 & H2 & H3 & H4 & H5 & H6 & H7 & H8).
    exists new, rest. repeat split; auto.
  - exists [c], cmds. simpl. rewrite tokensOf_app, dispatchedOf_app. simpl.
    rewrite app_nil_r. repeat split; auto. right. eauto.
  - exists [], cmds. simpl. rewrite tokensOf_app, dispatchedOf_app. simpl.
    rewrite !app_nil_r. repeat split; auto. right. eauto.
Qed.

(** The other promises leave the queue alone. *)
Lemma perform_queueView : forall a now s, queueView (perform a now s) = queueView s.
Proof. intros [] now s; reflexivity. Qed.

Lemma advance_other : forall p now w s,
  w <> Queue -> queueView (snd (advance now w p s)) = queueView s.
Proof.
  induction p as [a|e|e|r k IH|ms body IH|a k IH]; intros now w s Hw; simpl;
    try reflexivity.
  - destruct w; [contradiction| | |]; qview_tac.
  - rewrite IH by assumption. apply perform_queueView.
Qed.

Lemma storeTask_other : forall w t s,
  w <> Queue -> queueView (storeTask w t s) = queueView s.
Proof. intros [] [] s Hw; try contradiction; reflexivity. Qed.

Lemma runTask_other : forall now w p s,
  w <> Queue -> queueView (runTask now w p s) = queueView s.
Proof.
  intros now w p s Hw. unfold runTask.
  rewrite storeTask_other by assumption. apply advance_other. assumption.
Qed.

Lemma writeToSerial_queueView : forall now data s,
  queueView (writeToSerial now data s) = queueView s.
Proof.
  intros now data s. unfold writeToSerial.
  destruct (writable (serial s)); simpl; [|reflexivity].
  destruct (currentSocket s); simpl; [|qview_tac].
  destruct (hd true (writeResults (serial s))),
           (pausedBySerialBackpressure s); qview_tac.
Qed.

Lemma loopBody_queueView : forall now s,
  queueView (snd (loopBody now s)) = queueView s.
Proof.
  intros now s. unfold loopBody.
  repeat match goal with
         | |- context [if ?c then _ else _] => destruct c
         end; try reflexivity.
  cbn [snd].
  match goal with
  | |- context [writeToSerial ?n ?d ?x] =>
      pose proof (writeToSerial_queueView n d x) as H;
      set (s2 := writeToSerial n d x) in *
  end.
  unfold queueView in *. simpl in *. rewrite H.
  rewrite tokensOf_app, dispatchedOf_app. simpl. rewrite !app_nil_r. reflexivity.
Qed.

Lemma whileLoop_queueView : forall fuel now s,
  queueView (whileLoop fuel now s) = queueView s.
Proof.
  induction fuel as [|fuel IH]; intros now s; [reflexivity|].
  rewrite whileLoop_S.
  destruct (33 <=? List.length (tcpBuffer s))%nat; [|reflexivity].
  pose proof (loopBody_queueView now s) as H.
  destruct (loopBody now s) as [[|] s']; cbn [snd] in H; [|assumption].
  rewrite IH. assumption.
Qed.

Lemma socketOnData_queueView : forall now chunk s,
  queueView (socketOnData now chunk s) = queueView s.
Proof.
  intros now chunk s. unfold socketOnData, processTcpBuffer.
  rewrite whileLoop_queueView. reflexivity.
Qed.

Lemma serialOnDrain_queueView : forall now s,
  queueView (serialOnDrain now s) = queueView s.
Proof.
  intros now s. unfold serialOnDrain.
  destruct (currentSocket s); [|reflexivity].
  destruct (pausedBySerialBackpressure s); [qview_tac|reflexivity].
Qed.

Lemma socketOnClose_queueView : forall sock s,
  queueView (socketOnClose sock s) = queueView s.
Proof.
  intros sock s. unfold socketOnClose.
  destruct (currentSocket s) as [c|]; [|reflexivity].
  destruct (Nat.eqb c sock); reflexivity.
Qed.

Lemma triggerByte_queueView : forall now b s,
  queueView (triggerByte now b s) = queueView s.
Proof.
  intros now b s. unfold triggerByte.
  destruct (Byte.eqb b x62), (Byte.eqb b x73); reflexivity.
Qed.

Lemma triggers_queueView : forall now buf s,
  queueView (fold_left (fun s b => triggerByte now b s) buf s) = queueView s.
Proof.
  intros now buf. induction buf as [|b buf IH]; intros s; simpl; [reflexivity|].
  rewrite IH. apply triggerByte_queueView.
Qed.

Lemma startServer_queueView : forall cfg now s,
  queueView (snd (startServer cfg now s)) = queueView s.
Proof.
  intros cfg now s. unfold startServer, listen.
  destruct (serverStarted s); [reflexivity|].
  destruct (validPort (tcpPort cfg)); qview_tac.
Qed.

Lemma fire_queueView : forall cfg now cb s,
  (forall body, cmdQ s <> OnTimer body) ->
  queueView (fire cfg now cb s) = queueView s.
Proof.
  intros cfg now cb s Hq. destruct cb as [| |w]; unfold fire.
  - pose proof (startServer_queueView cfg now s) as H.
    destruct (startServer cfg now s) as [[|] s1]; cbn [snd] in H.
    + rewrite runTask_other by discriminate. exact H.
    + exact H.
  - rewrite runTask_other by discriminate. reflexivity.
  - destruct (lookupTask w s) as [[p|k|body]|] eqn:Hl; try reflexivity.
    destruct w; [|apply runTask_other; discriminate..].
    simpl in Hl. inversion Hl as [E]. exfalso. apply (Hq body). assumption.
Qed.

Lemma queueCmd_chained : forall cfg now cmd s,
  cmdQ (queueCmd cfg now cmd s) = mapTask (fun p => link cfg p cmd) (cmdQ s) /\
  tokensOf (trace (queueCmd cfg now cmd s)) = tokensOf (trace s) ++ [cmd] /\
  dispatchedOf (trace (queueCmd cfg now cmd s)) = dispatchedOf (trace s).
Proof.
  intros. unfold queueCmd. simpl.
  rewrite tokensOf_app, dispatchedOf_app. simpl. rewrite app_nil_r. auto.
Qed.

Lemma chains_refl : forall cfg s s', queueView s' = queueView s -> chains cfg s s'.
Proof.
  intros cfg s s' H. unfold queueView in H. injection H as H1 H2 H3.
  exists []. rewrite H1, H2, H3, app_nil_r. repeat split. constructor.
Qed.

Lemma chains_trans : forall cfg a b c,
  chains cfg a b -> chains cfg b c -> chains cfg a c.
Proof.
  intros cfg a b c (x & X1 & X2 & X3) (y & Y1 & Y2 & Y3).
  exists (x ++ y). rewrite Y2, X2, Y3, X3, app_assoc. repeat split.
  eapply chained_trans; eassumption.
Qed.

Lemma chains_queueCmd : forall cfg now cmd s s0,
  queueView s0 = queueView s -> chains cfg s (queueCmd cfg now cmd s0).
Proof.
  intros cfg now cmd s s0 H. unfold queueView in H. injection H as H1 H2 H3.
  destruct (queueCmd_chained cfg now cmd s0) as (E1 & E2 & E3).
  exists [cmd]. rewrite E1, E2, E3, H1, H2, H3. repeat split.
  apply (Chained_snoc cfg (cmdQ s) (cmdQ s) [] cmd). constructor.
Qed.

Lemma feedByte_chains : forall cfg now b s, chains cfg s (feedByte cfg now b s).
Proof.
  intros cfg now b s. unfold feedByte.
  repeat match goal with
         | |- context [if ?c then _ else _] => destruct c
         end;
    first [ apply chains_queueCmd; reflexivity | apply chains_refl; reflexivity ].
Qed.

Lemma feedCmdBytes_chains : forall cfg now buf s,
  chains cfg s (feedCmdBytes cfg now buf s).
Proof.
  intros cfg now buf s. unfold feedCmdBytes.
  apply (chains_trans cfg s (upd_stats (set_lastBioAt now) s));
    [apply chains_refl; reflexivity|].
  generalize (upd_stats (set_lastBioAt now) s). clear s.
  induction buf as [|b buf IH]; intros s; simpl.
  - apply chains_refl; reflexivity.
  - eapply chains_trans; [apply feedByte_chains|apply IH].
Qed.

Lemma serialOnData_chains : forall cfg now buf s,
  chains cfg s (serialOnData cfg now buf s).
Proof.
  intros cfg now buf s. unfold serialOnData.
  eapply chains_trans; [apply feedCmdBytes_chains|].
  apply chains_refl. apply triggers_queueView.
Qed.

(** Every callback but the settling of the queue's own request only
    chains onto the queue. *)
Lemma react_chains : forall cfg now e s,
  (forall body, cmdQ s <> OnTimer body) ->
  (forall x, e <> FetchSettles Queue x) ->
  chains cfg s (react cfg now e s).
Proof.
  intros cfg now e s Hq He. destruct e; cbn [react].
  - apply chains_refl; reflexivity.
  - apply chains_refl. rewrite socketOnData_queueView. reflexivity.
  - apply chains_refl. rewrite socketOnClose_queueView. reflexivity.
  - eapply chains_trans; [|apply serialOnData_chains].
    apply chains_refl; reflexivity.
  - apply chains_refl. rewrite serialOnDrain_queueView. reflexivity.
  - apply chains_refl; reflexivity.
  - apply chains_refl. unfold findTimer. cbn [timers set_clock].
    destruct (find _ (timers s)); [|reflexivity].
    rewrite fire_queueView; [reflexivity|exact Hq].
  - apply chains_refl. destruct w.
    + exfalso. eapply He; reflexivity.
    + destruct (lookupTask (Begin n) s) as [[]|]; try reflexivity.
      rewrite runTask_other by discriminate. reflexivity.
    + destruct (lookupTask (Stop n) s) as [[]|]; try reflexivity.
      rewrite runTask_other by discriminate. reflexivity.
    + destruct (lookupTask Configure s) as [[]|]; try reflexivity.
      rewrite runTask_other by discriminate. reflexivity.
  - apply chains_refl. rewrite runTask_other by discriminate. reflexivity.
  - apply chains_refl; reflexivity.
Qed.

(** The microtask checkpoint: if [cmdQ] awaits an answer nothing happens;
    otherwise it runs, which starts at most one dispatch. *)
Lemma pump_queue : forall cfg now x cmds,
  TaskPlan cfg (cmdQ x) cmds ->
  tokensOf (trace x) = dispatchedOf (trace x) ++ cmds ->
  exists new rest,
    cmds = new ++ rest /\
    (List.length new <= 1)%nat /\
    dispatchedOf (trace (pump now x)) = dispatchedOf (trace x) ++ new /\
    (inFlight x -> new = []) /\
    halted (pump now x) = halted x /\
    queueInv cfg (pump now x).
Proof.
  intros cfg now x cmds Hp Ht. unfold pump.
  destruct (cmdQ x) as [p|k|body] eqn:Hq; simpl in Hp.
  - destruct (advance_queue cfg p cmds Hp now x)
      as (new & rest & H1 & H2 & H3 & H4 & H5 & H6 & H7 & H8).
    unfold runTask. cbn [storeTask].
    exists new, rest. repeat split; auto.
    + intros [k Hk]. congruence.
    + exists rest. cbn [cmdQ trace set_cmdQ]. repeat split.
      * exact H5.
      * rewrite H4, H3, Ht, H1, app_assoc. reflexivity.
      * unfold inFlight. cbn [cmdQ set_cmdQ].
        destruct H6 as [[-> ->]|[k ->]]; [left; auto|right; eauto].
  - exists [], cmds. rewrite app_nil_r. repeat split; auto.
    exists cmds. rewrite Hq. repeat split; auto. right. exists k. assumption.
  - contradiction.
Qed.

(** One turn of the event loop, seen from the queue. *)
Lemma handle_queue : forall cfg now e s s',
  queueInv cfg s ->
  handle cfg now e s = Some s' ->
  queueInv cfg s' /\
  halted s' = halted (react cfg now e (set_clock now s)) /\
  exists new,
    dispatchedOf (trace s') = dispatchedOf (trace s) ++ new /\
    (List.length new <= 1)%nat /\
    (new <> [] -> inFlight s -> exists x, e = FetchSettles Queue x).
Proof.
  intros cfg now e s s' (waiting & Hp & Ht & Hs) Hh.
  apply handle_inv in Hh. destruct Hh as [Hen ->].
  assert (Hnt : forall body, cmdQ (set_clock now s) <> OnTimer body).
  { intros body Hb. cbn [cmdQ set_clock] in Hb. rewrite Hb in Hp. exact Hp. }
  assert (Hq : (exists x k, e = FetchSettles Queue x /\ cmdQ s = OnFetch k) \/
               (forall x, e <> FetchSettles Queue x)).
  { destruct e; try (right; discriminate).
    destruct w; try (right; discriminate).
    left. unfold enabled in Hen. cbn [lookupTask] in Hen.
    destruct (cmdQ s) as [p|k|body]; try (rewrite andb_false_r in Hen; discriminate).
    eauto. }
  destruct Hq as [(x & k & -> & Hk)|Hne].
  - (* the answer to the request of the queue *)
    cbn [react lookupTask cmdQ set_clock]. rewrite Hk. rewrite Hk in Hp. simpl in Hp.
    destruct (advance_queue cfg (k x) waiting (Hp x) now (set_clock now s))
      as (new & rest & H1 & H2 & H3 & H4 & H5 & H6 & H7 & H8).
    set (y := runTask now Queue (k x) (set_clock now s)).
    assert (Hy : cmdQ y = fst (advance now Queue (k x) (set_clock now s)) /\
                 trace y = trace (snd (advance now Queue (k x) (set_clock now s))))
      by (split; reflexivity).
    destruct Hy as [Hy1 Hy2].
    assert (Hpy : TaskPlan cfg (cmdQ y) rest) by (rewrite Hy1; exact H5).
    assert (Hty : tokensOf (trace y) = dispatchedOf (trace y) ++ rest).
    { rewrite Hy2, H4, H3. cbn [trace set_clock]. rewrite Ht, H1, app_assoc.
      reflexivity. }
    destruct (pump_queue cfg now y rest Hpy Hty)
      as (new' & rest' & P1 & P2 & P3 & P4 & P5 & P6).
    assert (Hnew' : new' = []).
    { destruct H6 as [[_ Hr]|[k' Hk']].
      - rewrite Hr in P1. destruct new'; [reflexivity|discriminate].
      - apply P4. exists k'. rewrite Hy1. exact Hk'. }
    subst new'. rewrite app_nil_r in P3.
    split; [exact P6|]. split; [exact P5|].
    exists new. rewrite P3, Hy2, H3. cbn [trace set_clock].
    repeat split; auto. intros _ _. eauto.
  - (* any other callback *)
    destruct (react_chains cfg now e (set_clock now s) Hnt Hne)
      as (added & C1 & C2 & C3).
    set (y := react cfg now e (set_clock now s)) in *.
    cbn [cmdQ trace set_clock] in C1, C2, C3.
    assert (Hpy : TaskPlan cfg (cmdQ y) (waiting ++ added))
      by (eapply chained_plan; eassumption).
    assert (Hty : tokensOf (trace y) = dispatchedOf (trace y) ++ waiting ++ added)
      by (rewrite C2, C3, Ht, app_assoc; reflexivity).
    destruct (pump_queue cfg now y (waiting ++ added) Hpy Hty)
      as (new & rest & P1 & P2 & P3 & P4 & P5 & P6).
    split; [exact P6|]. split; [exact P5|].
    exists new. rewrite P3, C3. repeat split; auto.
    intros Hn Hf. exfalso. apply Hn. apply P4.
    eapply chained_inFlight; eassumption.
Qed.

Lemma reachable_queue : forall cfg s, reachable cfg s -> queueInv cfg s.
Proof.
  intros cfg s H. induction H as [t0 port|s now e s' Hr IH Hh].
  - exists []. repeat split; [constructor|left; auto].
  - apply (handle_queue cfg now e s s' IH Hh).
Qed.

(** ** Claims on the command queue *)

(** C4.  In every reachable state the commands dispatched so far (those
    whose first POST has been sent) are, in order, the first of the
    commands queued so far: none is skipped, none overtakes another.
    Either all have been dispatched or [cmdQ] awaits the answer to a
    request.  A turn of the event loop starts at most one dispatch, and
    while a request of the queue is in flight it starts one only when that
    request settles.  However the request settles (any status, or a
    transport failure), the process goes on and the same holds after it:
    what is still waiting gets its turn. *)
Theorem command_queue_fifo : forall cfg s,
  reachable cfg s ->
  (exists waiting,
     tokensOf (trace s) = dispatchedOf (trace s) ++ waiting /\
     (waiting = [] \/ inFlight s)) /\
  (forall now e s',
     handle cfg now e s = Some s' ->
     exists new,
       dispatchedOf (trace s') = dispatchedOf (trace s) ++ new /\
       (List.length new <= 1)%nat /\
       (new <> [] -> inFlight s -> exists x, e = FetchSettles Queue x)) /\
  (forall now x s',
     handle cfg now (FetchSettles Queue x) s = Some s' ->
     halted s' = false /\
     exists waiting,
       tokensOf (trace s') = dispatchedOf (trace s') ++ waiting /\
       (waiting = [] \/ inFlight s')).
Proof.
  intros cfg s Hr. pose proof (reachable_queue cfg s Hr) as Hi.
  split; [|split].
  - destruct Hi as (waiting & _ & Ht & Hs). exists waiting. split; [exact Ht|].
    destruct Hs as [[_ ->]|Hf]; auto.
  - intros now e s' Hh. apply (handle_queue cfg now e s s' Hi Hh).
  - intros now x s' Hh.
    destruct (handle_queue cfg now _ s s' Hi Hh) as ((waiting & _ & Ht & Hs) & Hhalt & _).
    split.
    + rewrite Hhalt. apply handle_inv in Hh. destruct Hh as [Hen _].
      unfold enabled in Hen. cbn [lookupTask] in Hen.
      destruct Hi as (w0 & Hp & _).
      destruct (cmdQ s) as [p|k|body] eqn:Hq;
        try (rewrite andb_false_r in Hen; discriminate).
      cbn [react lookupTask cmdQ set_clock]. rewrite Hq. simpl in Hp.
      destruct (advance_queue cfg (k x) w0 (Hp x) now (set_clock now s))
        as (_ & _ & _ & _ & _ & _ & _ & _ & H7 & _).
      unfold runTask. cbn [storeTask halted set_cmdQ]. rewrite H7.
      cbn [halted set_clock].
      destruct (halted s); [discriminate|reflexivity].
    + exists waiting. split; [exact Ht|]. destruct Hs as [[_ ->]|Hf]; auto.
Qed.

(** The state reached when "v5" arrives: both tokens are queued, "v" is
    dispatched and in flight, "5" waits. *)
Lemma command_queue_fifo_witness :
  exists s,
    run cfg0 twoCommandsRun (initial 0 port0) = Some s /\
    reachable cfg0 s /\
    tokensOf (trace s) = ["v"; "5"] /\
    dispatchedOf (trace s) = ["v"] /\
    exists waiting,
      tokensOf (trace s) = dispatchedOf (trace s) ++ waiting /\
      (waiting = [] \/ inFlight s).
Proof.
  assert (H : exists s,
    run cfg0 twoCommandsRun (initial 0 port0) = Some s /\
    tokensOf (trace s) = ["v"; "5"] /\
    dispatchedOf (trace s) = ["v"])
    by (eexists; split; [|split]; vm_compute; reflexivity).
  destruct H as (s & Hrun & Htok & Hdis). exists s.
  assert (Hreach : reachable cfg0 s)
    by (eapply run_reachable; [apply reachable_initial|exact Hrun]).
  split; [exact Hrun|]. split; [exact Hreach|].
  split; [exact Htok|]. split; [exact Hdis|].
  apply (proj1 (command_queue_fifo cfg0 s Hreach)).
Defined.

(** ** Claims on the stream life cycle *)

Lemma run_cons : forall cfg now e rest s s',
  run cfg ((now, e) :: rest) s = Some s' ->
  enabled now e s = true /\
  run cfg rest (pump now (react cfg now e (set_clock now s))) = Some s'.
Proof.
  intros cfg now e rest s s' H. cbn [run] in H. unfold handle in H.
  destruct (enabled now e s); [auto|discriminate].
Qed.

Lemma run_enabled : forall cfg now e rest s,
  enabled now e s = true ->
  run cfg ((now, e) :: rest) s =
  run cfg rest (pump now (react cfg now e (set_clock now s))).
Proof.
  intros cfg now e rest s H. cbn [run]. unfold handle. rewrite H. reflexivity.
Qed.

Lemma enabled_parts : forall now e s,
  enabled now e s = true ->
  halted s = false /\ clock s <= now.
Proof.
  intros now e s H. unfold enabled in H.
  apply andb_prop in H. destruct H as [H _].
  apply andb_prop in H. destruct H as [H1 H2].
  split; [destruct (halted s); [discriminate|reflexivity]|apply Z.leb_le; assumption].
Qed.


(** * More properties *)

(** ** The books of the data path *)

Lemma writesOf_app : forall a b, writesOf (a ++ b) = writesOf a ++ writesOf b.
Proof. intros; unfold writesOf; apply flat_map_app. Qed.

Lemma pausesOf_app : forall a b, pausesOf (a ++ b) = pausesOf a + pausesOf b.
Proof.
  intros. unfold pausesOf. rewrite signalsOf_app, filter_app, length_app. lia.
Qed.

Lemma pendingAfter_app : forall a b p,
  pendingAfter p (a ++ b) =
  match pendingAfter p a with
  | Some q => pendingAfter q b
  | None => None
  end.
Proof.
  induction a as [|[t e] a IH]; intros b p; simpl; [reflexivity|].
  destruct e; try apply IH.
  destruct p as [f|]; [|reflexivity].
  destruct (bytes_eqb f data); [apply IH|reflexivity].
Qed.

Lemma pendingAfter_aside : forall tr t e p,
  aside e = true -> pendingAfter p (tr ++ [(t, e)]) = pendingAfter p tr.
Proof.
  intros tr t e p H. rewrite pendingAfter_app.
  destruct (pendingAfter p tr) as [q|]; [|reflexivity].
  destruct e; try discriminate; reflexivity.
Qed.

Lemma bytes_eqb_refl : forall a, bytes_eqb a a = true.
Proof.
  induction a as [|x a IH]; simpl; [reflexivity|].
  rewrite IH. destruct x; reflexivity.
Qed.

Ltac side_tac :=
  unfold dataSide; simpl;
  rewrite ?framesOf_app, ?writesOf_app, ?signalsOf_app;
  rewrite ?pendingAfter_aside by reflexivity;
  simpl; rewrite ?app_nil_r; reflexivity.

Lemma perform_dataSide : forall a now s, dataSide (perform a now s) = dataSide s.
Proof. intros [] now s; reflexivity. Qed.

Lemma advance_dataSide : forall p now w s,
  dataSide (snd (advance now w p s)) = dataSide s.
Proof.
  induction p as [a|e|e|r k IH|ms body IH|a k IH]; intros now w s; simpl;
    try reflexivity.
  - side_tac.
  - rewrite IH. apply perform_dataSide.
Qed.

Lemma storeTask_dataSide : forall w t s, dataSide (storeTask w t s) = dataSide s.
Proof. intros [] [] s; reflexivity. Qed.

Lemma runTask_dataSide : forall now w p s,
  dataSide (runTask now w p s) = dataSide s.
Proof.
  intros now w p s. unfold runTask.
  rewrite storeTask_dataSide. apply advance_dataSide.
Qed.

Lemma pump_dataSide : forall now s, dataSide (pump now s) = dataSide s.
Proof.
  intros now s. unfold pump. destruct (cmdQ s); try reflexivity.
  apply runTask_dataSide.
Qed.

Lemma queueCmd_dataSide : forall cfg now cmd s,
  dataSide (queueCmd cfg now cmd s) = dataSide s.
Proof. intros; unfold queueCmd; side_tac. Qed.

Lemma feedByte_dataSide : forall cfg now b s,
  dataSide (feedByte cfg now b s) = dataSide s.
Proof.
  intros cfg now b s. unfold feedByte.
  repeat match goal with
         | |- context [if ?c then _ else _] => destruct c
         end;
    rewrite ?queueCmd_dataSide; reflexivity.
Qed.

Lemma fold_dataSide : forall (f : State -> byte -> State) buf s,
  (forall s b, dataSide (f s b) = dataSide s) ->
  dataSide (fold_left f buf s) = dataSide s.
Proof.
  intros f buf. induction buf as [|b buf IH]; intros s Hf; simpl.
  - reflexivity.
  - rewrite IH by assumption. apply Hf.
Qed.

Lemma serialOnData_dataSide : forall cfg now buf s,
  dataSide (serialOnData cfg now buf s) = dataSide s.
Proof.
  intros cfg now buf s. unfold serialOnData, feedCmdBytes.
  rewrite fold_dataSide.
  - rewrite fold_dataSide; [reflexivity|]. intros; apply feedByte_dataSide.
  - intros s' b. unfold triggerByte.
    destruct (Byte.eqb b x62), (Byte.eqb b x73); reflexivity.
Qed.

Lemma fire_dataSide : forall cfg now cb s, dataSide (fire cfg now cb s) = dataSide s.
Proof.
  intros cfg now cb s. destruct cb as [| |w]; unfold fire.
  - assert (H : dataSide (snd (startServer cfg now s)) = dataSide s).
    { unfold startServer, listen. destruct (serverStarted s); [reflexivity|].
      destruct (validPort (tcpPort cfg)); side_tac. }
    destruct (startServer cfg now s) as [[|] s1]; cbn [snd] in H.
    + rewrite runTask_dataSide. exact H.
    + exact H.
  - rewrite runTask_dataSide. reflexivity.
  - destruct (lookupTask w s) as [[]|]; try reflexivity.
    apply runTask_dataSide.
Qed.

(** Only the socket callbacks and "drain" touch the data path. *)
Lemma react_dataSide : forall cfg now e s,
  match e with
  | TcpData _ _ | TcpClose _ | SerialDrain => True
  | _ => dataSide (react cfg now e s) = dataSide s
  end.
Proof.
  intros cfg now e s. destruct e; cbn [react]; try exact I.
  - reflexivity.
  - apply serialOnData_dataSide.
  - reflexivity.
  - unfold findTimer. destruct (find _ (timers s)); [|reflexivity].
    rewrite fire_dataSide. reflexivity.
  - destruct (lookupTask w s) as [[]|]; try reflexivity.
    apply runTask_dataSide.
  - rewrite runTask_dataSide. reflexivity.
  - reflexivity.
Qed.

Lemma sinkInv_dataSide : forall s s',
  dataSide s' = dataSide s -> sinkInv s -> sinkInv s'.
Proof.
  unfold dataSide, sinkInv, pausesOf. intros s s' H Hi.
  injection H as -> -> -> -> -> -> -> -> -> -> ->. exact Hi.
Qed.

(** A frame handed to [writeToSerial] is written as it is, or dropped. *)
Lemma writeToSerial_sink : forall now f s,
  let s' := writeToSerial now f s in
  writesOf (trace s') = writesOf (trace s) ++ (if writable (serial s) then [f] else []) /\
  trace s' = trace s ++
    (if writable (serial s)
     then (now, ESerialWrite f) ::
          match currentSocket s with
          | Some sock =>
              if negb (hd true (writeResults (serial s)))
                 && negb (pausedBySerialBackpressure s)
              then [(now, EPause sock)] else []
          | None => []
          end
     else []) /\
  serialBytes (stats s') =
    serialBytes (stats s)
    + (if writable (serial s) then Z.of_nat (List.length f) else 0) /\
  serialBackpressure (stats s') - pausesOf (trace s') =
    serialBackpressure (stats s) - pausesOf (trace s) /\
  tcpBytes (stats s') = tcpBytes (stats s).
Proof.
  intros now f s. unfold writeToSerial.
  destruct (writable (serial s)); simpl.
  - destruct (currentSocket s) as [sock|]; simpl.
    + destruct (hd true (writeResults (serial s))),
               (pausedBySerialBackpressure s); simpl;
        rewrite ?writesOf_app, ?pausesOf_app; simpl; rewrite ?app_nil_r,
        <- ?app_assoc; simpl; repeat split; try reflexivity; unfold pausesOf;
        simpl; lia.
    + rewrite writesOf_app, pausesOf_app. simpl. repeat split; try reflexivity.
      unfold pausesOf; simpl; lia.
  - rewrite !app_nil_r. repeat split; try reflexivity; lia.
Qed.

Lemma isFrame_head : forall buf,
  (33 <= List.length buf)%nat ->
  differs (nth_error buf 0) xa0 = false ->
  (bitAnd (nth_error (firstn 33 buf) 32) 0xf0 =? 0xc0)%N = true ->
  isFrame (firstn 33 buf) = true.
Proof.
  intros buf Hlen Hd Hs. unfold isFrame.
  rewrite length_firstn, Nat.min_l by assumption.
  rewrite nth_error_firstn. cbn [Nat.ltb Nat.leb]. rewrite Hd.
  destruct (nth_error (firstn 33 buf) 32) as [b|]; cbn [bitAnd] in Hs.
  - rewrite stop_byte_test in Hs. rewrite Hs. reflexivity.
  - discriminate.
Qed.

Lemma sinkInv_shorter : forall s buf,
  (List.length buf <= List.length (tcpBuffer s))%nat ->
  sinkInv s -> sinkInv (set_tcpBuffer buf s).
Proof.
  unfold sinkInv. intros s buf Hl (H1 & H2 & H3 & H4 & H5 & H6 & H7).
  cbn [trace stats tcpBuffer set_tcpBuffer]. repeat split; auto. lia.
Qed.

(** A turn of the loop keeps the books. *)
Lemma loopBody_sink : forall now s,
  sinkInv s -> sinkInv (snd (loopBody now s)).
Proof.
  intros now s Hi. unfold loopBody.
  destruct (differs (nth_error (tcpBuffer s) 0) xa0) eqn:Hd.
  - destruct (indexOf (tcpBuffer s) xa0 =? -1); cbn [snd];
      apply sinkInv_shorter; auto; [simpl; lia|rewrite length_skipn; lia].
  - destruct (List.length (tcpBuffer s) <? 33)%nat eqn:Hlt; [exact Hi|].
    apply Nat.ltb_ge in Hlt.
    destruct (negb _) eqn:Hstop; cbn [snd].
    + destruct Hi as (H1 & H2 & H3 & H4 & H5 & H6 & H7).
      unfold sinkInv. cbn -[Z.mul Z.add Z.of_nat]. rewrite length_skipn. repeat split; auto. lia.
    + apply negb_false_iff in Hstop.
      pose proof (isFrame_head _ Hlt Hd Hstop) as Hf.
      set (f := firstn 33 (tcpBuffer s)) in *.
      set (x := emit now (EFrame f)
                  (upd_stats (fun st => set_tcpFramesOk (tcpFramesOk st + 1) st) s)).
      destruct (writeToSerial_frame now f x) as (Hb & _ & Hok & Hbad & Hfr & _).
      destruct (writeToSerial_sink now f x) as (Hw & Ht & Hsb & Hbp & Htb).
      pose proof (writeToSerial_serialFrames now f x) as Hsf.
      set (s2 := writeToSerial now f x) in *.
      destruct Hi as (H1 & H2 & H3 & H4 & H5 & H6 & H7).
      assert (Hlenf : List.length f = 33%nat).
      { unfold f. rewrite length_firstn. lia. }
      unfold sinkInv. cbn [trace stats tcpBuffer set_tcpBuffer].
      cbn in Hb, Hok, Hbad, Hfr, Hw, Hsb, Hbp, Htb, Hsf.
      rewrite framesOf_app in Hfr. cbn in Hfr.
      rewrite writesOf_app in Hw. cbn in Hw. rewrite app_nil_r in Hw.
      rewrite pausesOf_app in Hbp. unfold pausesOf at 3 in Hbp. cbn in Hbp.
      split; [|split; [|split; [|split; [|split; [|split]]]]].
      * rewrite Hfr. apply Forall_app. split; [assumption|]. constructor; auto.
      * rewrite Ht. cbn [trace x emit set_trace upd_stats set_stats].
        rewrite !pendingAfter_app.
        destruct (pendingAfter None (trace s)) as [q|]; [|contradiction].
        cbn [pendingAfter].
        destruct (writable (serial x)); [|discriminate].
        cbn [pendingAfter]. rewrite bytes_eqb_refl.
        destruct (currentSocket x); [|discriminate].
        destruct (negb _ && negb _); discriminate.
      * rewrite Hok, Hfr, length_app. cbn. lia.
      * rewrite Hsf, Hw, length_app. destruct (writable (serial s)); cbn; lia.
      * rewrite Hsb, Hsf, Hlenf. destruct (writable (serial s)); lia.
      * lia.
      * rewrite Hok, Hbad, Htb, Hb, length_skipn. lia.
Qed.

Lemma whileLoop_sink : forall fuel now s,
  sinkInv s -> sinkInv (whileLoop fuel now s).
Proof.
  induction fuel as [|fuel IH]; intros now s Hi; [exact Hi|].
  rewrite whileLoop_S.
  destruct (33 <=? List.length (tcpBuffer s))%nat; [|exact Hi].
  pose proof (loopBody_sink now s Hi) as H.
  destruct (loopBody now s) as [[|] s']; cbn [snd] in H; auto.
Qed.

Lemma socketOnData_sink : forall now chunk s,
  sinkInv s -> sinkInv (socketOnData now chunk s).
Proof.
  intros now chunk s (H1 & H2 & H3 & H4 & H5 & H6 & H7).
  unfold socketOnData, processTcpBuffer. apply whileLoop_sink.
  unfold sinkInv. cbn -[Z.mul Z.add Z.of_nat]. repeat split; auto.
  destruct (tcpBuffer s) as [|b buf]; cbn [List.length Nat.eqb].
  - cbn [List.length] in H7. lia.
  - rewrite length_app. cbn [List.length] in *. lia.
Qed.

Lemma serialOnDrain_sink : forall now s,
  sinkInv s -> sinkInv (serialOnDrain now s).
Proof.
  intros now s Hi. unfold serialOnDrain.
  destruct (currentSocket s) as [sock|]; [|exact Hi].
  destruct (pausedBySerialBackpressure s); [|exact Hi].
  destruct Hi as (H1 & H2 & H3 & H4 & H5 & H6 & H7).
  unfold sinkInv. cbn -[Z.mul Z.add Z.of_nat].
  rewrite framesOf_app, writesOf_app, pausesOf_app, pendingAfter_aside by reflexivity.
  cbn -[Z.mul Z.add Z.of_nat pausesOf]. rewrite !app_nil_r.
  change (pausesOf [(now, EResume sock)]) with 0.
  repeat split; auto; lia.
Qed.

Lemma socketOnClose_sink : forall sock s,
  sinkInv s -> sinkInv (socketOnClose sock s).
Proof.
  intros sock s Hi. unfold socketOnClose.
  apply sinkInv_shorter; [simpl; lia|].
  destruct (currentSocket s) as [c|]; [|exact Hi].
  destruct (Nat.eqb c sock); exact Hi.
Qed.

(** One turn of the event loop keeps the books. *)
Lemma handle_sink : forall cfg now e s s',
  sinkInv s -> handle cfg now e s = Some s' -> sinkInv s'.
Proof.
  intros cfg now e s s' Hi H. apply handle_inv in H. destruct H as [_ ->].
  apply (sinkInv_dataSide (react cfg now e (set_clock now s)));
    [apply pump_dataSide|].
  pose proof (react_dataSide cfg now e (set_clock now s)) as Hv.
  destruct e; try (apply (sinkInv_dataSide s); [exact Hv|exact Hi]); cbn [react].
  - apply socketOnData_sink. exact Hi.
  - apply socketOnClose_sink. exact Hi.
  - apply serialOnDrain_sink. exact Hi.
Qed.

Lemma reachable_sink : forall cfg s, reachable cfg s -> sinkInv s.
Proof.
  intros cfg s H. induction H as [t0 port|s now e s' Hr IH Hh].
  - unfold sinkInv. cbn -[Z.mul Z.add Z.of_nat]. repeat split; try reflexivity; try lia.
    + constructor.
    + discriminate.
  - eapply handle_sink; eassumption.
Qed.

Lemma bytes_eqb_eq : forall a b, bytes_eqb a b = true -> a = b.
Proof.
  induction a as [|x a IH]; intros [|y b] H; simpl in H; try discriminate.
  - reflexivity.
  - apply andb_prop in H. destruct H as [Hx Hr].
    apply Byte.byte_dec_bl in Hx. subst y. f_equal. apply IH. exact Hr.
Qed.

Lemma pendingAfter_writes : forall tr p,
  pendingAfter p tr <> None ->
  (forall f, p = Some f -> isFrame f = true) ->
  Forall (fun f => isFrame f = true) (framesOf tr) ->
  Forall (fun d => isFrame d = true) (writesOf tr).
Proof.
  induction tr as [|[t e] tr IH]; intros p Hp Hv Hf; [constructor|].
  destruct e; cbn [pendingAfter] in Hp; cbn in Hf |- *;
    try (apply (IH p); assumption).
  - inversion Hf as [|? ? Hx Hr]; subst.
    apply (IH (Some frame)); auto. intros f E. inversion E; subst. exact Hx.
  - destruct p as [f|]; [|contradiction].
    destruct (bytes_eqb f data) eqn:E; [|contradiction].
    apply bytes_eqb_eq in E. subst data.
    constructor; [apply Hv; reflexivity|].
    apply (IH None); auto. discriminate.
Qed.

(** ** What the data path keeps *)

(** X1.  In every reachable state, every frame that the reassembler has
    handed on is well formed: 33 bytes, the sync byte in front, a stop byte
    with high nibble 0xC. *)
Theorem frames_handed_on_are_valid : forall cfg s,
  reachable cfg s ->
  Forall (fun f => isFrame f = true) (framesOf (trace s)).
Proof. intros cfg s H. apply (reachable_sink cfg s H). Qed.

(** X2.  In every reachable state, whatever has been written to the serial
    port is, write by write, the frame handed on just before, byte for
    byte; so only well-formed frames reach the port, none twice and none
    out of order. *)
Theorem serial_writes_are_the_frames : forall cfg s,
  reachable cfg s ->
  pendingAfter None (trace s) <> None /\
  Forall (fun d => isFrame d = true) (writesOf (trace s)).
Proof.
  intros cfg s H. destruct (reachable_sink cfg s H) as (H1 & H2 & _).
  split; [exact H2|].
  apply (pendingAfter_writes (trace s) None); auto. discriminate.
Qed.

(** X3.  In every reachable state [tcpFramesOk] is the number of frames
    handed on. *)
Theorem tcpFramesOk_counts_frames : forall cfg s,
  reachable cfg s ->
  tcpFramesOk (stats s) = Z.of_nat (List.length (framesOf (trace s))).
Proof. intros cfg s H. apply (reachable_sink cfg s H). Qed.

(** X4.  In every reachable state [serialFrames] is the number of writes
    made to the serial port and [serialBytes] is 33 times that. *)
Theorem serial_counters_count_writes : forall cfg s,
  reachable cfg s ->
  serialFrames (stats s) = Z.of_nat (List.length (writesOf (trace s))) /\
  serialBytes (stats s) = 33 * serialFrames (stats s).
Proof.
  intros cfg s H. destruct (reachable_sink cfg s H) as (_ & _ & _ & H4 & H5 & _).
  auto.
Qed.

(** X5.  In every reachable state [serialBackpressure] is the number of
    pauses sent to sockets. *)
Theorem serialBackpressure_counts_pauses : forall cfg s,
  reachable cfg s ->
  serialBackpressure (stats s) = pausesOf (trace s).
Proof. intros cfg s H. apply (reachable_sink cfg s H). Qed.

(** X6.  In every reachable state the bytes received cover what the
    reassembler accounts for: 33 for each good frame, one for each bad
    frame, and what is still buffered.  (Bytes skipped before a sync byte
    or dropped on close make the difference.) *)
Theorem received_bytes_cover_the_books : forall cfg s,
  reachable cfg s ->
  33 * tcpFramesOk (stats s) + tcpFramesBad (stats s)
    + Z.of_nat (List.length (tcpBuffer s)) <= tcpBytes (stats s).
Proof. intros cfg s H. apply (reachable_sink cfg s H). Qed.

(** ** A clean stream *)

Lemma processTcpBuffer_short : forall now s,
  (List.length (tcpBuffer s) < 33)%nat -> processTcpBuffer now s = s.
Proof.
  intros now s H. unfold processTcpBuffer. rewrite whileLoop_S.
  apply Nat.leb_gt in H. rewrite H. reflexivity.
Qed.

Lemma processTcpBuffer_long : forall now s,
  (33 <= List.length (tcpBuffer s))%nat ->
  processTcpBuffer now s =
  match loopBody now s with
  | (Continue, s') => processTcpBuffer now s'
  | (Return, s') => s'
  end.
Proof.
  intros now s H. unfold processTcpBuffer at 1. rewrite whileLoop_S.
  pose proof H as H'. apply Nat.leb_le in H'. rewrite H'.
  pose proof (loopBody_shrinks now s H) as Hs.
  destruct (loopBody now s) as [[|] s']; [|reflexivity].
  cbn [fst snd] in Hs. specialize (Hs eq_refl).
  unfold processTcpBuffer. apply whileLoop_fuel; lia.
Qed.

Lemma isFrame_parts : forall f,
  isFrame f = true ->
  List.length f = 33%nat /\
  differs (nth_error f 0) xa0 = false /\
  exists b, nth_error f 32 = Some b /\ highNibble b = 0xc%N.
Proof.
  intros f H. unfold isFrame in H.
  apply andb_prop in H. destruct H as [H H3].
  apply andb_prop in H. destruct H as [H1 H2].
  apply Nat.eqb_eq in H1. apply negb_true_iff in H2.
  destruct (nth_error f 32) as [b|]; [|discriminate].
  apply N.eqb_eq in H3. eauto.
Qed.

(** A turn of the loop on a buffer that starts with a well-formed frame. *)
Lemma loopBody_frame : forall now s f rest,
  isFrame f = true ->
  tcpBuffer s = f ++ rest ->
  loopBody now s =
  (Continue,
   set_tcpBuffer rest
     (writeToSerial now f
        (emit now (EFrame f)
           (upd_stats (fun st => set_tcpFramesOk (tcpFramesOk st + 1) st) s)))).
Proof.
  intros now s f rest Hf Hb.
  destruct (isFrame_parts f Hf) as (Hlen & Hd & b & H32 & Hn).
  assert (Hfirst : firstn 33 (tcpBuffer s) = f).
  { rewrite Hb, firstn_app, Hlen, Nat.sub_diag, firstn_O, app_nil_r.
    rewrite <- Hlen. apply firstn_all. }
  assert (Hskip : skipn 33 (tcpBuffer s) = rest).
  { rewrite Hb, skipn_app, Hlen, Nat.sub_diag. rewrite <- Hlen at 1.
    rewrite skipn_all. reflexivity. }
  assert (H0 : nth_error (tcpBuffer s) 0 = nth_error f 0).
  { rewrite Hb. apply nth_error_app1. lia. }
  assert (Hlt : (List.length (tcpBuffer s) <? 33)%nat = false).
  { apply Nat.ltb_ge. rewrite Hb, length_app. lia. }
  unfold loopBody. rewrite H0, Hd, Hlt, Hfirst, H32.
  cbn [bitAnd]. rewrite stop_byte_test, Hn. cbn [N.eqb Pos.eqb negb].
  destruct (writeToSerial_frame now f
              (emit now (EFrame f)
                 (upd_stats (fun st => set_tcpFramesOk (tcpFramesOk st + 1) st) s)))
    as (Hbuf & _).
  rewrite Hbuf. cbn [tcpBuffer emit set_trace upd_stats set_stats].
  rewrite Hskip. reflexivity.
Qed.

Lemma toSync_none : forall g,
  Forall (fun b => Byte.eqb b xa0 = false) g -> toSync g = [].
Proof.
  induction 1 as [|b g Hb Hg IH]; simpl; [reflexivity|].
  rewrite Hb. exact IH.
Qed.

(** A turn of the loop on a buffer that starts with bytes other than the
    sync byte, followed by a frame: the bytes are skipped. *)
Lemma loopBody_garbage : forall now s g f rest,
  g <> [] ->
  Forall (fun b => Byte.eqb b xa0 = false) g ->
  isFrame f = true ->
  tcpBuffer s = g ++ f ++ rest ->
  loopBody now s = (Continue, set_tcpBuffer (f ++ rest) s).
Proof.
  intros now s g f rest Hg Hno Hf Hb.
  destruct (isFrame_parts f Hf) as (Hlen & Hd & _).
  assert (Hsync : toSync (tcpBuffer s) = f ++ rest).
  { rewrite Hb, toSync_app, (toSync_none g Hno).
    apply toSync_synced. destruct f; [discriminate|exact Hd]. }
  assert (Hhead : differs (nth_error (tcpBuffer s) 0) xa0 = true).
  { rewrite Hb. destruct g as [|b g']; [contradiction|].
    inversion Hno; subst. simpl. apply negb_true_iff. assumption. }
  unfold loopBody. rewrite Hhead.
  destruct (indexOf (tcpBuffer s) xa0 =? -1) eqn:Hi.
  - apply indexOf_none in Hi. rewrite Hsync in Hi.
    destruct f; discriminate.
  - destruct (indexOf_some _ Hi) as [E _]. rewrite E, Hsync. reflexivity.
Qed.

Lemma frames_stream : forall fs now s,
  Forall (fun f => isFrame f = true) fs ->
  tcpBuffer s = List.concat fs ->
  framesOf (trace (processTcpBuffer now s)) = framesOf (trace s) ++ fs /\
  tcpBuffer (processTcpBuffer now s) = [] /\
  tcpFramesBad (stats (processTcpBuffer now s)) = tcpFramesBad (stats s) /\
  tcpFramesOk (stats (processTcpBuffer now s)) =
    tcpFramesOk (stats s) + Z.of_nat (List.length fs).
Proof.
  induction fs as [|f fs IH]; intros now s Hv Hb.
  - rewrite processTcpBuffer_short by (rewrite Hb; simpl; lia).
    rewrite app_nil_r. cbn [List.length Z.of_nat]. repeat split; auto. lia.
  - inversion Hv as [|? ? Hf Hrest]; subst. cbn [List.concat] in Hb.
    destruct (isFrame_parts f Hf) as (Hlen & _).
    rewrite processTcpBuffer_long by (rewrite Hb, length_app; lia).
    rewrite (loopBody_frame now s f (List.concat fs) Hf Hb).
    match goal with
    | |- context [processTcpBuffer now ?x] =>
        destruct (IH now x Hrest eq_refl) as (I1 & I2 & I3 & I4);
        rewrite I1, I2, I3, I4
    end.
    match goal with
    | |- context [writeToSerial ?n ?d ?x] =>
        destruct (writeToSerial_frame n d x) as (_ & _ & Hok & Hbad & Hfr & _)
    end.
    cbn [trace stats set_tcpBuffer]. rewrite Hok, Hbad, Hfr.
    cbn [trace stats emit set_trace upd_stats set_stats tcpFramesOk tcpFramesBad
         set_tcpFramesOk].
    rewrite framesOf_app. cbn [framesOf flat_map snd app].
    rewrite <- app_assoc. cbn [app List.length].
    repeat split; auto. lia.
Qed.

(** X7.  A stream of well-formed frames, with or without bytes other than
    the sync byte in front of it, comes out as it went in: when the
    buffered bytes and the chunk together are such a stream, the "data"
    callback hands on exactly those frames, in order, leaves the buffer
    empty, counts each in [tcpFramesOk], and counts no bad frame (skipping
    is not counted). *)
Theorem clean_stream_round_trip : forall now s chunk g fs,
  Forall (fun b => Byte.eqb b xa0 = false) g ->
  Forall (fun f => isFrame f = true) fs ->
  fs <> [] ->
  tcpBuffer s ++ chunk = g ++ List.concat fs ->
  framesOf (trace (socketOnData now chunk s)) = framesOf (trace s) ++ fs /\
  tcpBuffer (socketOnData now chunk s) = [] /\
  tcpFramesBad (stats (socketOnData now chunk s)) = tcpFramesBad (stats s) /\
  tcpFramesOk (stats (socketOnData now chunk s)) =
    tcpFramesOk (stats s) + Z.of_nat (List.length fs).
Proof.
  intros now s chunk g fs Hg Hv Hne Hb.
  unfold socketOnData.
  set (x := set_tcpBuffer _ _).
  assert (Hx : tcpBuffer x = g ++ List.concat fs).
  { unfold x. cbn [tcpBuffer set_tcpBuffer upd_stats set_stats].
    rewrite <- Hb. destruct (tcpBuffer s); reflexivity. }
  assert (Hsame : framesOf (trace x) = framesOf (trace s) /\
                  tcpFramesBad (stats x) = tcpFramesBad (stats s) /\
                  tcpFramesOk (stats x) = tcpFramesOk (stats s))
    by (repeat split; reflexivity).
  destruct Hsame as (S1 & S2 & S3). rewrite <- S1, <- S2, <- S3.
  clearbody x. clear Hb S1 S2 S3.
  destruct g as [|b g].
  - apply frames_stream; assumption.
  - destruct fs as [|f fs]; [contradiction|].
    inversion Hv as [|? ? Hf Hrest]; subst.
    destruct (isFrame_parts f Hf) as (Hlen & _).
    cbn [List.concat] in Hx.
    rewrite processTcpBuffer_long
      by (rewrite Hx, !length_app; lia).
    rewrite (loopBody_garbage now x (b :: g) f (List.concat fs)); auto; [|discriminate].
    exact (frames_stream (f :: fs) now
             (set_tcpBuffer (f ++ List.concat fs) x) Hv eq_refl).
Qed.

(** X8.  Bytes without any sync byte carry nothing: the "data" callback
    hands on no frame, writes nothing, counts neither a good nor a bad
    frame; it keeps the bytes while they are fewer than 33 and discards them
    all once they are 33 or more. *)
Theorem unsynced_bytes_are_dropped : forall now s chunk,
  Forall (fun b => Byte.eqb b xa0 = false) (tcpBuffer s ++ chunk) ->
  trace (socketOnData now chunk s) = trace s /\
  tcpFramesOk (stats (socketOnData now chunk s)) = tcpFramesOk (stats s) /\
  tcpFramesBad (stats (socketOnData now chunk s)) = tcpFramesBad (stats s) /\
  tcpBuffer (socketOnData now chunk s) =
    if (33 <=? List.length (tcpBuffer s ++ chunk))%nat then []
    else tcpBuffer s ++ chunk.
Proof.
  intros now s chunk Hno. unfold socketOnData.
  set (x := set_tcpBuffer _ _).
  assert (Hx : tcpBuffer x = tcpBuffer s ++ chunk).
  { unfold x. cbn [tcpBuffer set_tcpBuffer upd_stats set_stats].
    destruct (tcpBuffer s); reflexivity. }
  assert (Hsame : trace x = trace s /\
                  tcpFramesOk (stats x) = tcpFramesOk (stats s) /\
                  tcpFramesBad (stats x) = tcpFramesBad (stats s))
    by (repeat split; reflexivity).
  destruct Hsame as (S1 & S2 & S3). rewrite <- S1, <- S2, <- S3, <- Hx.
  rewrite <- Hx in Hno. clearbody x. clear S1 S2 S3 Hx.
  destruct (33 <=? List.length (tcpBuffer x))%nat eqn:Hlen.
  - apply Nat.leb_le in Hlen. rewrite processTcpBuffer_long by assumption.
    unfold loopBody.
    assert (Hhead : differs (nth_error (tcpBuffer x) 0) xa0 = true).
    { destruct (tcpBuffer x) as [|b buf]; [simpl in Hlen; lia|].
      inversion Hno; subst. simpl. apply negb_true_iff. assumption. }
    rewrite Hhead.
    destruct (indexOf (tcpBuffer x) xa0 =? -1) eqn:Hi.
    + repeat split; reflexivity.
    + destruct (indexOf_some _ Hi) as [_ Hne]. exfalso. apply Hne.
      apply toSync_none. assumption.
  - apply Nat.leb_gt in Hlen. rewrite processTcpBuffer_short by assumption.
    repeat split; reflexivity.
Qed.

(** The state reached by [pausedRun]: one frame handed on and written,
    one pause sent. *)
Lemma pausedRun_reaches :
  exists s,
    run cfg0 pausedRun (initial 0 port0) = Some s /\
    framesOf (trace s) = [frameWith xc0] /\
    writesOf (trace s) = [frameWith xc0] /\
    pausesOf (trace s) = 1.
Proof.
  eexists. split; [vm_compute; reflexivity|].
  split; [vm_compute; reflexivity|].
  split; vm_compute; reflexivity.
Qed.

(** The properties of the books on the state reached by [pausedRun]. *)
Lemma frames_handed_on_are_valid_witness :
  exists s,
    run cfg0 pausedRun (initial 0 port0) = Some s /\
    reachable cfg0 s /\
    framesOf (trace s) = [frameWith xc0] /\
    Forall (fun f => isFrame f = true) (framesOf (trace s)).
Proof.
  destruct pausedRun_reaches as (s & Hrun & Hf & _). exists s.
  assert (Hreach : reachable cfg0 s)
    by (eapply run_reachable; [apply reachable_initial|exact Hrun]).
  repeat split; auto. apply (frames_handed_on_are_valid cfg0 s Hreach).
Defined.

Lemma serial_writes_are_the_frames_witness :
  exists s,
    run cfg0 pausedRun (initial 0 port0) = Some s /\
    reachable cfg0 s /\
    writesOf (trace s) = [frameWith xc0] /\
    Forall (fun d => isFrame d = true) (writesOf (trace s)).
Proof.
  destruct pausedRun_reaches as (s & Hrun & _ & Hw & _). exists s.
  assert (Hreach : reachable cfg0 s)
    by (eapply run_reachable; [apply reachable_initial|exact Hrun]).
  repeat split; auto. apply (proj2 (serial_writes_are_the_frames cfg0 s Hreach)).
Defined.

Lemma tcpFramesOk_counts_frames_witness :
  exists s,
    run cfg0 pausedRun (initial 0 port0) = Some s /\
    reachable cfg0 s /\
    tcpFramesOk (stats s) = Z.of_nat (List.length (framesOf (trace s))).
Proof.
  destruct pausedRun_reaches as (s & Hrun & _). exists s.
  assert (Hreach : reachable cfg0 s)
    by (eapply run_reachable; [apply reachable_initial|exact Hrun]).
  repeat split; auto. apply (tcpFramesOk_counts_frames cfg0 s Hreach).
Defined.

Lemma serial_counters_count_writes_witness :
  exists s,
    run cfg0 pausedRun (initial 0 port0) = Some s /\
    reachable cfg0 s /\
    serialBytes (stats s) = 33 * serialFrames (stats s).
Proof.
  destruct pausedRun_reaches as (s & Hrun & _). exists s.
  assert (Hreach : reachable cfg0 s)
    by (eapply run_reachable; [apply reachable_initial|exact Hrun]).
  repeat split; auto. apply (proj2 (serial_counters_count_writes cfg0 s Hreach)).
Defined.

Lemma serialBackpressure_counts_pauses_witness :
  exists s,
    run cfg0 pausedRun (initial 0 port0) = Some s /\
    reachable cfg0 s /\
    pausesOf (trace s) = 1 /\
    serialBackpressure (stats s) = pausesOf (trace s).
Proof.
  destruct pausedRun_reaches as (s & Hrun & _ & _ & Hp). exists s.
  assert (Hreach : reachable cfg0 s)
    by (eapply run_reachable; [apply reachable_initial|exact Hrun]).
  repeat split; auto. apply (serialBackpressure_counts_pauses cfg0 s Hreach).
Defined.

Lemma received_bytes_cover_the_books_witness :
  exists s,
    run cfg0 pausedRun (initial 0 port0) = Some s /\
    reachable cfg0 s /\
    33 * tcpFramesOk (stats s) + tcpFramesBad (stats s)
      + Z.of_nat (List.length (tcpBuffer s)) <= tcpBytes (stats s).
Proof.
  destruct pausedRun_reaches as (s & Hrun & _). exists s.
  assert (Hreach : reachable cfg0 s)
    by (eapply run_reachable; [apply reachable_initial|exact Hrun]).
  repeat split; auto. apply (received_bytes_cover_the_books cfg0 s Hreach).
Defined.

(** Two frames behind a stray byte, arriving in one chunk. *)
Lemma clean_stream_round_trip_witness :
  let s := initial 0 port0 in
  let chunk := x00 :: frameWith xc0 ++ frameWith xc1 in
  framesOf (trace (socketOnData 5 chunk s)) =
    framesOf (trace s) ++ [frameWith xc0; frameWith xc1] /\
  tcpBuffer (socketOnData 5 chunk s) = [].
Proof.
  intros s chunk.
  destruct (clean_stream_round_trip 5 s chunk [x00] [frameWith xc0; frameWith xc1])
    as (H1 & H2 & _).
  - repeat constructor.
  - repeat constructor.
  - discriminate.
  - reflexivity.
  - split; assumption.
Defined.

(** Three stray bytes. *)
Lemma unsynced_bytes_are_dropped_witness :
  let s := initial 0 port0 in
  trace (socketOnData 5 [x01; x02; x03] s) = trace s /\
  tcpBuffer (socketOnData 5 [x01; x02; x03] s) = [x01; x02; x03].
Proof.
  intros s.
  destruct (unsynced_bytes_are_dropped 5 s [x01; x02; x03]) as (H1 & _ & _ & H4).
  - repeat constructor.
  - split; [exact H1|exact H4].
Defined.

(** ** Trimming *)

Lemma trimStart_head : forall x,
  trimStart x = "" \/
  exists c r, trimStart x = String c r /\ isWhiteSpace c = false.
Proof.
  induction x as [|c r IH]; simpl; [left; reflexivity|].
  destruct (isWhiteSpace c) eqn:E; [exact IH|right; eauto].
Qed.

Lemma trimEnd_idem : forall x, trimEnd (trimEnd x) = trimEnd x.
Proof.
  induction x as [|c r IH]; simpl; [reflexivity|].
  destruct (trimEnd r) as [|d r'] eqn:E.
  - destruct (isWhiteSpace c) eqn:W; simpl; [reflexivity|rewrite W; reflexivity].
  - change (trimEnd (String c (String d r')))
      with (match trimEnd (String d r') with
            | EmptyString => if isWhiteSpace c then EmptyString
                             else String c EmptyString
            | String a b => String c (String a b)
            end).
    rewrite IH. reflexivity.
Qed.

Lemma trimEnd_keeps_head : forall c r,
  isWhiteSpace c = false ->
  exists r', trimEnd (String c r) = String c r'.
Proof.
  intros c r W. simpl. destruct (trimEnd r); [rewrite W|]; eauto.
Qed.

(** [trim] leaves nothing to trim. *)
Lemma trim_idem : forall x, trim (trim x) = trim x.
Proof.
  intros x. unfold trim.
  destruct (trimStart_head x) as [E|(c & r & E & W)]; rewrite E.
  - reflexivity.
  - destruct (trimEnd_keeps_head c r W) as [r' E']. rewrite E'.
    cbn [trimStart]. rewrite W. rewrite <- E'. apply trimEnd_idem.
Qed.

(** ** The tokens of the aggregator *)

Lemma single_good : forall t, has singleCharCmd t = true -> goodToken t.
Proof.
  intros t H. unfold has in H. apply existsb_exists in H.
  destruct H as (x & Hin & E). apply String.eqb_eq in E. subst x.
  simpl in Hin.
  repeat (destruct Hin as [<-|Hin];
          [split; [reflexivity|split; [reflexivity|simpl; lia]]|]).
  contradiction.
Qed.

Lemma length_append : forall x y,
  String.length (x ++ y)%string = (String.length x + String.length y)%nat.
Proof. induction x as [|c x IH]; intros y; simpl; [reflexivity|]. rewrite IH. reflexivity. Qed.

Lemma trimStart_length : forall x, (String.length (trimStart x) <= String.length x)%nat.
Proof.
  induction x as [|c x IH]; simpl; [lia|].
  destruct (isWhiteSpace c); simpl; lia.
Qed.

Lemma trimEnd_length : forall x, (String.length (trimEnd x) <= String.length x)%nat.
Proof.
  induction x as [|c x IH]; [simpl; lia|].
  cbn [trimEnd]. destruct (trimEnd x) as [|d r].
  - destruct (isWhiteSpace c); simpl; lia.
  - simpl in *. lia.
Qed.

Lemma trim_length : forall x, (String.length (trim x) <= String.length x)%nat.
Proof.
  intros x. unfold trim.
  pose proof (trimEnd_length (trimStart x)). pose proof (trimStart_length x). lia.
Qed.

Lemma trim_good : forall x,
  (String.length x <= 257)%nat -> truthy (trim x) = true -> goodToken (trim x).
Proof.
  intros x L H. split; [exact H|split; [apply trim_idem|]].
  pose proof (trim_length x). lia.
Qed.

Lemma tokenStep_good : forall buf b,
  (String.length buf <= 256)%nat -> Forall goodToken (snd (tokenStep buf b)).
Proof.
  intros buf b L. unfold tokenStep.
  assert (L1 : (String.length (buf ++ String (ascii_of_byte b) "") <= 257)%nat)
    by (rewrite length_append; simpl; lia).
  destruct (Byte.eqb b x00); [constructor|].
  destruct (Ascii.eqb _ _ || Ascii.eqb _ _).
  - cbn [snd]. destruct (truthy (trim _)) eqn:E; constructor; [|constructor].
    apply trim_good; assumption.
  - destruct ((String.length _ =? 1)%nat && has singleCharCmd _) eqn:S1.
    + cbn [snd]. constructor; [|constructor].
      apply andb_prop in S1. apply single_good. apply S1.
    + destruct (Ascii.eqb _ _ || Ascii.eqb _ _).
      * cbn [snd]. destruct (truthy (trim _)) eqn:E; constructor; [|constructor].
        apply trim_good; assumption.
      * destruct (256 <? String.length _)%nat; constructor.
Qed.

Lemma tokenStep_bound : forall buf b,
  (String.length buf <= 256)%nat ->
  (String.length (fst (tokenStep buf b)) <= 256)%nat.
Proof.
  intros buf b H. unfold tokenStep.
  destruct (Byte.eqb b x00); [exact H|].
  destruct (Ascii.eqb _ _ || Ascii.eqb _ _); [simpl; lia|].
  destruct ((String.length _ =? 1)%nat && has singleCharCmd _); [simpl; lia|].
  destruct (Ascii.eqb _ _ || Ascii.eqb _ _); [simpl; lia|].
  destruct (256 <? String.length _)%nat eqn:E; [simpl; lia|].
  apply Nat.ltb_ge in E. exact E.
Qed.

Lemma tokenize_bound : forall bytes buf,
  (String.length buf <= 256)%nat ->
  (String.length (fst (tokenize buf bytes)) <= 256)%nat.
Proof.
  induction bytes as [|b bytes IH]; intros buf H; cbn [tokenize fst]; [exact H|].
  apply IH. apply tokenStep_bound. exact H.
Qed.

Lemma tokenize_good : forall bytes buf,
  (String.length buf <= 256)%nat -> Forall goodToken (snd (tokenize buf bytes)).
Proof.
  induction bytes as [|b bytes IH]; intros buf L; cbn [tokenize snd]; [constructor|].
  apply Forall_app. split; [apply tokenStep_good; exact L|].
  apply IH. apply tokenStep_bound. exact L.
Qed.

Lemma tokenize_app : forall a b buf,
  tokenize buf (a ++ b) =
  (fst (tokenize (fst (tokenize buf a)) b),
   snd (tokenize buf a) ++ snd (tokenize (fst (tokenize buf a)) b)).
Proof.
  induction a as [|x a IH]; intros b buf; cbn [tokenize app fst snd].
  - destruct (tokenize buf b); reflexivity.
  - rewrite IH. cbn [fst snd]. rewrite app_assoc. reflexivity.
Qed.

(** ** The rest of the program leaves the aggregator alone *)

Ltac cside_tac :=
  unfold cmdSide; simpl; rewrite ?tokensOf_app; simpl; rewrite ?app_nil_r;
  reflexivity.

Lemma advance_cmdSide : forall p now w s,
  cmdSide (snd (advance now w p s)) = cmdSide s.
Proof.
  induction p as [a|e|e|r k IH|ms body IH|a k IH]; intros now w s; simpl;
    try reflexivity.
  - cside_tac.
  - rewrite IH. destruct a; reflexivity.
Qed.

Lemma storeTask_cmdSide : forall w t s, cmdSide (storeTask w t s) = cmdSide s.
Proof. intros [] [] s; reflexivity. Qed.

Lemma runTask_cmdSide : forall now w p s,
  cmdSide (runTask now w p s) = cmdSide s.
Proof.
  intros now w p s. unfold runTask.
  rewrite storeTask_cmdSide. apply advance_cmdSide.
Qed.

Lemma pump_cmdSide : forall now s, cmdSide (pump now s) = cmdSide s.
Proof.
  intros now s. unfold pump. destruct (cmdQ s); try reflexivity.
  apply runTask_cmdSide.
Qed.

Lemma writeToSerial_cmdSide : forall now data s,
  cmdSide (writeToSerial now data s) = cmdSide s.
Proof.
  intros now data s. unfold writeToSerial.
  destruct (writable (serial s)); simpl; [|reflexivity].
  destruct (currentSocket s); simpl; [|cside_tac].
  destruct (hd true (writeResults (serial s))),
           (pausedBySerialBackpressure s); cside_tac.
Qed.

Lemma loopBody_cmdSide : forall now s,
  cmdSide (snd (loopBody now s)) = cmdSide s.
Proof.
  intros now s. unfold loopBody.
  repeat match goal with
         | |- context [if ?c then _ else _] => destruct c
         end; try reflexivity.
  cbn [snd].
  match goal with
  | |- context [writeToSerial ?n ?d ?x] =>
      pose proof (writeToSerial_cmdSide n d x) as H;
      set (s2 := writeToSerial n d x) in *
  end.
  unfold cmdSide in *. simpl in *. rewrite H.
  rewrite tokensOf_app. simpl. rewrite app_nil_r. reflexivity.
Qed.

Lemma whileLoop_cmdSide : forall fuel now s,
  cmdSide (whileLoop fuel now s) = cmdSide s.
Proof.
  induction fuel as [|fuel IH]; intros now s; [reflexivity|].
  rewrite whileLoop_S.
  destruct (33 <=? List.length (tcpBuffer s))%nat; [|reflexivity].
  pose proof (loopBody_cmdSide now s) as H.
  destruct (loopBody now s) as [[|] s']; cbn [snd] in H; [|assumption].
  rewrite IH. assumption.
Qed.

Lemma fire_cmdSide : forall cfg now cb s, cmdSide (fire cfg now cb s) = cmdSide s.
Proof.
  intros cfg now cb s. destruct cb as [| |w]; unfold fire.
  - assert (H : cmdSide (snd (startServer cfg now s)) = cmdSide s).
    { unfold startServer, listen. destruct (serverStarted s); [reflexivity|].
      destruct (validPort (tcpPort cfg)); cside_tac. }
    destruct (startServer cfg now s) as [[|] s1]; cbn [snd] in H.
    + rewrite runTask_cmdSide. exact H.
    + exact H.
  - rewrite runTask_cmdSide. reflexivity.
  - destruct (lookupTask w s) as [[]|]; try reflexivity.
    apply runTask_cmdSide.
Qed.

(** Only the "data" callback of the serial port touches the accumulator and
    queues tokens. *)
Lemma react_cmdSide : forall cfg now e s,
  match e with
  | SerialData _ => True
  | _ => cmdSide (react cfg now e s) = cmdSide s
  end.
Proof.
  intros cfg now e s. destruct e; cbn [react]; try exact I.
  - reflexivity.
  - unfold socketOnData, processTcpBuffer. rewrite whileLoop_cmdSide. reflexivity.
  - unfold socketOnClose. destruct (currentSocket _) as [c|]; [|reflexivity].
    cbn [currentSocket set_sockets]. destruct (Nat.eqb c sock); reflexivity.
  - unfold serialOnDrain. destruct (currentSocket s); [|reflexivity].
    destruct (pausedBySerialBackpressure s); [cside_tac|reflexivity].
  - reflexivity.
  - unfold findTimer. destruct (find _ (timers s)); [|reflexivity].
    rewrite fire_cmdSide. reflexivity.
  - destruct (lookupTask w s) as [[]|]; try reflexivity.
    apply runTask_cmdSide.
  - rewrite runTask_cmdSide. reflexivity.
  - reflexivity.
Qed.

Lemma triggers_cmdSide : forall now buf s,
  cmdSide (fold_left (fun s b => triggerByte now b s) buf s) = cmdSide s.
Proof.
  intros now buf. induction buf as [|b buf IH]; intros s; simpl; [reflexivity|].
  rewrite IH. unfold triggerByte.
  destruct (Byte.eqb b x62), (Byte.eqb b x73); reflexivity.
Qed.

(** What the "data" callback of the serial port does to the accumulator
    and to the tokens. *)
Lemma serialOnData_tokenize : forall cfg now buf s,
  cmdBuf (serialOnData cfg now buf s) = fst (tokenize (cmdBuf s) buf) /\
  tokensOf (trace (serialOnData cfg now buf s)) =
    tokensOf (trace s) ++ snd (tokenize (cmdBuf s) buf).
Proof.
  intros cfg now buf s. unfold serialOnData.
  pose proof (triggers_cmdSide now buf (feedCmdBytes cfg now buf s)) as H.
  unfold cmdSide in H. injection H as -> ->.
  apply feedCmdBytes_tokenize.
Qed.

(** ** The invariant of the aggregator *)

Lemma cmdInv_cmdSide : forall s s',
  cmdSide s' = cmdSide s -> cmdInv s -> cmdInv s'.
Proof.
  intros s s' H [Hb Ht]. unfold cmdInv.
  pose proof (f_equal fst H) as H1. pose proof (f_equal snd H) as H2.
  cbn [cmdSide fst snd] in H1, H2. rewrite H1, H2. split; assumption.
Qed.

Lemma handle_cmd : forall cfg now e s s',
  handle cfg now e s = Some s' -> cmdInv s -> cmdInv s'.
Proof.
  intros cfg now e s s' Hh Hi.
  apply handle_inv in Hh. destruct Hh as [_ ->].
  apply (cmdInv_cmdSide (react cfg now e (set_clock now s))); [apply pump_cmdSide|].
  pose proof (react_cmdSide cfg now e (set_clock now s)) as Hr.
  destruct e as [sock|sock chunk|sock|buf| |p|id|w r| | ];
    try (apply (cmdInv_cmdSide s); [exact Hr|exact Hi]).
  destruct Hi as [Hb Ht]. unfold cmdInv. cbn [react].
  destruct (serialOnData_tokenize cfg now buf (set_clock now s)) as [-> ->].
  cbn [cmdBuf trace set_clock]. split.
  - apply tokenize_bound. exact Hb.
  - apply Forall_app. split; [exact Ht|]. apply tokenize_good. exact Hb.
Qed.

Lemma reachable_cmd : forall cfg s, reachable cfg s -> cmdInv s.
Proof.
  intros cfg s H. induction H as [t0 port|s now e s' Hr IH Hh].
  - split; [simpl; lia|constructor].
  - eapply handle_cmd; eassumption.
Qed.

(** ** Bytes the aggregator skips, lines it keeps in one piece *)

Lemma feedByte_null : forall cfg now s, feedByte cfg now x00 s = s.
Proof. reflexivity. Qed.

Lemma triggerByte_null : forall now s, triggerByte now x00 s = s.
Proof. reflexivity. Qed.

Lemma fold_notNull : forall (f : State -> byte -> State) buf s,
  (forall s, f s x00 = s) ->
  fold_left f buf s = fold_left f (filter notNull buf) s.
Proof.
  intros f buf s Hf. revert s.
  induction buf as [|b buf IH]; intros s; [reflexivity|].
  cbn [fold_left filter]. unfold notNull at 1.
  destruct (Byte.eqb b x00) eqn:E; cbn [negb].
  - apply Byte.byte_dec_bl in E. subst b. rewrite Hf. apply IH.
  - cbn [fold_left]. apply IH.
Qed.

Lemma trimEnd_app_ws : forall c x,
  isWhiteSpace c = true -> trimEnd (x ++ String c "") = trimEnd x.
Proof.
  intros c x Hc. induction x as [|d x IH].
  - simpl. rewrite Hc. reflexivity.
  - change ((String d x ++ String c "")%string) with (String d (x ++ String c "")).
    cbn [trimEnd]. rewrite IH. reflexivity.
Qed.

Lemma trimStart_app_ws : forall c x,
  isWhiteSpace c = true ->
  trimStart (x ++ String c "") = (trimStart x ++ String c "")%string \/
  (trimStart x = "" /\ trimStart (x ++ String c "") = "").
Proof.
  intros c x Hc. induction x as [|d x IH].
  - right. simpl. rewrite Hc. split; reflexivity.
  - change ((String d x ++ String c "")%string) with (String d (x ++ String c "")).
    cbn [trimStart]. destruct (isWhiteSpace d); [exact IH|].
    left. reflexivity.
Qed.

Lemma trim_app_ws : forall c x,
  isWhiteSpace c = true -> trim (x ++ String c "") = trim x.
Proof.
  intros c x Hc. unfold trim.
  destruct (trimStart_app_ws c x Hc) as [->|[E ->]].
  - apply trimEnd_app_ws. exact Hc.
  - rewrite E. reflexivity.
Qed.

Lemma tokenStep_plain : forall buf c,
  plainChar c = true ->
  (String.length buf < 256)%nat ->
  (buf = "" -> has singleCharCmd (String c "") = false) ->
  tokenStep buf (byte_of_ascii c) = ((buf ++ String c "")%string, []).
Proof.
  intros buf c Hp Hl Hs. unfold tokenStep.
  rewrite ascii_of_byte_of_ascii.
  unfold plainChar in Hp. apply negb_true_iff in Hp.
  repeat (apply orb_false_iff in Hp; destruct Hp as [Hp ?]).
  destruct (Byte.eqb (byte_of_ascii c) x00) eqn:E0.
  { apply Byte.byte_dec_bl in E0.
    apply (f_equal ascii_of_byte) in E0. rewrite ascii_of_byte_of_ascii in E0.
    subst c. discriminate. }
  repeat match goal with
         | H : Ascii.eqb c _ = false |- _ => rewrite H; clear H
         end.
  cbn [orb].
  assert (E1 : ((String.length (buf ++ String c "") =? 1)%nat &&
                has singleCharCmd (buf ++ String c ""))%bool = false).
  { destruct buf as [|d buf].
    - simpl. apply Hs. reflexivity.
    - simpl. rewrite length_append. simpl.
      replace (String.length buf + 1)%nat with (S (String.length buf)) by lia.
      reflexivity. }
  rewrite E1.
  assert (E2 : (256 <? String.length (buf ++ String c ""))%nat = false).
  { apply Nat.ltb_ge. rewrite length_append. simpl. lia. }
  rewrite E2. reflexivity.
Qed.

Lemma append_assoc : forall x y z : string,
  ((x ++ y) ++ z = x ++ (y ++ z))%string.
Proof. induction x as [|c x IH]; intros y z; simpl; [reflexivity|]. rewrite IH. reflexivity. Qed.

Lemma tokenize_plain_more : forall l buf,
  buf <> "" ->
  allPlain l = true ->
  (String.length buf + String.length l <= 256)%nat ->
  tokenize buf (bytesOf l) = ((buf ++ l)%string, []).
Proof.
  induction l as [|c l IH]; intros buf Hn Hp Hl.
  - simpl. destruct buf; [contradiction|]. simpl.
    f_equal. f_equal. clear. induction buf; simpl; [reflexivity|]. congruence.
  - cbn [allPlain] in Hp. apply andb_prop in Hp. destruct Hp as [Hc Hp].
    simpl in Hl.
    change (bytesOf (String c l)) with (byte_of_ascii c :: bytesOf l).
    cbn [tokenize].
    rewrite tokenStep_plain; [|exact Hc|lia|intros E; contradiction].
    cbn [fst snd].
    rewrite IH; [|destruct buf; discriminate|exact Hp|rewrite length_append; simpl; lia].
    cbn [fst snd app]. rewrite append_assoc. reflexivity.
Qed.

Lemma tokenize_plain : forall l,
  plainLine l = true -> tokenize "" (bytesOf l) = (l, []).
Proof.
  intros l H. unfold plainLine in H.
  apply andb_prop in H. destruct H as [H Hs].
  apply andb_prop in H. destruct H as [Hp Hl].
  apply Nat.leb_le in Hl.
  destruct l as [|c l]; [reflexivity|].
  cbn [allPlain] in Hp. apply andb_prop in Hp. destruct Hp as [Hc Hp].
  simpl in Hl.
  change (bytesOf (String c l)) with (byte_of_ascii c :: bytesOf l).
  cbn [tokenize].
  rewrite tokenStep_plain;
    [|exact Hc|simpl; lia|intros _; apply negb_true_iff; exact Hs].
  cbn [fst snd].
  rewrite tokenize_plain_more; [reflexivity|discriminate|exact Hp|simpl; lia].
Qed.

Lemma bytesOf_app : forall x y, bytesOf (x ++ y) = bytesOf x ++ bytesOf y.
Proof.
  induction x as [|c x IH]; intros y; [reflexivity|].
  change (bytesOf (String c x ++ y)) with (byte_of_ascii c :: bytesOf (x ++ y)).
  rewrite IH. reflexivity.
Qed.

(** ** The trigger bytes *)

Lemma feedByte_timers : forall cfg now b s,
  timers (feedByte cfg now b s) = timers s /\
  nextTimer (feedByte cfg now b s) = nextTimer s.
Proof.
  intros cfg now b s. unfold feedByte.
  repeat match goal with
         | |- context [if ?c then _ else _] => destruct c
         end; split; reflexivity.
Qed.

Lemma feedCmdBytes_timers : forall cfg now buf s,
  timers (feedCmdBytes cfg now buf s) = timers s /\
  nextTimer (feedCmdBytes cfg now buf s) = nextTimer s.
Proof.
  intros cfg now buf s. unfold feedCmdBytes.
  change (timers s) with (timers (upd_stats (set_lastBioAt now) s)).
  change (nextTimer s) with (nextTimer (upd_stats (set_lastBioAt now) s)).
  generalize (upd_stats (set_lastBioAt now) s). clear s.
  induction buf as [|b buf IH]; intros s; [split; reflexivity|].
  cbn [fold_left]. destruct (IH (feedByte cfg now b s)) as [-> ->].
  apply feedByte_timers.
Qed.

Lemma stamp_app : forall a b id due,
  stamp id due (a ++ b) = stamp id due a ++ stamp (id + List.length a) due b.
Proof.
  induction a as [|x a IH]; intros b id due; simpl.
  - rewrite Nat.add_0_r. reflexivity.
  - rewrite IH. do 3 f_equal. lia.
Qed.

Lemma triggers_timers : forall now buf s,
  timers (fold_left (fun s b => triggerByte now b s) buf s) =
    timers s ++ stamp (nextTimer s) (now + 1000) (triggersOf buf) /\
  nextTimer (fold_left (fun s b => triggerByte now b s) buf s) =
    (nextTimer s + List.length (triggersOf buf))%nat.
Proof.
  intros now buf. induction buf as [|b buf IH]; intros s.
  - simpl. rewrite app_nil_r. split; [reflexivity|lia].
  - cbn [fold_left]. destruct (IH (triggerByte now b s)) as [-> ->].
    change (triggersOf (b :: buf)) with
      ((if Byte.eqb b x62 then [CbBegin]
        else if Byte.eqb b x73 then [CbStop] else []) ++ triggersOf buf).
    unfold triggerByte.
    destruct (Byte.eqb b x62) eqn:Eb.
    + apply Byte.byte_dec_bl in Eb. subst b. simpl.
      rewrite <- app_assoc. split; [reflexivity|lia].
    + destruct (Byte.eqb b x73); simpl.
      * rewrite <- app_assoc. split; [reflexivity|lia].
      * split; [reflexivity|lia].
Qed.

Lemma trimEnd_app_char : forall c x,
  isWhiteSpace c = false -> trimEnd (x ++ String c "") = (x ++ String c "")%string.
Proof.
  intros c x Hc. induction x as [|d x IH].
  - simpl. rewrite Hc. reflexivity.
  - change ((String d x ++ String c "")%string) with (String d (x ++ String c "")).
    cbn [trimEnd]. rewrite IH. destruct x; reflexivity.
Qed.

Lemma trimStart_app_char : forall c x,
  isWhiteSpace c = false ->
  trimStart (x ++ String c "") = (trimStart x ++ String c "")%string.
Proof.
  intros c x Hc. induction x as [|d x IH].
  - simpl. rewrite Hc. reflexivity.
  - change ((String d x ++ String c "")%string) with (String d (x ++ String c "")).
    cbn [trimStart]. destruct (isWhiteSpace d); [exact IH|reflexivity].
Qed.

Lemma trim_app_char : forall c x,
  isWhiteSpace c = false ->
  trim (x ++ String c "") = (trimStart x ++ String c "")%string.
Proof.
  intros c x Hc. unfold trim.
  rewrite trimStart_app_char by exact Hc. apply trimEnd_app_char. exact Hc.
Qed.

Lemma commandsRun_reaches :
  exists s,
    run cfg0 commandsRun (initial 0 port0) = Some s /\
    tokensOf (trace s) = ["x1060110X"] /\
    dispatchedOf (trace s) = ["x1060110X"] /\
    cmdBuf s = "/0".
Proof.
  eexists. split; [vm_compute; reflexivity|].
  split; [vm_compute; reflexivity|].
  split; [vm_compute; reflexivity|].
  vm_compute; reflexivity.
Qed.

(** ** Properties of the command aggregator *)

(** X9.  In every reachable state, every command that has been queued, and
    so every command that the queue has sent, is not empty, has no white
    space at either end and has at most 257 characters. *)
Theorem queued_commands_are_well_formed : forall cfg s,
  reachable cfg s ->
  Forall goodToken (tokensOf (trace s)) /\
  Forall goodToken (dispatchedOf (trace s)).
Proof.
  intros cfg s H.
  destruct (reachable_cmd cfg s H) as [_ Ht].
  split; [exact Ht|].
  destruct (reachable_queue cfg s H) as (waiting & _ & E & _).
  rewrite E in Ht. apply Forall_app in Ht. apply Ht.
Qed.

Lemma queued_commands_are_well_formed_witness :
  exists s,
    run cfg0 commandsRun (initial 0 port0) = Some s /\
    reachable cfg0 s /\
    tokensOf (trace s) = ["x1060110X"] /\
    Forall goodToken (tokensOf (trace s)) /\
    Forall goodToken (dispatchedOf (trace s)).
Proof.
  destruct commandsRun_reaches as (s & Hrun & Ht & _). exists s.
  assert (Hreach : reachable cfg0 s)
    by (eapply run_reachable; [apply reachable_initial|exact Hrun]).
  split; [exact Hrun|]. split; [exact Hreach|]. split; [exact Ht|].
  apply (queued_commands_are_well_formed cfg0 s Hreach).
Defined.

(** X10.  In every reachable state the accumulator [cmdBuf] holds at most
    256 characters. *)
Theorem accumulator_stays_bounded : forall cfg s,
  reachable cfg s -> (String.length (cmdBuf s) <= 256)%nat.
Proof. intros cfg s H. apply (reachable_cmd cfg s H). Qed.

Lemma accumulator_stays_bounded_witness :
  exists s,
    run cfg0 commandsRun (initial 0 port0) = Some s /\
    reachable cfg0 s /\
    cmdBuf s = "/0" /\
    (String.length (cmdBuf s) <= 256)%nat.
Proof.
  destruct commandsRun_reaches as (s & Hrun & _ & _ & Hb). exists s.
  assert (Hreach : reachable cfg0 s)
    by (eapply run_reachable; [apply reachable_initial|exact Hrun]).
  split; [exact Hrun|]. split; [exact Hreach|]. split; [exact Hb|].
  apply (accumulator_stays_bounded cfg0 s Hreach).
Defined.

(** X11.  NUL bytes count for nothing: the "data" callback of the serial
    port leaves the program in the same state whether or not the NUL bytes
    of the chunk are taken out first. *)
Theorem null_bytes_are_skipped : forall cfg now buf s,
  serialOnData cfg now buf s = serialOnData cfg now (filter notNull buf) s.
Proof.
  intros cfg now buf s. unfold serialOnData, feedCmdBytes.
  rewrite (fold_notNull (fun s b => triggerByte now b s) buf)
    by (intros; apply triggerByte_null).
  rewrite (fold_notNull (fun s b => feedByte cfg now b s) buf)
    by (intros; apply feedByte_null).
  reflexivity.
Qed.

(** X12.  The aggregator does not depend on how the serial port cuts its
    input into chunks: a "data" callback on [c1 ++ c2] queues the same
    tokens and leaves the same accumulator as a callback on [c1] followed by
    one on [c2], whatever the times of the callbacks. *)
Theorem command_chunk_independence : forall cfg s c1 c2 t t1 t2,
  cmdBuf (serialOnData cfg t (c1 ++ c2) s) =
    cmdBuf (serialOnData cfg t2 c2 (serialOnData cfg t1 c1 s)) /\
  tokensOf (trace (serialOnData cfg t (c1 ++ c2) s)) =
    tokensOf (trace (serialOnData cfg t2 c2 (serialOnData cfg t1 c1 s))).
Proof.
  intros cfg s c1 c2 t t1 t2.
  destruct (serialOnData_tokenize cfg t (c1 ++ c2) s) as [-> ->].
  destruct (serialOnData_tokenize cfg t2 c2 (serialOnData cfg t1 c1 s)) as [-> ->].
  destruct (serialOnData_tokenize cfg t1 c1 s) as [-> ->].
  rewrite tokenize_app. cbn [fst snd]. rewrite app_assoc. split; reflexivity.
Qed.

(** X13.  The trigger bytes are read from the raw chunk, whatever the
    aggregator makes of it: the "data" callback sets one timer for each
    'b' (for the begin sequence) and each 's' (for the stop) of the chunk,
    in the order of the bytes, all due 1000 ms after the callback, and
    touches no other timer. *)
Theorem trigger_bytes_set_timers : forall cfg now buf s,
  timers (serialOnData cfg now buf s) =
    timers s ++ stamp (nextTimer s) (now + 1000) (triggersOf buf) /\
  nextTimer (serialOnData cfg now buf s) =
    (nextTimer s + List.length (triggersOf buf))%nat.
Proof.
  intros cfg now buf s. unfold serialOnData.
  destruct (triggers_timers now buf (feedCmdBytes cfg now buf s)) as [-> ->].
  destruct (feedCmdBytes_timers cfg now buf s) as [-> ->].
  split; reflexivity.
Qed.

(** X14.  A line of plain characters (no NUL, end of line, 'X' or 'Z'),
    of at most 256 characters and not starting with a single-character
    command, is taken in one piece.  From an empty accumulator, the line
    followed by LF or CR queues the trimmed line, or nothing when that is
    empty; followed by 'X' or 'Z' it queues the line with that character,
    less the white space in front.  The accumulator is empty again. *)
Theorem plain_line_is_one_command : forall cfg now s line,
  plainLine line = true ->
  cmdBuf s = "" ->
  (forall eol, eol = x0a \/ eol = x0d ->
     cmdBuf (feedCmdBytes cfg now (bytesOf line ++ [eol]) s) = "" /\
     tokensOf (trace (feedCmdBytes cfg now (bytesOf line ++ [eol]) s)) =
       tokensOf (trace s) ++ (if truthy (trim line) then [trim line] else [])) /\
  (forall c, c = "X"%char \/ c = "Z"%char ->
     cmdBuf (feedCmdBytes cfg now (bytesOf (line ++ String c "")) s) = "" /\
     tokensOf (trace (feedCmdBytes cfg now (bytesOf (line ++ String c "")) s)) =
       tokensOf (trace s) ++ [(trimStart line ++ String c "")%string]).
Proof.
  intros cfg now s line Hp Hb. split.
  - intros eol He.
    destruct (feedCmdBytes_tokenize cfg now (bytesOf line ++ [eol]) s) as [-> ->].
    rewrite Hb, tokenize_app, (tokenize_plain line Hp). cbn [fst snd app tokenize].
    assert (E : tokenStep line eol =
                ("", if truthy (trim line) then [trim line] else [])).
    { destruct He as [-> | ->]; unfold tokenStep;
        match goal with
        | |- context [Byte.eqb ?a ?b] => change (Byte.eqb a b) with false
        end;
        match goal with
        | |- context [ascii_of_byte ?a] =>
            let v := eval vm_compute in (ascii_of_byte a) in
            change (ascii_of_byte a) with v
        end;
        cbv zeta;
        repeat match goal with
               | |- context [Ascii.eqb ?a ?b] =>
                   let v := eval vm_compute in (Ascii.eqb a b) in
                   change (Ascii.eqb a b) with v
               end;
        cbv beta iota; cbn [orb]; cbv beta iota;
        rewrite trim_app_ws by reflexivity; reflexivity. }
    rewrite E. cbn [fst snd]. rewrite app_nil_r. split; reflexivity.
  - intros c Hc.
    destruct (feedCmdBytes_tokenize cfg now (bytesOf (line ++ String c "")) s)
      as [-> ->].
    rewrite Hb, bytesOf_app, tokenize_app, (tokenize_plain line Hp).
    cbn [fst snd app].
    assert (E : tokenStep line (byte_of_ascii c) =
                ("", [(trimStart line ++ String c "")%string])).
    { assert (Hs : ((String.length (line ++ String c "") =? 1)%nat &&
                    has singleCharCmd (line ++ String c ""))%bool = false).
      { destruct line as [|d line].
        - destruct Hc as [-> | ->]; reflexivity.
        - simpl. rewrite length_append. simpl.
          replace (String.length line + 1)%nat with (S (String.length line)) by lia.
          reflexivity. }
      destruct Hc as [-> | ->]; unfold tokenStep;
        rewrite ascii_of_byte_of_ascii;
        match goal with
        | |- context [Byte.eqb ?a ?b] => change (Byte.eqb a b) with false
        end;
        cbv zeta; rewrite Hs;
        repeat match goal with
               | |- context [Ascii.eqb ?a ?b] =>
                   let v := eval vm_compute in (Ascii.eqb a b) in
                   change (Ascii.eqb a b) with v
               end;
        cbv beta iota; cbn [orb]; cbv beta iota;
        rewrite trim_app_char by reflexivity;
        destruct (trimStart line); reflexivity. }
    change (bytesOf (String c "")) with [byte_of_ascii c].
    cbn [tokenize]. rewrite E. cbn [fst snd]. rewrite app_nil_r.
    split; reflexivity.
Qed.

(** The channel command " x1060110", ended by CR and by 'X'. *)
Lemma plain_line_is_one_command_witness :
  let s := initial 0 port0 in
  tokensOf (trace (feedCmdBytes cfg0 5 (bytesOf " x1060110" ++ [x0d]) s)) =
    ["x1060110"] /\
  tokensOf (trace (feedCmdBytes cfg0 5 (bytesOf " x1060110X") s)) =
    ["x1060110X"].
Proof.
  intros s.
  destruct (plain_line_is_one_command cfg0 5 s " x1060110" eq_refl eq_refl)
    as [H1 H2].
  split.
  - exact (proj2 (H1 x0d (or_intror eq_refl))).
  - exact (proj2 (H2 "X"%char (or_introl eq_refl))).
Defined.

(** ** The depth of the command queue *)

Lemma stage_link : forall cfg b p cmds cmd,
  Stage cfg b p cmds -> Stage cfg b (link cfg p cmd) (cmds ++ [cmd]).
Proof.
  intros cfg b p cmds cmd H.
  induction H as [|c k cmds H IH|c k cmds H IH|k cmds H IH]; simpl.
  - apply Stage_json. intros [r|e]; simpl.
    + destruct (resp_ok r); simpl.
      * apply Stage_dec, Stage_done.
      * apply Stage_text. intros [r'|e']; simpl; apply Stage_dec, Stage_done.
    + apply Stage_dec, Stage_done.
  - apply Stage_json. exact IH.
  - apply Stage_text. exact IH.
  - apply Stage_dec. exact IH.
Qed.

Lemma quiet_bind : forall (A B : Type) (m : Async A) (f : A -> Async B),
  Quiet m -> (forall a, Quiet (f a)) -> Quiet (bind m f).
Proof.
  intros A B m f Hm Hf. induction Hm; simpl; try constructor; auto.
Qed.

Lemma quiet_pcatch : forall (A : Type) (m : Async A) h,
  Quiet m -> (forall e, Quiet (h e)) -> Quiet (pcatch m h).
Proof.
  intros A m h Hm Hh. induction Hm; simpl; try constructor; auto.
Qed.

Lemma quiet_detached : forall (A : Type) (m : Async A),
  Quiet m -> Quiet (detached m).
Proof.
  intros A m Hm. induction Hm; simpl; try constructor; auto.
Qed.

Lemma quiet_fetch : forall r, Quiet (fetch r).
Proof. intros r. constructor. intros [resp|e]; constructor. Qed.

Lemma quiet_httpJson : forall u body, Quiet (httpJson u body).
Proof.
  intros. unfold httpJson. apply quiet_bind; [apply quiet_fetch|constructor].
Qed.

Lemma quiet_httpGet : forall u, Quiet (httpGet u).
Proof.
  intros. unfold httpGet. apply quiet_bind; [apply quiet_fetch|constructor].
Qed.

Lemma quiet_sendShieldCommand : forall cfg cmd, Quiet (sendShieldCommand cfg cmd).
Proof.
  intros. unfold sendShieldCommand. apply quiet_bind; [apply quiet_httpJson|].
  intros r. destruct (ok r); [constructor|].
  apply quiet_bind; [apply quiet_fetch|constructor].
Qed.

Lemma quiet_stopStream : forall cfg, Quiet (stopStream cfg).
Proof.
  intros. unfold stopStream. constructor; [discriminate|].
  apply quiet_bind; [apply quiet_httpGet|constructor].
Qed.

Lemma quiet_forOf : forall (A : Type) (l : list A) body,
  (forall x, Quiet (body x)) -> Quiet (forOf l body).
Proof.
  intros A l body H. induction l as [|x l IH]; simpl; [constructor|].
  apply quiet_bind; auto.
Qed.

Lemma quiet_startStream : forall cfg, Quiet (startStream cfg).
Proof.
  intros. unfold startStream. constructor; [discriminate|].
  apply quiet_bind; [apply quiet_stopStream|]. intros _.
  apply quiet_bind.
  { destruct (truthy (initCmd cfg)); [|constructor].
    apply quiet_bind; [apply quiet_sendShieldCommand|constructor]. }
  intros _. apply quiet_bind.
  { destruct (channelCmds cfg); [constructor|].
    apply quiet_forOf. intros c.
    apply quiet_bind; [apply quiet_sendShieldCommand|constructor]. }
  intros _. constructor. apply quiet_detached.
  apply quiet_bind; [apply quiet_httpGet|constructor].
Qed.

Lemma quiet_onListening : forall cfg, Quiet (onListening cfg).
Proof.
  intros. unfold onListening, configureShieldTcp. apply quiet_detached.
  apply quiet_bind; [|constructor].
  apply quiet_bind; [apply quiet_httpJson|].
  intros r. destruct (negb (ok r)); [|constructor].
  apply quiet_bind; [apply quiet_httpJson|constructor].
Qed.

Ltac dview_tac :=
  unfold depthView; simpl; rewrite ?tokensOf_app, ?dispatchedOf_app; simpl;
  rewrite ?app_nil_r; reflexivity.

Lemma depthInv_view : forall cfg s s',
  depthView s' = depthView s -> depthInv cfg s -> depthInv cfg s'.
Proof.
  intros cfg s s' H [Hq Ht].
  pose proof (f_equal (fun v => fst (fst (fst (fst v)))) H) as H1.
  pose proof (f_equal (fun v => snd (fst (fst (fst v)))) H) as H2.
  pose proof (f_equal (fun v => snd (fst (fst v))) H) as H3.
  pose proof (f_equal (fun v => snd (fst v)) H) as H4.
  pose proof (f_equal snd H) as H5.
  cbn [depthView fst snd] in H1, H2, H3, H4, H5.
  unfold depthInv, queueOk. rewrite H1, H2, H3, H4, H5. split; assumption.
Qed.

Lemma writeToSerial_depthView : forall now data s,
  depthView (writeToSerial now data s) = depthView s.
Proof.
  intros now data s. unfold writeToSerial.
  destruct (writable (serial s)); simpl; [|reflexivity].
  destruct (currentSocket s); simpl; [|dview_tac].
  destruct (hd true (writeResults (serial s))),
           (pausedBySerialBackpressure s); dview_tac.
Qed.

Lemma loopBody_depthView : forall now s,
  depthView (snd (loopBody now s)) = depthView s.
Proof.
  intros now s. unfold loopBody.
  repeat match goal with
         | |- context [if ?c then _ else _] => destruct c
         end; try reflexivity.
  cbn [snd].
  match goal with
  | |- context [writeToSerial ?n ?d ?x] =>
      pose proof (writeToSerial_depthView n d x) as H;
      set (s2 := writeToSerial n d x) in *
  end.
  unfold depthView in *. simpl in *. rewrite H.
  rewrite tokensOf_app, dispatchedOf_app. simpl. rewrite !app_nil_r. reflexivity.
Qed.

Lemma whileLoop_depthView : forall fuel now s,
  depthView (whileLoop fuel now s) = depthView s.
Proof.
  induction fuel as [|fuel IH]; intros now s; [reflexivity|].
  rewrite whileLoop_S.
  destruct (33 <=? List.length (tcpBuffer s))%nat; [|reflexivity].
  pose proof (loopBody_depthView now s) as H.
  destruct (loopBody now s) as [[|] s']; cbn [snd] in H; [|assumption].
  rewrite IH. assumption.
Qed.

Lemma triggers_depthView : forall now buf s,
  depthView (fold_left (fun s b => triggerByte now b s) buf s) = depthView s.
Proof.
  intros now buf. induction buf as [|b buf IH]; intros s; simpl; [reflexivity|].
  rewrite IH. unfold triggerByte.
  destruct (Byte.eqb b x62), (Byte.eqb b x73); reflexivity.
Qed.

Lemma startServer_depthView : forall cfg now s,
  depthView (snd (startServer cfg now s)) = depthView s.
Proof.
  intros cfg now s. unfold startServer, listen.
  destruct (serverStarted s); [reflexivity|].
  destruct (validPort (tcpPort cfg)); dview_tac.
Qed.

(** A promise other than the queue, running code that does not assign to
    the depth, leaves the books alone. *)
Lemma advance_quiet : forall p,
  Quiet p ->
  forall now w s,
  w <> Queue ->
  depthView (snd (advance now w p s)) = depthView s /\
  TaskQuiet (fst (advance now w p s)).
Proof.
  intros p H.
  induction H as [a|e|e|r k H IH|ms body H IH|a k Ha H IH]; intros now w s Hw;
    simpl.
  - split; [reflexivity|constructor].
  - split; [reflexivity|constructor].
  - split; [reflexivity|constructor].
  - split; [|exact H]. destruct w; [contradiction| | |]; dview_tac.
  - split; [reflexivity|exact H].
  - destruct (IH now w (perform a now s) Hw) as [E Q].
    split; [|exact Q]. rewrite E. destruct a; [reflexivity|reflexivity|contradiction].
Qed.

Lemma dropTask_quiet : forall w l,
  Forall (fun e => TaskQuiet (snd e)) l ->
  Forall (fun e => TaskQuiet (snd e)) (dropTask w l).
Proof.
  intros w l H. unfold dropTask. induction H as [|x l Hx H IH]; simpl.
  - constructor.
  - destruct (negb (who_eqb w (fst x))); [constructor|]; assumption.
Qed.

Lemma runTask_quiet : forall cfg now w p s,
  w <> Queue -> Quiet p -> depthInv cfg s -> depthInv cfg (runTask now w p s).
Proof.
  intros cfg now w p s Hw Hp Hi. unfold runTask.
  destruct (advance_quiet p Hp now w s Hw) as [E Q].
  set (t := fst (advance now w p s)) in *.
  set (s1 := snd (advance now w p s)) in *.
  assert (H1 : depthInv cfg s1) by (apply (depthInv_view cfg s); assumption).
  destruct H1 as [Hq Ht].
  assert (Hd : Forall (fun e => TaskQuiet (snd e)) (dropTask w (tasks s1)))
    by (apply dropTask_quiet; exact Ht).
  destruct w; [contradiction| | |]; destruct t; cbn [storeTask];
    (split; [exact Hq|]); cbn [tasks set_tasks];
    first [exact Hd | constructor; [exact Q|exact Hd]].
Qed.

Lemma assoc_quiet : forall w l t,
  Forall (fun e => TaskQuiet (snd e)) l -> assoc w l = Some t -> TaskQuiet t.
Proof.
  intros w l t H. induction H as [|[w' t'] l Hx H IH]; simpl; [discriminate|].
  destruct (who_eqb w w'); [|exact IH].
  intros E. injection E as <-. exact Hx.
Qed.

Lemma lookup_quiet : forall cfg w s t,
  depthInv cfg s -> w <> Queue -> lookupTask w s = Some t -> TaskQuiet t.
Proof.
  intros cfg w s t [_ Ht] Hw Hl.
  destruct w; [contradiction| | |]; exact (assoc_quiet _ _ _ Ht Hl).
Qed.

(** Queueing a command: one more is waiting and the depth is one more. *)
Lemma queueCmd_depth : forall cfg now cmd s,
  depthInv cfg s -> depthInv cfg (queueCmd cfg now cmd s).
Proof.
  intros cfg now cmd s [Hq Ht]. split; [|exact Ht].
  unfold queueCmd. cbn [cmdQ set_cmdQ emit set_trace set_cmdQueueDepth].
  unfold queueOk in *.
  destruct (cmdQ s) as [p|k|body]; cbn [mapTask];
    cbn [trace cmdQueueDepth set_cmdQ emit set_trace set_cmdQueueDepth];
    [| |exact Hq];
    destruct Hq as (waiting & Hs & Hk & Hd);
    exists (waiting ++ [cmd]);
    rewrite tokensOf_app, dispatchedOf_app, length_app, Hk, Hd;
    cbn [tokensOf dispatchedOf flat_map snd app List.length];
    rewrite ?app_nil_r, <- ?app_assoc;
    (split; [|split; [reflexivity|lia]]).
  - apply stage_link. exact Hs.
  - intros x. apply stage_link. apply Hs.
Qed.

Lemma feedByte_depth : forall cfg now b s,
  depthInv cfg s -> depthInv cfg (feedByte cfg now b s).
Proof.
  intros cfg now b s H. unfold feedByte.
  repeat match goal with
         | |- context [if ?c then _ else _] => destruct c
         end;
    first [ exact H
          | apply queueCmd_depth; apply (depthInv_view cfg s); [reflexivity|exact H]
          | apply (depthInv_view cfg s); [reflexivity|exact H] ].
Qed.

Lemma serialOnData_depth : forall cfg now buf s,
  depthInv cfg s -> depthInv cfg (serialOnData cfg now buf s).
Proof.
  intros cfg now buf s H. unfold serialOnData.
  eapply depthInv_view; [apply triggers_depthView|].
  unfold feedCmdBytes.
  assert (H0 : depthInv cfg (upd_stats (set_lastBioAt now) s))
    by (apply (depthInv_view cfg s); [reflexivity|exact H]).
  revert H0. generalize (upd_stats (set_lastBioAt now) s). clear s H.
  induction buf as [|b buf IH]; intros s H; simpl; [exact H|].
  apply IH. apply feedByte_depth. exact H.
Qed.

(** Running the queue up to its next [await]: a decrement comes with the
    end of a link, a dispatch takes a command from those waiting. *)
Lemma advance_stage : forall cfg b p waiting,
  Stage cfg b p waiting ->
  forall now s,
  tokensOf (trace s) = dispatchedOf (trace s) ++ waiting ->
  cmdQueueDepth s = Z.of_nat (List.length waiting) + (if b then 1 else 0) ->
  queueOk cfg (fst (advance now Queue p s)) (snd (advance now Queue p s)) /\
  tasks (snd (advance now Queue p s)) = tasks s.
Proof.
  intros cfg b p waiting H.
  induction H as [|c k cmds H IH|c k cmds H IH|k cmds H IH]; intros now s Ht Hd.
  - simpl. split; [|reflexivity]. exists []. split; [constructor|].
    split; [exact Ht|]. rewrite Hd. simpl. lia.
  - assert (Hl : cmdQueueDepth s = 1 + Z.of_nat (List.length cmds))
      by (rewrite Hd; cbn [List.length]; lia).
    simpl. split; [|reflexivity]. exists cmds. split; [exact H|].
    rewrite tokensOf_app, dispatchedOf_app. simpl. rewrite app_nil_r, Ht.
    rewrite <- app_assoc. split; [reflexivity|exact Hl].
  - assert (Hl : cmdQueueDepth s = 1 + Z.of_nat (List.length cmds))
      by (rewrite Hd; lia).
    simpl. split; [|reflexivity]. exists cmds. split; [exact H|].
    rewrite tokensOf_app, dispatchedOf_app. simpl. rewrite !app_nil_r.
    split; [exact Ht|exact Hl].
  - cbn [advance].
    destruct (IH now (perform DecQueueDepth now s)) as [Hq Hk].
    + exact Ht.
    + cbn [perform cmdQueueDepth set_cmdQueueDepth]. rewrite Hd. lia.
    + split; [exact Hq|]. rewrite Hk. reflexivity.
Qed.

Lemma runQueue_depth : forall cfg b p waiting now s,
  Stage cfg b p waiting ->
  tokensOf (trace s) = dispatchedOf (trace s) ++ waiting ->
  cmdQueueDepth s = Z.of_nat (List.length waiting) + (if b then 1 else 0) ->
  Forall (fun e => TaskQuiet (snd e)) (tasks s) ->
  depthInv cfg (runTask now Queue p s).
Proof.
  intros cfg b p waiting now s H Ht Hd Hq.
  destruct (advance_stage cfg b p waiting H now s Ht Hd) as [Ho Hk].
  unfold runTask. cbn [storeTask]. split.
  - cbn [cmdQ set_cmdQ].
    destruct (fst (advance now Queue p s)); exact Ho.
  - cbn [tasks set_cmdQ]. rewrite Hk. exact Hq.
Qed.

Lemma pump_depth : forall cfg now s, depthInv cfg s -> depthInv cfg (pump now s).
Proof.
  intros cfg now s [Hq Ht]. unfold pump.
  destruct (cmdQ s) as [p|k|body] eqn:E.
  - destruct Hq as (waiting & Hs & Hk & Hd).
    apply (runQueue_depth cfg false p waiting); auto. rewrite Hd. lia.
  - split; [rewrite E; exact Hq|exact Ht].
  - contradiction.
Qed.

Lemma fire_depth : forall cfg now cb s,
  depthInv cfg s -> depthInv cfg (fire cfg now cb s).
Proof.
  intros cfg now cb s H. destruct cb as [| |w]; unfold fire.
  - pose proof (startServer_depthView cfg now s) as Hv.
    destruct (startServer cfg now s) as [[|] s1]; cbn [snd] in Hv.
    + apply runTask_quiet; [discriminate| |].
      * apply quiet_pcatch; [|constructor].
        apply quiet_bind; [apply quiet_startStream|constructor].
      * apply (depthInv_view cfg s); [exact Hv|exact H].
    + apply (depthInv_view cfg s); [exact Hv|exact H].
  - apply runTask_quiet; [discriminate| |].
    + apply quiet_pcatch; [|constructor].
      apply quiet_bind; [apply quiet_stopStream|constructor].
    + apply (depthInv_view cfg s); [reflexivity|exact H].
  - destruct (lookupTask w s) as [[p|k|body]|] eqn:Hl; try exact H.
    destruct w as [|n|n|].
    + cbn [lookupTask] in Hl. destruct H as [Hq _].
      injection Hl as Hl. rewrite Hl in Hq. contradiction.
    + apply runTask_quiet; [discriminate| |exact H].
      apply (lookup_quiet cfg (Begin n) s (OnTimer body) H); [discriminate|exact Hl].
    + apply runTask_quiet; [discriminate| |exact H].
      apply (lookup_quiet cfg (Stop n) s (OnTimer body) H); [discriminate|exact Hl].
    + apply runTask_quiet; [discriminate| |exact H].
      apply (lookup_quiet cfg Configure s (OnTimer body) H); [discriminate|exact Hl].
Qed.

Lemma react_depth : forall cfg now e s,
  depthInv cfg s -> depthInv cfg (react cfg now e s).
Proof.
  intros cfg now e s H.
  destruct e as [sock|sock chunk|sock|buf| |p|id|w r| | ]; cbn [react].
  - apply (depthInv_view cfg s); [reflexivity|exact H].
  - apply (depthInv_view cfg s); [|exact H].
    unfold socketOnData, processTcpBuffer. rewrite whileLoop_depthView. reflexivity.
  - apply (depthInv_view cfg s); [|exact H].
    unfold socketOnClose. cbn [currentSocket set_sockets].
    destruct (currentSocket s) as [c|]; [|reflexivity].
    destruct (Nat.eqb c sock); reflexivity.
  - apply serialOnData_depth. exact H.
  - apply (depthInv_view cfg s); [|exact H].
    unfold serialOnDrain. destruct (currentSocket s); [|reflexivity].
    destruct (pausedBySerialBackpressure s); [dview_tac|reflexivity].
  - apply (depthInv_view cfg s); [reflexivity|exact H].
  - unfold findTimer. destruct (find _ (timers s)); [|exact H].
    apply fire_depth. apply (depthInv_view cfg s); [reflexivity|exact H].
  - destruct (lookupTask w s) as [[q|k|body]|] eqn:Hl; try exact H.
    destruct w as [|n|n|].
    + cbn [lookupTask] in Hl. injection Hl as Hl.
      pose proof H as [Hq Ht]. rewrite Hl in Hq.
      destruct Hq as (waiting & Hs & Hk & Hd).
      apply (runQueue_depth cfg true (k r) waiting); auto. rewrite Hd. lia.
    + apply runTask_quiet; [discriminate| |exact H].
      apply (lookup_quiet cfg (Begin n) s (OnFetch k) H); [discriminate|exact Hl].
    + apply runTask_quiet; [discriminate| |exact H].
      apply (lookup_quiet cfg (Stop n) s (OnFetch k) H); [discriminate|exact Hl].
    + apply runTask_quiet; [discriminate| |exact H].
      apply (lookup_quiet cfg Configure s (OnFetch k) H); [discriminate|exact Hl].
  - apply runTask_quiet; [discriminate|apply quiet_onListening|].
    apply (depthInv_view cfg s); [reflexivity|exact H].
  - apply (depthInv_view cfg s); [reflexivity|exact H].
Qed.

Lemma handle_depth : forall cfg now e s s',
  handle cfg now e s = Some s' -> depthInv cfg s -> depthInv cfg s'.
Proof.
  intros cfg now e s s' Hh Hi.
  apply handle_inv in Hh. destruct Hh as [_ ->].
  apply pump_depth, react_depth.
  apply (depthInv_view cfg s); [reflexivity|exact Hi].
Qed.

Lemma reachable_depth : forall cfg s, reachable cfg s -> depthInv cfg s.
Proof.
  intros cfg s H. induction H as [t0 port|s now e s' Hr IH Hh].
  - split; [|constructor]. exists []. split; [constructor|]. split; reflexivity.
  - eapply handle_depth; eassumption.
Qed.

Lemma commandsRun_depth :
  exists s,
    run cfg0 commandsRun (initial 0 port0) = Some s /\
    cmdQueueDepth s = 1 /\
    awaiting (cmdQ s) = true.
Proof.
  eexists. split; [vm_compute; reflexivity|].
  split; vm_compute; reflexivity.
Qed.

(** X15.  In every reachable state [cmdQueueDepth] (the "Q=" of the stats
    line) is the number of commands queued and not yet finished: those
    still waiting for their dispatch, and one more while the queue awaits
    the answer to a request.  It is 0 exactly when the queue is idle, so
    the clamp at 0 never comes into play. *)
Theorem queue_depth_counts_unfinished : forall cfg s,
  reachable cfg s ->
  cmdQueueDepth s =
    Z.of_nat (List.length (tokensOf (trace s)))
    - Z.of_nat (List.length (dispatchedOf (trace s)))
    + (if awaiting (cmdQ s) then 1 else 0) /\
  (if awaiting (cmdQ s) then 1 <= cmdQueueDepth s
   else cmdQueueDepth s = 0 /\ tokensOf (trace s) = dispatchedOf (trace s)).
Proof.
  intros cfg s H.
  destruct (reachable_depth cfg s H) as [Hq _].
  destruct (reachable_queue cfg s H) as (waiting & _ & Ht & Hs).
  unfold queueOk in Hq.
  destruct (cmdQ s) as [p|k|body] eqn:E; cbn [awaiting].
  - destruct Hq as (w & _ & Hk & Hd).
    destruct Hs as [[_ ->]|[k Hk']]; [|congruence].
    rewrite app_nil_r in Ht. rewrite Ht in Hk.
    assert (w = []).
    { apply (app_inv_head (dispatchedOf (trace s))). rewrite app_nil_r. auto. }
    subst w. rewrite Hd, Ht. cbn [List.length]. split; [lia|]. split; reflexivity.
  - destruct Hq as (w & _ & Hk & Hd).
    rewrite Hd, Hk, length_app. split; lia.
  - contradiction.
Qed.

Lemma queue_depth_counts_unfinished_witness :
  exists s,
    run cfg0 commandsRun (initial 0 port0) = Some s /\
    reachable cfg0 s /\
    cmdQueueDepth s = 1 /\
    cmdQueueDepth s =
      Z.of_nat (List.length (tokensOf (trace s)))
      - Z.of_nat (List.length (dispatchedOf (trace s)))
      + (if awaiting (cmdQ s) then 1 else 0).
Proof.
  destruct commandsRun_depth as (s & Hrun & Hd & _). exists s.
  assert (Hreach : reachable cfg0 s)
    by (eapply run_reachable; [apply reachable_initial|exact Hrun]).
  split; [exact Hrun|]. split; [exact Hreach|]. split; [exact Hd|].
  apply (proj1 (queue_depth_counts_unfinished cfg0 s Hreach)).
Defined.

(** ** Playing a sequence of requests *)

Lemma play_bind_ok : forall (A B : Type) (m : Async A) (f : A -> Async B)
    script reqs a,
  play m script = (reqs, Fulfilled a) ->
  play (bind m f) script =
    (reqs ++ fst (play (f a) (skipn (List.length reqs) script)),
     snd (play (f a) (skipn (List.length reqs) script))).
Proof.
  intros A B m f.
  induction m as [a0|e|e|r k IH|ms body IH|act k IH]; intros script reqs a H.
  - cbn [play] in H. injection H as <- <-. cbn [bind List.length app].
    rewrite skipn_O. destruct (play (f a0) script); reflexivity.
  - discriminate.
  - discriminate.
  - destruct script as [|x rest]; [discriminate|].
    cbn [play] in H. injection H as <- H2.
    cbn [bind play List.length]. rewrite skipn_cons.
    rewrite (IH x rest (fst (play (k x) rest)) a);
      [reflexivity|].
    rewrite <- H2. destruct (play (k x) rest); reflexivity.
  - cbn [play] in H. cbn [bind play]. apply IH. exact H.
  - cbn [play] in H. cbn [bind play]. apply IH. exact H.
Qed.

Lemma play_seq : forall (A B : Type) (m : Async A) (f : A -> Async B)
    script reqs a reqs' out,
  play m script = (reqs, Fulfilled a) ->
  play (f a) (skipn (List.length reqs) script) = (reqs', out) ->
  play (bind m f) script = (reqs ++ reqs', out).
Proof.
  intros A B m f script reqs a reqs' out H1 H2.
  rewrite (play_bind_ok A B m f script reqs a H1), H2. reflexivity.
Qed.

Lemma forallb_skipn : forall (A : Type) (f : A -> bool) n l,
  forallb f l = true -> forallb f (skipn n l) = true.
Proof.
  intros A f n. induction n as [|n IH]; intros l H; [rewrite skipn_O; exact H|].
  destruct l as [|x l]; [reflexivity|].
  rewrite skipn_cons. apply IH. simpl in H. apply andb_prop in H. apply H.
Qed.

Lemma accepted_responded : forall script,
  forallb accepted script = true -> forallb responded script = true.
Proof.
  induction script as [|x script IH]; intros H; [reflexivity|].
  simpl in *. apply andb_prop in H. destruct H as [Hx H].
  rewrite (IH H). destruct x; [reflexivity|discriminate].
Qed.

Lemma firstAttempts_app : forall a b,
  firstAttempts (a ++ b) = firstAttempts a ++ firstAttempts b.
Proof. intros. apply filter_app. Qed.

Lemma firstAttempts_json : forall cfg cmds,
  firstAttempts (List.map (commandJson cfg) cmds) = List.map (commandJson cfg) cmds.
Proof.
  intros cfg cmds. induction cmds as [|c cmds IH]; [reflexivity|].
  unfold firstAttempts in *. simpl. rewrite IH. reflexivity.
Qed.

(** One command: the JSON request, and the text/plain one when the answer
    to the first is not a 2xx. *)
Lemma play_send : forall cfg cmd script,
  forallb responded script = true ->
  (2 <= List.length script)%nat ->
  exists reqs a,
    play (sendShieldCommand cfg cmd) script = (reqs, Fulfilled a) /\
    firstAttempts reqs = [commandJson cfg cmd] /\
    (List.length reqs <= 2)%nat.
Proof.
  intros cfg cmd script Hr Hl.
  destruct script as [|[r|e] [|[r'|e'] rest]]; simpl in Hr, Hl;
    try discriminate; try lia.
  simpl. unfold replyOf; simpl.
  destruct (resp_ok r); simpl.
  - eexists _, _. split; [reflexivity|]. split; [reflexivity|simpl; lia].
  - eexists _, _. split; [reflexivity|]. split; [reflexivity|simpl; lia].
Qed.

Lemma play_send_accepted : forall cfg cmd r rest,
  resp_ok r = true ->
  play (sendShieldCommand cfg cmd) (Responded r :: rest) =
    ([commandJson cfg cmd], Fulfilled (replyOf r)).
Proof.
  intros cfg cmd r rest H. simpl. unfold replyOf at 1. simpl. rewrite H.
  reflexivity.
Qed.

Lemma play_forOf : forall cfg (l : list (nat * string)) script,
  forallb responded script = true ->
  (2 * List.length l <= List.length script)%nat ->
  exists reqs,
    play (forOf l (fun c => r <- sendShieldCommand cfg (snd c) ;; Ret tt)) script =
      (reqs, Fulfilled tt) /\
    firstAttempts reqs = List.map (commandJson cfg) (List.map snd l) /\
    (List.length reqs <= 2 * List.length l)%nat.
Proof.
  intros cfg l. induction l as [|c l IH]; intros script Hr Hl.
  - exists []. simpl. repeat split. lia.
  - cbn [List.length] in Hl.
    destruct (play_send cfg (snd c) script Hr ltac:(lia)) as (r1 & a & P & F & L).
    destruct (IH (skipn (List.length r1) script)) as (r2 & P2 & F2 & L2).
    { apply forallb_skipn. exact Hr. }
    { rewrite length_skipn. lia. }
    exists (r1 ++ r2). split; [|split].
    + cbn [forOf]. eapply play_seq; [|exact P2].
      rewrite <- (app_nil_r r1).
      eapply play_seq; [exact P|]. reflexivity.
    + rewrite firstAttempts_app, F, F2. reflexivity.
    + rewrite length_app. cbn [List.length]. lia.
Qed.

Lemma play_forOf_accepted : forall cfg (l : list (nat * string)) script,
  forallb accepted script = true ->
  (List.length l <= List.length script)%nat ->
  play (forOf l (fun c => r <- sendShieldCommand cfg (snd c) ;; Ret tt)) script =
    (List.map (commandJson cfg) (List.map snd l), Fulfilled tt).
Proof.
  intros cfg l. induction l as [|c l IH]; intros script Hr Hl; [reflexivity|].
  destruct script as [|[r|e] rest]; cbn [List.length] in Hl; [lia| |discriminate].
  cbn [forallb accepted] in Hr. apply andb_prop in Hr. destruct Hr as [Hk Hr].
  cbn [forOf].
  change (List.map (commandJson cfg) (List.map snd (c :: l))) with
    ([commandJson cfg (snd c)] ++ List.map (commandJson cfg) (List.map snd l)).
  eapply play_seq.
  - rewrite <- (app_nil_r [commandJson cfg (snd c)]).
    eapply play_seq; [apply play_send_accepted; exact Hk|]. reflexivity.
  - cbn [List.length]. rewrite skipn_cons, skipn_O.
    apply IH; [exact Hr|lia].
Qed.

Lemma play_stopStream : forall cfg r rest,
  play (stopStream cfg) (Responded r :: rest) =
    ([streamStop cfg], Fulfilled (resp_ok r)).
Proof. reflexivity. Qed.

Lemma play_wake : forall cfg r rest,
  play (Sleep 1000
          (detached (r <- httpGet (endpoint cfg "/stream/start") ;;
                     Ret (ok r))))
       (Responded r :: rest) =
    ([streamStart cfg], Fulfilled (resp_ok r)).
Proof. reflexivity. Qed.

Lemma responded_head : forall script,
  forallb responded script = true ->
  (1 <= List.length script)%nat ->
  exists r rest, script = Responded r :: rest /\ forallb responded rest = true.
Proof.
  intros [|[r|e] rest] H L; simpl in *; [lia| |discriminate].
  exists r, rest. split; [reflexivity|exact H].
Qed.

Lemma accepted_head : forall script,
  forallb accepted script = true ->
  (1 <= List.length script)%nat ->
  exists r rest,
    script = Responded r :: rest /\ resp_ok r = true /\
    forallb accepted rest = true.
Proof.
  intros [|[r|e] rest] H L; simpl in *; [lia| |discriminate].
  apply andb_prop in H. destruct H as [H1 H2].
  exists r, rest. repeat split; assumption.
Qed.

Lemma play_init : forall cfg script,
  forallb responded script = true ->
  (2 * List.length (if truthy (initCmd cfg) then [initCmd cfg] else [])
   <= List.length script)%nat ->
  exists reqs,
    play (if truthy (initCmd cfg)
          then init <- sendShieldCommand cfg (initCmd cfg) ;; Ret tt
          else Ret tt) script = (reqs, Fulfilled tt) /\
    firstAttempts reqs =
      List.map (commandJson cfg) (if truthy (initCmd cfg) then [initCmd cfg] else []) /\
    (List.length reqs
     <= 2 * List.length (if truthy (initCmd cfg) then [initCmd cfg] else []))%nat.
Proof.
  intros cfg script Hr Hl. destruct (truthy (initCmd cfg)).
  - cbn [List.length] in Hl.
    destruct (play_send cfg (initCmd cfg) script Hr ltac:(lia)) as (r1 & a & P & F & L).
    exists r1. split; [|split; [exact F|cbn [List.length]; lia]].
    rewrite <- (app_nil_r r1). eapply play_seq; [exact P|]. reflexivity.
  - exists []. repeat split. simpl. lia.
Qed.

Lemma play_init_accepted : forall cfg script,
  forallb accepted script = true ->
  (List.length (if truthy (initCmd cfg) then [initCmd cfg] else [])
   <= List.length script)%nat ->
  play (if truthy (initCmd cfg)
        then init <- sendShieldCommand cfg (initCmd cfg) ;; Ret tt
        else Ret tt) script =
    (List.map (commandJson cfg) (if truthy (initCmd cfg) then [initCmd cfg] else []),
     Fulfilled tt).
Proof.
  intros cfg script Hr Hl. destruct (truthy (initCmd cfg)); [|reflexivity].
  cbn [List.length] in Hl.
  destruct (accepted_head script Hr ltac:(lia)) as (r & rest & -> & Hk & _).
  cbn [List.map]. rewrite <- (app_nil_r [commandJson cfg (initCmd cfg)]).
  eapply play_seq; [apply play_send_accepted; exact Hk|]. reflexivity.
Qed.

Lemma channels_forOf : forall cfg,
  match channelCmds cfg with
  | _ :: _ =>
      forOf (channelCmds cfg)
            (fun c => r <- sendShieldCommand cfg (snd c) ;; Ret tt)
  | [] => Ret tt
  end =
  forOf (channelCmds cfg) (fun c => r <- sendShieldCommand cfg (snd c) ;; Ret tt).
Proof. intros cfg. destruct (channelCmds cfg); reflexivity. Qed.

Lemma setupCmds_length : forall cfg,
  List.length (setupCmds cfg) =
  (List.length (if truthy (initCmd cfg) then [initCmd cfg] else [])
   + List.length (channelCmds cfg))%nat.
Proof. intros. unfold setupCmds. rewrite length_app, length_map. reflexivity. Qed.

(** ** Properties of the begin sequence *)

(** X16.  The requests of [startStream], whatever the configuration.
    When every request is answered with a 2xx, they are: the stop-stream
    call, the JSON POST of the initialization command if there is one, the
    JSON POST of each channel command in the order of the channels, and
    the start-stream call; the result is [true].  When every request is
    answered, with whatever status, the same holds of the requests less the
    text/plain second attempts: no HTTP status stops the sequence, and it
    ends fulfilled. *)
Theorem begin_sequence_requests : forall cfg script,
  (forallb accepted script = true ->
   (List.length (setupCmds cfg) + 2 <= List.length script)%nat ->
   play (startStream cfg) script =
     (streamStop cfg :: List.map (commandJson cfg) (setupCmds cfg)
        ++ [streamStart cfg],
      Fulfilled true)) /\
  (forallb responded script = true ->
   (2 * List.length (setupCmds cfg) + 2 <= List.length script)%nat ->
   firstAttempts (fst (play (startStream cfg) script)) =
     streamStop cfg :: List.map (commandJson cfg) (setupCmds cfg)
       ++ [streamStart cfg] /\
   exists b, snd (play (startStream cfg) script) = Fulfilled b).
Proof.
  intros cfg script. rewrite setupCmds_length. split.
  - intros Ha Hl.
    destruct (accepted_head script Ha ltac:(lia)) as (r0 & rest0 & -> & Hk0 & Ha0).
    cbn [List.length] in Hl.
    unfold startStream. cbn [play]. rewrite channels_forOf.
    change (streamStop cfg :: List.map (commandJson cfg) (setupCmds cfg)
              ++ [streamStart cfg])
      with ([streamStop cfg] ++ List.map (commandJson cfg) (setupCmds cfg)
              ++ [streamStart cfg]).
    eapply play_seq; [apply play_stopStream|].
    cbn [List.length]. rewrite skipn_cons, skipn_O.
    unfold setupCmds. rewrite map_app, <- app_assoc.
    eapply play_seq; [apply play_init_accepted; [exact Ha0|lia]|].
    rewrite length_map.
    eapply play_seq.
    { apply play_forOf_accepted.
      - apply forallb_skipn. exact Ha0.
      - rewrite length_skipn. lia. }
    rewrite !length_map.
    set (rest2 := skipn _ (skipn _ rest0)).
    assert (Ha2 : forallb accepted rest2 = true)
      by (unfold rest2; apply forallb_skipn, forallb_skipn; exact Ha0).
    assert (Hl2 : (1 <= List.length rest2)%nat)
      by (unfold rest2; rewrite !length_skipn; lia).
    destruct (accepted_head rest2 Ha2 Hl2) as (r2 & rest3 & -> & Hk2 & _).
    rewrite play_wake, Hk2. reflexivity.
  - intros Hr Hl.
    destruct (responded_head script Hr ltac:(lia)) as (r0 & rest0 & -> & Hr0).
    cbn [List.length] in Hl.
    unfold startStream. cbn [play]. rewrite channels_forOf.
    rewrite (play_bind_ok _ _ (stopStream cfg) _ _ _ _ (play_stopStream cfg r0 rest0)).
    cbn [List.length]. rewrite skipn_cons, skipn_O.
    destruct (play_init cfg rest0 Hr0 ltac:(lia)) as (ri & Pi & Fi & Li).
    rewrite (play_bind_ok _ _ _ _ _ _ _ Pi).
    set (rest1 := skipn (List.length ri) rest0).
    assert (Hr1 : forallb responded rest1 = true)
      by (unfold rest1; apply forallb_skipn; exact Hr0).
    assert (Hl1 : (2 * List.length (channelCmds cfg) + 1 <= List.length rest1)%nat)
      by (unfold rest1; rewrite length_skipn; lia).
    destruct (play_forOf cfg (channelCmds cfg) rest1 Hr1 ltac:(lia))
      as (rc & Pc & Fc & Lc).
    rewrite (play_bind_ok _ _ _ _ _ _ _ Pc).
    set (rest2 := skipn (List.length rc) rest1).
    assert (Hr2 : forallb responded rest2 = true)
      by (unfold rest2; apply forallb_skipn; exact Hr1).
    assert (Hl2 : (1 <= List.length rest2)%nat)
      by (unfold rest2; rewrite length_skipn; lia).
    destruct (responded_head rest2 Hr2 Hl2) as (r2 & rest3 & -> & _).
    rewrite play_wake. cbn [fst snd]. split; [|eauto].
    rewrite !firstAttempts_app, Fi, Fc.
    unfold setupCmds. rewrite map_app, <- app_assoc. reflexivity.
Qed.

(** With the initialization command "/0d~6" and two channel commands:
    five calls when all are accepted; when the shield answers 404 to every
    JSON POST of a command, the same five first attempts. *)
Lemma begin_sequence_requests_witness :
  play (startStream cfg2) (repeat okResponse 5) =
    ([ streamStop cfg2; commandJson cfg2 "/0d~6"; commandJson cfg2 "x1060110X";
       commandJson cfg2 "x2060110X"; streamStart cfg2 ],
     Fulfilled true) /\
  firstAttempts
    (fst (play (startStream cfg2)
            [ okResponse; notFound; okResponse; notFound; okResponse;
              notFound; okResponse; okResponse ])) =
    [ streamStop cfg2; commandJson cfg2 "/0d~6"; commandJson cfg2 "x1060110X";
      commandJson cfg2 "x2060110X"; streamStart cfg2 ].
Proof.
  split.
  - apply (proj1 (begin_sequence_requests cfg2 (repeat okResponse 5)));
      [reflexivity|simpl; lia].
  - apply (proj2 (begin_sequence_requests cfg2
                    [ okResponse; notFound; okResponse; notFound; okResponse;
                      notFound; okResponse; okResponse ]));
      [reflexivity|simpl; lia].
Defined.

(** ** Transport failures *)

Lemma append_inv_head : forall x y z : string, (x ++ y = x ++ z)%string -> y = z.
Proof.
  induction x as [|c x IH]; intros y z H; simpl in H; [exact H|].
  injection H as H. apply IH. exact H.
Qed.

Lemma stop_not_start : forall cfg, streamStop cfg <> streamStart cfg.
Proof.
  intros cfg H. unfold streamStop, streamStart, endpoint in H.
  injection H as H. apply append_inv_head in H. discriminate.
Qed.

Lemma strict_bind : forall (A B : Type) av (m : Async A) (f : A -> Async B),
  Strict av m -> (forall a, Strict av (f a)) -> Strict av (bind m f).
Proof.
  intros A B av m f Hm Hf.
  induction Hm as [a|r k Hr H IH Hk|act k H IH]; simpl.
  - apply Hf.
  - constructor; [exact Hr|exact IH|]. intros e. rewrite Hk. reflexivity.
  - constructor. exact IH.
Qed.

Lemma begins_bind : forall (A : Type) cfg (m : Async A) (f : A -> Async bool),
  Strict (streamStart cfg) m -> (forall a, Begins cfg (f a)) ->
  Begins cfg (bind m f).
Proof.
  intros A cfg m f Hm Hf.
  induction Hm as [a|r k Hr H IH Hk|act k H IH]; simpl.
  - apply Hf.
  - constructor; [exact Hr|exact IH|]. intros e. rewrite Hk. reflexivity.
  - constructor. exact IH.
Qed.

Lemma strict_fetch : forall av r, r <> av -> Strict av (fetch r).
Proof.
  intros av r H. constructor; [exact H|intros resp; constructor|reflexivity].
Qed.

Lemma strict_sendShieldCommand : forall cfg cmd,
  Strict (streamStart cfg) (sendShieldCommand cfg cmd).
Proof.
  intros. unfold sendShieldCommand, httpJson.
  apply strict_bind.
  - apply strict_bind; [apply strict_fetch; discriminate|constructor].
  - intros r. destruct (ok r); [constructor|].
    apply strict_bind; [apply strict_fetch; discriminate|constructor].
Qed.

Lemma strict_stopStream : forall cfg, Strict (streamStart cfg) (stopStream cfg).
Proof.
  intros. unfold stopStream, httpGet. constructor.
  apply strict_bind; [|constructor].
  apply strict_bind; [apply strict_fetch; apply stop_not_start|constructor].
Qed.

Lemma strict_forOf : forall (A : Type) av (l : list A) body,
  (forall x, Strict av (body x)) -> Strict av (forOf l body).
Proof.
  intros A av l body H. induction l as [|x l IH]; simpl; [constructor|].
  apply strict_bind; auto.
Qed.

Lemma begins_startStream : forall cfg, Begins cfg (startStream cfg).
Proof.
  intros. unfold startStream. constructor.
  apply begins_bind; [apply strict_stopStream|]. intros _.
  apply begins_bind.
  { destruct (truthy (initCmd cfg)); [|constructor].
    apply strict_bind; [apply strict_sendShieldCommand|constructor]. }
  intros _. apply begins_bind.
  { destruct (channelCmds cfg); [constructor|].
    apply strict_forOf. intros c.
    apply strict_bind; [apply strict_sendShieldCommand|constructor]. }
  intros _. apply Begins_wake.
Qed.

Lemma strict_configureShieldTcp : forall cfg,
  Strict (streamStart cfg) (configureShieldTcp cfg).
Proof.
  intros. unfold configureShieldTcp, httpJson.
  apply strict_bind.
  - apply strict_bind; [apply strict_fetch; discriminate|constructor].
  - intros r. destruct (negb (ok r)); [|constructor].
    apply strict_bind; [|constructor].
    apply strict_bind; [apply strict_fetch; discriminate|constructor].
Qed.

(** In a strict program the first transport failure is the end: the
    request that failed is the last one made, and the program is
    rejected. *)
Lemma strict_fail : forall (A : Type) av (p : Async A),
  Strict av p ->
  forall pre e post,
  snd (play p pre) = Waiting ->
  play p (pre ++ Failed e :: post) = (fst (play p pre), Rejected e).
Proof.
  intros A av p H.
  induction H as [a|r k Hr H IH Hk|act k H IH];
    intros pre e post Hw; try discriminate.
  - destruct pre as [|[resp|e'] pre]; cbn [app play fst snd] in *.
    + rewrite Hk. reflexivity.
    + rewrite (IH resp pre e post Hw). reflexivity.
    + rewrite Hk in Hw. discriminate.
  - cbn [play] in *. apply IH. exact Hw.
Qed.

(** [startStream]: the same up to its timer; a failure of the start-stream
    call is a rejection inside the timer callback. *)
Lemma begins_fail : forall cfg p,
  Begins cfg p ->
  forall pre e post,
  snd (play p pre) = Waiting ->
  (play p (pre ++ Failed e :: post) = (fst (play p pre), Rejected e) /\
   ~ In (streamStart cfg) (fst (play p pre))) \/
  (play p (pre ++ Failed e :: post) = (fst (play p pre), Crashed e) /\
   exists reqs,
     fst (play p pre) = reqs ++ [streamStart cfg] /\
     ~ In (streamStart cfg) reqs).
Proof.
  intros cfg p H.
  induction H as [|r k Hr H IH Hk|act k H IH]; intros pre e post Hw.
  - right. destruct pre as [|[resp|e'] pre]; [|discriminate..].
    split; [reflexivity|]. exists []. split; [reflexivity|]. intros [].
  - destruct pre as [|[resp|e'] pre]; cbn [app play fst snd] in *.
    + left. rewrite Hk. split; [reflexivity|].
      intros [E|[]]. exact (Hr E).
    + destruct (IH resp pre e post Hw) as [[E N]|[E (reqs & R & N)]].
      * left. rewrite E. split; [reflexivity|].
        intros [X|X]; [exact (Hr X)|exact (N X)].
      * right. rewrite E. split; [reflexivity|].
        exists (r :: reqs). rewrite R. split; [reflexivity|].
        intros [X|X]; [exact (Hr X)|exact (N X)].
    + rewrite Hk in Hw. discriminate.
  - cbn [play] in *. apply IH. exact Hw.
Qed.

(** X17.  A transport failure ends a life-cycle call there and then: it
    makes no further request.  Take answers [pre] after which
    [startStream] is still waiting for the answer to a request, and let
    that request fail with [e].  If it is not the start-stream call,
    [startStream] is rejected with [e] and the start-stream call is never
    made.  If it is the start-stream call, which is awaited inside the
    callback of the timer, the promise of [startStream] is never settled:
    the rejection has no handler and ends the process.  [stopStream] and
    [configureShieldTcp] are rejected with [e]. *)
Theorem transport_failure_ends_call : forall cfg pre e post,
  (snd (play (startStream cfg) pre) = Waiting ->
   (play (startStream cfg) (pre ++ Failed e :: post) =
      (fst (play (startStream cfg) pre), Rejected e) /\
    ~ In (streamStart cfg) (fst (play (startStream cfg) pre))) \/
   (play (startStream cfg) (pre ++ Failed e :: post) =
      (fst (play (startStream cfg) pre), Crashed e) /\
    exists reqs,
      fst (play (startStream cfg) pre) = reqs ++ [streamStart cfg] /\
      ~ In (streamStart cfg) reqs)) /\
  (snd (play (stopStream cfg) pre) = Waiting ->
   play (stopStream cfg) (pre ++ Failed e :: post) =
     (fst (play (stopStream cfg) pre), Rejected e)) /\
  (snd (play (configureShieldTcp cfg) pre) = Waiting ->
   play (configureShieldTcp cfg) (pre ++ Failed e :: post) =
     (fst (play (configureShieldTcp cfg) pre), Rejected e)).
Proof.
  intros cfg pre e post. split; [|split]; intros Hw.
  - apply begins_fail; [apply begins_startStream|exact Hw].
  - eapply strict_fail; [apply strict_stopStream|exact Hw].
  - eapply strict_fail; [apply strict_configureShieldTcp|exact Hw].
Qed.

(** With [cfg2]: when the initialization command cannot be delivered,
    the channel commands and the start-stream call are never sent and
    [startStream] is rejected; when all is answered but the start-stream
    call fails, the process ends. *)
Lemma transport_failure_ends_call_witness :
  play (startStream cfg2) ([okResponse] ++ Failed "ECONNRESET" :: repeat okResponse 4) =
    ([streamStop cfg2; commandJson cfg2 "/0d~6"], Rejected "ECONNRESET") /\
  play (startStream cfg2) (repeat okResponse 4 ++ [Failed "ECONNRESET"]) =
    ([ streamStop cfg2; commandJson cfg2 "/0d~6"; commandJson cfg2 "x1060110X";
       commandJson cfg2 "x2060110X"; streamStart cfg2 ],
     Crashed "ECONNRESET").
Proof.
  split.
  - destruct (proj1 (transport_failure_ends_call cfg2 [okResponse] "ECONNRESET"
                       (repeat okResponse 4)) eq_refl) as [[H _]|[H _]].
    + exact H.
    + vm_compute in H. discriminate H.
  - destruct (proj1 (transport_failure_ends_call cfg2 (repeat okResponse 4)
                       "ECONNRESET" []) eq_refl) as [[H _]|[H _]].
    + vm_compute in H. discriminate H.
    + exact H.
Defined.

(** X18.  [configureShieldTcp] makes at most two requests, whatever the
    answers.  The first is the POST to /tcp with [output: "raw"]; on a 2xx
    that is all and the result is [true].  On any other status it posts
    once more, the same body without [output], and the result tells whether
    that second answer is a 2xx. *)
Theorem configure_tcp_requests : forall cfg,
  (forall script,
     (List.length (fst (play (configureShieldTcp cfg) script)) <= 2)%nat) /\
  (forall r rest,
     resp_ok r = true ->
     play (configureShieldTcp cfg) (Responded r :: rest) =
       ([tcpRequest cfg true], Fulfilled true)) /\
  (forall r r2 rest,
     resp_ok r = false ->
     play (configureShieldTcp cfg) (Responded r :: Responded r2 :: rest) =
       ([tcpRequest cfg true; tcpRequest cfg false], Fulfilled (resp_ok r2))).
Proof.
  intros cfg. split; [|split].
  - intros [|[r|e] rest]; simpl; try lia.
    unfold replyOf; simpl. destruct (resp_ok r); simpl; [lia|].
    destruct rest as [|[r'|e'] rest]; simpl; lia.
  - intros r rest H. simpl. unfold replyOf at 1; simpl. rewrite H. reflexivity.
  - intros r r2 rest H. simpl. unfold replyOf at 1; simpl. rewrite H. reflexivity.
Qed.

Lemma configure_tcp_requests_witness :
  play (configureShieldTcp cfg2) [notFound; okResponse] =
    ([tcpRequest cfg2 true; tcpRequest cfg2 false], Fulfilled true).
Proof.
  exact (proj2 (proj2 (configure_tcp_requests cfg2))
           (mkResponse 404 None) (mkResponse 200 (Some "ok")) [] eq_refl).
Defined.

(** ** The listen callback and the stop trigger *)

Lemma httpOf_app : forall a b, httpOf (a ++ b) = httpOf a ++ httpOf b.
Proof. intros. apply flat_map_app. Qed.

Lemma assoc_dropTask : forall w l, assoc w (dropTask w l) = None.
Proof.
  intros w l. unfold dropTask. induction l as [|[w' t] l IH]; [reflexivity|].
  cbn [filter fst]. destruct (who_eqb w w') eqn:E; cbn [negb]; [exact IH|].
  cbn [assoc]. rewrite E. exact IH.
Qed.


Lemma runTask_fetch : forall now w r k s,
  w <> Queue ->
  runTask now w (Fetch r k) s =
    set_tasks ((w, OnFetch k) :: dropTask w (tasks s)) (emit now (EHttp w r) s).
Proof. intros now [|n|n|] r k s H; [contradiction|reflexivity..]. Qed.

Lemma runTask_ret : forall now w s,
  w <> Queue ->
  runTask now w (Ret tt) s = set_tasks (dropTask w (tasks s)) s.
Proof. intros now [|n|n|] s H; [contradiction|reflexivity..]. Qed.

Lemma runTask_unhandled : forall now w e s,
  w <> Queue ->
  runTask now w (Unhandled e) s =
    set_tasks (dropTask w (tasks s)) (set_halted true s).
Proof. intros now [|n|n|] e s H; [contradiction|reflexivity..]. Qed.

Lemma runTask_do : forall now w a k s,
  runTask now w (Do a k) s = runTask now w k (perform a now s).
Proof. reflexivity. Qed.

Lemma lookup_stored : forall w t l s,
  w <> Queue -> lookupTask w (set_tasks ((w, t) :: l) s) = Some t.
Proof.
  intros [|n|n|] t l s H; [contradiction| | |];
    cbn [lookupTask tasks set_tasks assoc who_eqb];
    rewrite ?Nat.eqb_refl; reflexivity.
Qed.

Lemma lookup_dropped : forall w l s,
  w <> Queue -> lookupTask w (set_tasks (dropTask w l) s) = None.
Proof.
  intros [|n|n|] l s H; [contradiction| | |];
    cbn [lookupTask tasks set_tasks]; apply assoc_dropTask.
Qed.

(** The promise of the listen callback, answer by answer. *)
Lemma onListening_shape : forall cfg,
  exists k1,
    onListening cfg = Fetch (tcpRequest cfg true) k1 /\
    (forall e, k1 (Failed e) = Unhandled e) /\
    (forall r, resp_ok r = true -> k1 (Responded r) = Ret tt) /\
    (forall r, resp_ok r = false ->
       exists k2,
         k1 (Responded r) = Fetch (tcpRequest cfg false) k2 /\
         (forall e, k2 (Failed e) = Unhandled e) /\
         (forall r2, k2 (Responded r2) = Ret tt)).
Proof.
  intros cfg. eexists. split; [reflexivity|]. split; [reflexivity|]. split.
  - intros r H. simpl. unfold replyOf at 1. simpl. rewrite H. reflexivity.
  - intros r H. eexists. split; [|split].
    + simpl. unfold replyOf at 1. simpl. rewrite H. reflexivity.
    + reflexivity.
    + reflexivity.
Qed.

(** The promise of the stop trigger. *)
Lemma stopTrigger_shape : forall cfg,
  exists k,
    pcatch (_ <- stopStream cfg ;; Ret tt) (fun _ => Ret tt) =
      Do SetLastStopAt (Fetch (streamStop cfg) k) /\
    forall x, k x = Ret tt.
Proof.
  intros cfg. eexists. split; [reflexivity|]. intros [r|e]; reflexivity.
Qed.

(** X19.  The callback of [server.listen] marks the server as listening
    and posts the TCP configuration.  If that request, or its retry, meets
    a transport failure, the rejection has no handler and the process ends.
    If it is answered with a 2xx, nothing more is sent.  If it is answered
    with another status, the retry without [output] is sent; once that one
    is answered, with whatever status, nothing more is sent and the process
    goes on. *)
Theorem listening_configures_shield : forall cfg now s,
  let s1 := react cfg now ServerListening s in
  listener s1 = Listening /\
  halted s1 = halted s /\
  httpOf (trace s1) = httpOf (trace s) ++ [(now, Configure, tcpRequest cfg true)] /\
  forall now' x,
    let s2 := react cfg now' (FetchSettles Configure x) s1 in
    match x with
    | Failed _ => halted s2 = true /\ httpOf (trace s2) = httpOf (trace s1)
    | Responded r =>
        halted s2 = halted s /\
        if resp_ok r
        then httpOf (trace s2) = httpOf (trace s1) /\
             lookupTask Configure s2 = None
        else httpOf (trace s2) =
               httpOf (trace s1) ++ [(now', Configure, tcpRequest cfg false)] /\
             forall now'' y,
               let s3 := react cfg now'' (FetchSettles Configure y) s2 in
               httpOf (trace s3) = httpOf (trace s2) /\
               match y with
               | Failed _ => halted s3 = true
               | Responded _ =>
                   halted s3 = halted s /\ lookupTask Configure s3 = None
               end
    end.
Proof.
  intros cfg now s s1.
  assert (Hc : Configure <> Queue) by discriminate.
  destruct (onListening_shape cfg) as (k1 & E & F1 & A1 & N1).
  assert (E1 : s1 = set_tasks ((Configure, OnFetch k1)
                                 :: dropTask Configure (tasks s))
                      (emit now (EHttp Configure (tcpRequest cfg true))
                         (set_listener Listening s))).
  { unfold s1. cbn [react]. rewrite E, runTask_fetch by exact Hc. reflexivity. }
  clearbody s1. subst s1.
  split; [reflexivity|]. split; [reflexivity|].
  split; [cbn [trace set_tasks emit set_trace set_listener];
          rewrite httpOf_app; reflexivity|].
  intros now' x s2. unfold s2. clear s2. cbn [react].
  rewrite lookup_stored by exact Hc.
  destruct x as [r|e].
  - destruct (resp_ok r) eqn:Hr.
    + rewrite (A1 r Hr), runTask_ret by exact Hc.
      split; [reflexivity|]. split; [reflexivity|].
      apply lookup_dropped. exact Hc.
    + destruct (N1 r Hr) as (k2 & E2 & F2 & A2).
      rewrite E2, runTask_fetch by exact Hc.
      split; [reflexivity|].
      split; [cbn [trace set_tasks emit set_trace set_listener];
              rewrite !httpOf_app; reflexivity|].
      intros now'' y. cbn [react].
      rewrite lookup_stored by exact Hc.
      destruct y as [r2|e2].
      * rewrite A2, runTask_ret by exact Hc.
        split; [reflexivity|]. split; [reflexivity|].
        apply lookup_dropped. exact Hc.
      * rewrite F2, runTask_unhandled by exact Hc.
        split; reflexivity.
  - rewrite F1, runTask_unhandled by exact Hc. split; reflexivity.
Qed.

(** X20.  The callback of the timer set by an 's' byte records the time
    in [lastStopAt] and makes one stop-stream call.  However that call
    settles, with any status or with a transport failure, nothing more is
    sent, the process goes on, and the promise is gone. *)
Theorem stop_trigger_calls_once : forall cfg now s,
  let w := Stop (nextTask s) in
  let s1 := fire cfg now CbStop s in
  httpOf (trace s1) = httpOf (trace s) ++ [(now, w, streamStop cfg)] /\
  lastStopAt (stats s1) = now /\
  halted s1 = halted s /\
  forall now' x,
    let s2 := react cfg now' (FetchSettles w x) s1 in
    httpOf (trace s2) = httpOf (trace s1) /\
    halted s2 = halted s /\
    lookupTask w s2 = None.
Proof.
  intros cfg now s w s1.
  assert (Hw : w <> Queue) by discriminate.
  destruct (stopTrigger_shape cfg) as (k & E & Hk).
  assert (E1 : s1 = set_tasks ((w, OnFetch k) :: dropTask w (tasks s))
                      (emit now (EHttp w (streamStop cfg))
                         (perform SetLastStopAt now
                            (set_nextTask (S (nextTask s)) s)))).
  { unfold s1. cbn [fire]. rewrite E, runTask_do, runTask_fetch by exact Hw.
    reflexivity. }
  clearbody s1. subst s1.
  split; [cbn [trace set_tasks emit set_trace perform upd_stats set_stats
               set_nextTask]; rewrite httpOf_app; reflexivity|].
  split; [reflexivity|]. split; [reflexivity|].
  intros now' x s2. unfold s2. clear s2. cbn [react].
  rewrite lookup_stored by exact Hw.
  rewrite Hk, runTask_ret by exact Hw.
  split; [reflexivity|]. split; [reflexivity|].
  apply lookup_dropped. exact Hw.
Qed.

(** ** The TCP server starts once *)

Lemma listensOf_app : forall a b, listensOf (a ++ b) = listensOf a ++ listensOf b.
Proof. intros. apply flat_map_app. Qed.

Ltac sview_tac :=
  unfold serverView, listenView; simpl;
  rewrite ?listensOf_app, ?framesOf_app, ?writesOf_app; simpl;
  rewrite ?app_nil_r; reflexivity.

Lemma perform_serverView : forall a now s,
  serverView (perform a now s) = serverView s.
Proof. intros [] now s; reflexivity. Qed.

Lemma advance_serverView : forall p now w s,
  serverView (snd (advance now w p s)) = serverView s.
Proof.
  induction p as [a|e|e|r k IH|ms body IH|a k IH]; intros now w s; simpl;
    try reflexivity.
  - sview_tac.
  - rewrite IH. apply perform_serverView.
Qed.

Lemma storeTask_serverView : forall w t s,
  serverView (storeTask w t s) = serverView s.
Proof. intros [] [] s; reflexivity. Qed.

Lemma runTask_serverView : forall now w p s,
  serverView (runTask now w p s) = serverView s.
Proof.
  intros now w p s. unfold runTask.
  rewrite storeTask_serverView. apply advance_serverView.
Qed.

Lemma pump_serverView : forall now s, serverView (pump now s) = serverView s.
Proof.
  intros now s. unfold pump. destruct (cmdQ s); try reflexivity.
  apply runTask_serverView.
Qed.

Lemma feedByte_serverView : forall cfg now b s,
  serverView (feedByte cfg now b s) = serverView s.
Proof.
  intros cfg now b s. unfold feedByte.
  repeat match goal with
         | |- context [if ?c then _ else _] => destruct c
         end; try reflexivity; unfold queueCmd; sview_tac.
Qed.

Lemma fold_serverView : forall (f : State -> byte -> State) buf s,
  (forall s b, serverView (f s b) = serverView s) ->
  serverView (fold_left f buf s) = serverView s.
Proof.
  intros f buf. induction buf as [|b buf IH]; intros s Hf; simpl.
  - reflexivity.
  - rewrite IH by assumption. apply Hf.
Qed.

Lemma serialOnData_serverView : forall cfg now buf s,
  serverView (serialOnData cfg now buf s) = serverView s.
Proof.
  intros cfg now buf s. unfold serialOnData, feedCmdBytes.
  rewrite fold_serverView.
  - rewrite fold_serverView; [reflexivity|]. intros; apply feedByte_serverView.
  - intros s' b. unfold triggerByte.
    destruct (Byte.eqb b x62), (Byte.eqb b x73); reflexivity.
Qed.

Lemma serialOnDrain_serverView : forall now s,
  serverView (serialOnDrain now s) = serverView s.
Proof.
  intros now s. unfold serialOnDrain.
  destruct (currentSocket s); [|reflexivity].
  destruct (pausedBySerialBackpressure s); [sview_tac|reflexivity].
Qed.

Lemma serverView_listenView : forall s s',
  serverView s' = serverView s -> listenView s' = listenView s.
Proof.
  intros s s' H. unfold listenView.
  pose proof (f_equal (fun v => fst (fst (fst (fst (fst (fst (fst (fst (fst v)))))))))
                H) as H1.
  pose proof (f_equal (fun v => snd (fst (fst (fst (fst (fst (fst (fst (fst v)))))))))
                H) as H2.
  cbn [serverView fst snd] in H1, H2. rewrite H1, H2. reflexivity.
Qed.

Lemma writeToSerial_listenView : forall now data s,
  listenView (writeToSerial now data s) = listenView s.
Proof.
  intros now data s. unfold writeToSerial.
  destruct (writable (serial s)); simpl; [|reflexivity].
  destruct (currentSocket s); simpl; [|sview_tac].
  destruct (hd true (writeResults (serial s))),
           (pausedBySerialBackpressure s); sview_tac.
Qed.

Lemma loopBody_listenView : forall now s,
  listenView (snd (loopBody now s)) = listenView s.
Proof.
  intros now s. unfold loopBody.
  repeat match goal with
         | |- context [if ?c then _ else _] => destruct c
         end; try reflexivity.
  cbn [snd].
  match goal with
  | |- context [writeToSerial ?n ?d ?x] =>
      pose proof (writeToSerial_listenView n d x) as H;
      set (s2 := writeToSerial n d x) in *
  end.
  unfold listenView in *. simpl in *. rewrite H.
  rewrite listensOf_app. simpl. rewrite !app_nil_r. reflexivity.
Qed.

Lemma whileLoop_listenView : forall fuel now s,
  listenView (whileLoop fuel now s) = listenView s.
Proof.
  induction fuel as [|fuel IH]; intros now s; [reflexivity|].
  rewrite whileLoop_S.
  destruct (33 <=? List.length (tcpBuffer s))%nat; [|reflexivity].
  pose proof (loopBody_listenView now s) as H.
  destruct (loopBody now s) as [[|] s']; cbn [snd] in H; [|assumption].
  rewrite IH. assumption.
Qed.

Lemma serverInv_listenView : forall s s',
  serverStarted s = true ->
  listenView s' = listenView s -> serverInv s -> serverInv s'.
Proof.
  intros s s' Hs H Hi. unfold serverInv in *.
  pose proof (f_equal fst H) as H1. pose proof (f_equal snd H) as H2.
  cbn [listenView fst snd] in H1, H2. rewrite H1, H2, Hs. rewrite Hs in Hi.
  exact Hi.
Qed.

Lemma serverInv_serverView : forall s s',
  serverView s' = serverView s -> serverInv s -> serverInv s'.
Proof.
  intros s s' H Hi. unfold serverInv in *.
  pose proof (serverView_listenView s s' H) as HL.
  pose proof (f_equal fst HL) as H1. pose proof (f_equal snd HL) as H2.
  cbn [listenView fst snd] in H1, H2. rewrite H1, H2, H. exact Hi.
Qed.

Lemma startServer_server : forall cfg now s,
  serverInv s ->
  serverStarted (snd (startServer cfg now s)) = true /\
  serverInv (snd (startServer cfg now s)).
Proof.
  intros cfg now s H. unfold startServer, listen, serverInv in *.
  destruct (serverStarted s) eqn:E.
  - cbn [snd]. rewrite E. split; [reflexivity|exact H].
  - pose proof (f_equal (fun v => snd (fst (fst (fst (fst (fst (fst (fst (fst v)))))))))
                  H) as H2.
    cbn [serverView fst snd] in H2.
    destruct (validPort (tcpPort cfg)); cbn [snd];
      cbn [serverStarted set_listener emit set_trace set_serverStarted trace];
      (split; [reflexivity|]); rewrite listensOf_app, H2; reflexivity.
Qed.

Lemma fire_server : forall cfg now cb s,
  serverInv s -> serverInv (fire cfg now cb s).
Proof.
  intros cfg now cb s H. destruct cb as [| |w]; unfold fire.
  - destruct (startServer_server cfg now s H) as [_ Hi].
    destruct (startServer cfg now s) as [[|] s1]; cbn [snd] in Hi.
    + eapply serverInv_serverView; [apply runTask_serverView|].
      eapply serverInv_serverView; [|exact Hi]. reflexivity.
    + eapply serverInv_serverView; [|exact Hi]. reflexivity.
  - eapply serverInv_serverView; [apply runTask_serverView|].
    eapply serverInv_serverView; [|exact H]. reflexivity.
  - destruct (lookupTask w s) as [[]|]; try exact H.
    eapply serverInv_serverView; [apply runTask_serverView|exact H].
Qed.

Lemma not_started : forall s,
  serverInv s -> serverStarted s = false ->
  listener s = NotListening /\ sockets s = [].
Proof.
  intros s H E. unfold serverInv in H. rewrite E in H.
  unfold serverView in H. injection H as _ _ H3 H4 _ _ _ _ _ _. auto.
Qed.

Lemma handle_server : forall cfg now e s s',
  handle cfg now e s = Some s' -> serverInv s -> serverInv s'.
Proof.
  intros cfg now e s s' Hh Hi.
  apply handle_inv in Hh. destruct Hh as [Hen ->].
  eapply serverInv_serverView; [apply pump_serverView|].
  assert (Hc : serverInv (set_clock now s))
    by (eapply serverInv_serverView; [|exact Hi]; reflexivity).
  destruct e as [sock|sock chunk|sock|buf| |p|id|w r| | ]; cbn [react].
  - (* a connection: the server is listening *)
    destruct (serverStarted s) eqn:E.
    + eapply (serverInv_listenView s); [exact E|reflexivity|exact Hi].
    + destruct (not_started s Hi E) as [Hl _].
      unfold enabled in Hen. rewrite Hl, andb_false_r in Hen. discriminate.
  - destruct (serverStarted s) eqn:E.
    + eapply (serverInv_listenView s); [exact E| |exact Hi].
      unfold socketOnData, processTcpBuffer. rewrite whileLoop_listenView.
      reflexivity.
    + destruct (not_started s Hi E) as [_ Hk].
      unfold enabled, isOpen in Hen. rewrite Hk, andb_false_r in Hen. discriminate.
  - destruct (serverStarted s) eqn:E.
    + eapply (serverInv_listenView s); [exact E| |exact Hi].
      unfold socketOnClose. cbn [currentSocket set_sockets set_clock].
      destruct (currentSocket s) as [c|]; [|reflexivity].
      destruct (Nat.eqb c sock); reflexivity.
    + destruct (not_started s Hi E) as [_ Hk].
      unfold enabled, isOpen in Hen. rewrite Hk, andb_false_r in Hen. discriminate.
  - eapply serverInv_serverView; [apply serialOnData_serverView|exact Hc].
  - eapply serverInv_serverView; [apply serialOnDrain_serverView|exact Hc].
  - eapply serverInv_serverView; [|exact Hc]. reflexivity.
  - unfold findTimer. destruct (find _ (timers (set_clock now s))); [|exact Hc].
    apply fire_server.
    eapply serverInv_serverView; [|exact Hc]. reflexivity.
  - destruct (lookupTask w (set_clock now s)) as [[]|]; try exact Hc.
    eapply serverInv_serverView; [apply runTask_serverView|exact Hc].
  - destruct (serverStarted s) eqn:E.
    + eapply (serverInv_listenView s); [exact E| |exact Hi].
      rewrite (serverView_listenView _ _ (runTask_serverView _ _ _ _)).
      reflexivity.
    + destruct (not_started s Hi E) as [Hl _].
      unfold enabled in Hen. rewrite Hl, andb_false_r in Hen. discriminate.
  - destruct (serverStarted s) eqn:E.
    + eapply (serverInv_listenView s); [exact E|reflexivity|exact Hi].
    + destruct (not_started s Hi E) as [Hl _].
      unfold enabled in Hen. rewrite Hl, andb_false_r in Hen. discriminate.
Qed.

Lemma reachable_server : forall cfg s, reachable cfg s -> serverInv s.
Proof.
  intros cfg s H. induction H as [t0 port|s now e s' Hr IH Hh].
  - reflexivity.
  - eapply handle_server; eassumption.
Qed.

Lemma pausedRun_server :
  exists s,
    run cfg0 pausedRun (initial 0 port0) = Some s /\
    serverStarted s = true /\
    listensOf (trace s) = [1010].
Proof.
  eexists. split; [vm_compute; reflexivity|].
  split; vm_compute; reflexivity.
Qed.

(** X21.  [server.listen] is called at most once, however many 'b' bytes
    arrive: in every reachable state it has been called exactly once if
    [serverStarted] is set and never otherwise.  Until then the TCP side
    does not exist: no listener, no socket, an empty buffer, no byte
    counted, no frame handed on and nothing written to the serial port. *)
Theorem server_listens_once : forall cfg s,
  reachable cfg s ->
  (List.length (listensOf (trace s)) <= 1)%nat /\
  (serverStarted s = true <-> List.length (listensOf (trace s)) = 1%nat) /\
  (serverStarted s = false ->
     listener s = NotListening /\ sockets s = [] /\ currentSocket s = None /\
     tcpBuffer s = [] /\ tcpBytes (stats s) = 0 /\ tcpConnects (stats s) = 0 /\
     framesOf (trace s) = [] /\ writesOf (trace s) = []).
Proof.
  intros cfg s H. pose proof (reachable_server cfg s H) as Hi.
  unfold serverInv in Hi. destruct (serverStarted s) eqn:E.
  - rewrite Hi. split; [lia|]. split; [tauto|discriminate].
  - unfold serverView in Hi. rewrite E in Hi.
    injection Hi as H2 H3 H4 H5 H6 H7 H8 H9 H10.
    rewrite H2. split; [simpl; lia|]. split; [split; discriminate|].
    intros _. repeat split; assumption.
Qed.

Lemma server_listens_once_witness :
  exists s,
    run cfg0 pausedRun (initial 0 port0) = Some s /\
    reachable cfg0 s /\
    listensOf (trace s) = [1010] /\
    (serverStarted s = true <-> List.length (listensOf (trace s)) = 1%nat).
Proof.
  destruct pausedRun_server as (s & Hrun & _ & Hl). exists s.
  assert (Hreach : reachable cfg0 s)
    by (eapply run_reachable; [apply reachable_initial|exact Hrun]).
  split; [exact Hrun|]. split; [exact Hreach|]. split; [exact Hl|].
  apply (proj1 (proj2 (server_listens_once cfg0 s Hreach))).
Defined.

(** ** What ends the process *)

Lemma calm_weaken : forall (A : Type) (p : Async A) b, Calm false p -> Calm b p.
Proof.
  intros A p b H. remember false as c eqn:Ec. revert b.
  induction H as [c a|e|e|c r k H1 IH1 H2 IH2|c ms body H IH|c act k H IH];
    intros b'; try discriminate; constructor; auto.
Qed.

Lemma sound_calm : forall (A : Type) (p : Async A) b, Sound p -> Calm b p.
Proof.
  intros A p b H. revert b. induction H; intros b; constructor; auto.
Qed.

Lemma calm_bind : forall (A B : Type) (m : Async A) (f : A -> Async B) b,
  Calm b m -> (forall a, Calm false (f a)) -> Calm b (bind m f).
Proof.
  intros A B m f b Hm Hf.
  induction Hm as [c a|e|e|c r k H1 IH1 H2 IH2|c ms body H IH|c act k H IH];
    simpl; try (constructor; auto; fail).
  apply calm_weaken. apply Hf.
Qed.

Lemma calm_pcatch : forall (A : Type) (m : Async A) h b,
  Calm b m -> (forall e, Calm false (h e)) -> Calm b (pcatch m h).
Proof.
  intros A m h b Hm Hh.
  induction Hm as [c a|e|e|c r k H1 IH1 H2 IH2|c ms body H IH|c act k H IH];
    simpl; try (constructor; auto; fail).
  apply calm_weaken. apply Hh.
Qed.

Lemma calm_detached : forall (A : Type) (m : Async A) b,
  Calm b m -> Calm b (detached m).
Proof.
  intros A m b Hm.
  induction Hm as [c a|e|e|c r k H1 IH1 H2 IH2|c ms body H IH|c act k H IH];
    simpl; constructor; auto.
Qed.

Lemma calm_fetch : forall r b, Calm b (fetch r).
Proof. intros r b. constructor; intros; constructor. Qed.

Lemma calm_httpJson : forall u body b, Calm b (httpJson u body).
Proof.
  intros. unfold httpJson. apply calm_bind; [apply calm_fetch|constructor].
Qed.

Lemma calm_httpGet : forall u b, Calm b (httpGet u).
Proof.
  intros. unfold httpGet. apply calm_bind; [apply calm_fetch|constructor].
Qed.

Lemma calm_sendShieldCommand : forall cfg cmd b, Calm b (sendShieldCommand cfg cmd).
Proof.
  intros. unfold sendShieldCommand. apply calm_bind; [apply calm_httpJson|].
  intros r. destruct (ok r); [constructor|].
  apply calm_bind; [apply calm_fetch|constructor].
Qed.

Lemma calm_stopStream : forall cfg b, Calm b (stopStream cfg).
Proof.
  intros. unfold stopStream. constructor.
  apply calm_bind; [apply calm_httpGet|constructor].
Qed.

Lemma calm_forOf : forall (A : Type) (l : list A) body,
  (forall x, Calm false (body x)) -> Calm false (forOf l body).
Proof.
  intros A l body H. induction l as [|x l IH]; simpl; [constructor|].
  apply calm_bind; auto.
Qed.

Lemma calm_startStream : forall cfg, Calm false (startStream cfg).
Proof.
  intros. unfold startStream. constructor.
  apply calm_bind; [apply calm_stopStream|]. intros _.
  apply calm_bind.
  { destruct (truthy (initCmd cfg)); [|constructor].
    apply calm_bind; [apply calm_sendShieldCommand|constructor]. }
  intros _. apply calm_bind.
  { destruct (channelCmds cfg); [constructor|].
    apply calm_forOf. intros c.
    apply calm_bind; [apply calm_sendShieldCommand|constructor]. }
  intros _. constructor. apply calm_detached.
  apply calm_bind; [apply calm_httpGet|constructor].
Qed.

Lemma calm_onListening : forall cfg, Calm false (onListening cfg).
Proof.
  intros. unfold onListening, configureShieldTcp. apply calm_detached.
  apply calm_bind; [|constructor].
  apply calm_bind; [apply calm_httpJson|].
  intros r. destruct (negb (ok r)); [|constructor].
  apply calm_bind; [apply calm_httpJson|constructor].
Qed.

Lemma sound_stopTrigger : forall cfg,
  Sound (pcatch (_ <- stopStream cfg ;; Ret tt) (fun _ => Ret tt)).
Proof.
  intros cfg. destruct (stopTrigger_shape cfg) as (k & -> & Hk).
  constructor. constructor. intros x. rewrite Hk. constructor.
Qed.

Lemma advance_tasks : forall p now w s,
  tasks (snd (advance now w p s)) = tasks s.
Proof.
  induction p as [a|e|e|r k IH|ms body IH|a k IH]; intros now w s; simpl;
    try reflexivity.
  rewrite IH. destruct a; reflexivity.
Qed.

Lemma advance_sound : forall p,
  Sound p ->
  forall now w s,
  halted (snd (advance now w p s)) = halted s /\
  TaskSound (fst (advance now w p s)).
Proof.
  intros p H. induction H as [a|r k H IH|ms body H IH|a k H IH]; intros now w s;
    simpl.
  - split; [reflexivity|constructor].
  - split; [reflexivity|exact H].
  - split; [reflexivity|exact H].
  - destruct (IH now w (perform a now s)) as [E T].
    split; [|exact T]. rewrite E. destruct a; reflexivity.
Qed.

Lemma advance_calm : forall p b,
  Calm b p ->
  forall now w s,
  (halted (snd (advance now w p s)) = halted s /\
   TaskCalm (fst (advance now w p s))) \/
  (b = true /\ halted (snd (advance now w p s)) = true).
Proof.
  intros p b H.
  induction H as [c a|e|e|c r k H1 IH1 H2 IH2|c ms body H IH|c act k H IH];
    intros now w s; simpl.
  - left. split; [reflexivity|constructor].
  - right. split; reflexivity.
  - right. split; reflexivity.
  - left. split; [reflexivity|]. split; assumption.
  - left. split; [reflexivity|exact H].
  - destruct (IH now w (perform act now s)) as [[E T]|[E T]].
    + left. split; [|exact T]. rewrite E. destruct act; reflexivity.
    + right. split; assumption.
Qed.

Lemma dropTask_ok : forall w l, Forall taskOk l -> Forall taskOk (dropTask w l).
Proof.
  intros w l H. unfold dropTask. induction H as [|x l Hx H IH]; simpl.
  - constructor.
  - destruct (negb (who_eqb w (fst x))); [constructor|]; assumption.
Qed.

Lemma storeTask_ok : forall w t s,
  w <> Queue -> taskOk (w, t) -> Forall taskOk (tasks s) ->
  Forall taskOk (tasks (storeTask w t s)) /\
  halted (storeTask w t s) = halted s.
Proof.
  intros w t s Hw Ht Hs.
  pose proof (dropTask_ok w (tasks s) Hs) as Hd.
  destruct w; [contradiction| | |]; destruct t; cbn [storeTask tasks set_tasks];
    (split; [|reflexivity]); first [exact Hd|constructor; assumption].
Qed.

(** Running a promise other than the queue. *)
Lemma runTask_ok : forall now w p s b,
  w <> Queue ->
  (match w with Stop _ => Sound p | _ => Calm b p end) ->
  Forall taskOk (tasks s) ->
  (halted (runTask now w p s) = halted s /\
   Forall taskOk (tasks (runTask now w p s))) \/
  (b = true /\ (forall n, w <> Stop n) /\ halted (runTask now w p s) = true).
Proof.
  intros now w p s b Hw Hp Hs. unfold runTask.
  pose proof (advance_tasks p now w s) as Hk.
  assert (Hs1 : Forall taskOk (tasks (snd (advance now w p s))))
    by (rewrite Hk; exact Hs).
  assert (Hst : forall t, halted (storeTask w t (snd (advance now w p s))) =
                          halted (snd (advance now w p s)))
    by (intros t; destruct w, t; reflexivity).
  destruct w as [|n|n|]; [contradiction| | |].
  - destruct (advance_calm p b Hp now (Begin n) s) as [[E T]|[E T]].
    + left. destruct (storeTask_ok (Begin n) _ _ Hw T Hs1) as [H1 H2].
      split; [rewrite H2; exact E|exact H1].
    + right. split; [exact E|]. split; [discriminate|]. rewrite Hst. exact T.
  - destruct (advance_sound p Hp now (Stop n) s) as [E T].
    left. destruct (storeTask_ok (Stop n) _ _ Hw T Hs1) as [H1 H2].
    split; [rewrite H2; exact E|exact H1].
  - destruct (advance_calm p b Hp now Configure s) as [[E T]|[E T]].
    + left. destruct (storeTask_ok Configure _ _ Hw T Hs1) as [H1 H2].
      split; [rewrite H2; exact E|exact H1].
    + right. split; [exact E|]. split; [discriminate|]. rewrite Hst. exact T.
Qed.

Lemma assoc_ok : forall w l t,
  Forall taskOk l -> assoc w l = Some t -> w <> Queue -> taskOk (w, t).
Proof.
  intros w l t H. induction H as [|[w' t'] l Hx H IH]; simpl; [discriminate|].
  destruct (who_eqb w w') eqn:E; [|exact IH].
  intros Et Hw. injection Et as <-.
  destruct w, w'; try discriminate; try contradiction; exact Hx.
Qed.

Ltac hview_tac := unfold haltView; simpl; reflexivity.

Lemma writeToSerial_haltView : forall now data s,
  haltView (writeToSerial now data s) = haltView s.
Proof.
  intros now data s. unfold writeToSerial.
  destruct (writable (serial s)); simpl; [|reflexivity].
  destruct (currentSocket s); simpl; [|hview_tac].
  destruct (hd true (writeResults (serial s))),
           (pausedBySerialBackpressure s); hview_tac.
Qed.

Lemma loopBody_haltView : forall now s,
  haltView (snd (loopBody now s)) = haltView s.
Proof.
  intros now s. unfold loopBody.
  repeat match goal with
         | |- context [if ?c then _ else _] => destruct c
         end; try reflexivity.
  cbn [snd].
  match goal with
  | |- context [writeToSerial ?n ?d ?x] =>
      pose proof (writeToSerial_haltView n d x) as H;
      set (s2 := writeToSerial n d x) in *
  end.
  unfold haltView in *. simpl in *. rewrite H. reflexivity.
Qed.

Lemma whileLoop_haltView : forall fuel now s,
  haltView (whileLoop fuel now s) = haltView s.
Proof.
  induction fuel as [|fuel IH]; intros now s; [reflexivity|].
  rewrite whileLoop_S.
  destruct (33 <=? List.length (tcpBuffer s))%nat; [|reflexivity].
  pose proof (loopBody_haltView now s) as H.
  destruct (loopBody now s) as [[|] s']; cbn [snd] in H; [|assumption].
  rewrite IH. assumption.
Qed.

Lemma feedByte_haltView : forall cfg now b s,
  haltView (feedByte cfg now b s) = haltView s.
Proof.
  intros cfg now b s. unfold feedByte.
  repeat match goal with
         | |- context [if ?c then _ else _] => destruct c
         end; reflexivity.
Qed.

Lemma fold_haltView : forall (f : State -> byte -> State) buf s,
  (forall s b, haltView (f s b) = haltView s) ->
  haltView (fold_left f buf s) = haltView s.
Proof.
  intros f buf. induction buf as [|b buf IH]; intros s Hf; simpl.
  - reflexivity.
  - rewrite IH by assumption. apply Hf.
Qed.

Lemma serialOnData_haltView : forall cfg now buf s,
  haltView (serialOnData cfg now buf s) = haltView s.
Proof.
  intros cfg now buf s. unfold serialOnData, feedCmdBytes.
  rewrite fold_haltView.
  - rewrite fold_haltView; [reflexivity|]. intros; apply feedByte_haltView.
  - intros s' b. unfold triggerByte.
    destruct (Byte.eqb b x62), (Byte.eqb b x73); reflexivity.
Qed.

Lemma haltView_parts : forall s s',
  haltView s' = haltView s -> halted s' = halted s /\ tasks s' = tasks s.
Proof.
  intros s s' H. split; [exact (f_equal fst H)|exact (f_equal snd H)].
Qed.

(** A callback either leaves the process alive and its promises in
    order, or ends it; and it ends it only on a fatal event. *)
Lemma react_live : forall cfg now e s,
  queueInv cfg s ->
  Forall taskOk (tasks s) ->
  (halted (react cfg now e s) = halted s /\
   Forall taskOk (tasks (react cfg now e s))) \/
  (halted (react cfg now e s) = true /\ fatal cfg s e).
Proof.
  intros cfg now e s Hq Hs.
  assert (Hv : forall s', haltView s' = haltView s ->
                 (halted s' = halted s /\ Forall taskOk (tasks s')) \/
                 (halted s' = true /\ fatal cfg s e)).
  { intros s' H. destruct (haltView_parts s s' H) as [-> ->]. left. auto. }
  destruct e as [sock|sock chunk|sock|buf| |p|id|w r| | ]; cbn [react].
  - apply Hv. reflexivity.
  - apply Hv. unfold socketOnData, processTcpBuffer.
    rewrite whileLoop_haltView. reflexivity.
  - apply Hv. unfold socketOnClose. cbn [currentSocket set_sockets].
    destruct (currentSocket s) as [c|]; [|reflexivity].
    destruct (Nat.eqb c sock); reflexivity.
  - apply Hv. apply serialOnData_haltView.
  - apply Hv. unfold serialOnDrain. destruct (currentSocket s); [|reflexivity].
    destruct (pausedBySerialBackpressure s); reflexivity.
  - apply Hv. reflexivity.
  - (* a timer *)
    destruct (findTimer id s) as [tm|] eqn:Hf; [|left; auto].
    assert (Hd : Forall taskOk (tasks (dropTimer id s))) by exact Hs.
    destruct (tm_cb tm) as [| |w] eqn:Hcb; cbn [fire].
    + assert (Hst : (fst (startServer cfg now (dropTimer id s)) = Returns /\
                     haltView (snd (startServer cfg now (dropTimer id s))) =
                       haltView s) \/
                    (fst (startServer cfg now (dropTimer id s)) = Throws /\
                     serverStarted s = false /\
                     validPort (tcpPort cfg) = false)).
      { unfold startServer, listen. cbn [serverStarted dropTimer set_timers].
        destruct (serverStarted s); [left; split; reflexivity|].
        destruct (validPort (tcpPort cfg)); [left; split; reflexivity|].
        right. repeat split. }
      destruct (startServer cfg now (dropTimer id s)) as [en s1].
      cbn [fst snd] in Hst. destruct Hst as [[-> Hv1]|(-> & Hn & Hp)].
      * destruct (haltView_parts s s1 Hv1) as [Hh1 Ht1].
        destruct (runTask_ok now (Begin (nextTask s1))
                    (pcatch (_ <- startStream cfg ;; Ret tt) (fun _ => Ret tt))
                    (set_nextTask (S (nextTask s1)) s1) false)
          as [[E T]|[E _]]; [discriminate| | | |discriminate].
        -- apply calm_pcatch; [|constructor].
           apply calm_bind; [apply calm_startStream|constructor].
        -- cbn [tasks set_nextTask]. rewrite Ht1. exact Hs.
        -- left. split; [|exact T]. rewrite E. exact Hh1.
      * right. split; [reflexivity|]. right. right.
        exists id, tm. repeat split; assumption.
    + destruct (runTask_ok now (Stop (nextTask (dropTimer id s)))
                  (pcatch (_ <- stopStream cfg ;; Ret tt) (fun _ => Ret tt))
                  (set_nextTask (S (nextTask (dropTimer id s))) (dropTimer id s))
                  false)
        as [[E T]|[E _]]; [discriminate|apply sound_stopTrigger|exact Hs| |discriminate].
      left. split; [rewrite E; reflexivity|exact T].
    + destruct (lookupTask w (dropTimer id s)) as [[q|k|body]|] eqn:Hl;
        try (left; split; [reflexivity|exact Hs]).
      destruct w as [|n|n|].
      * cbn [lookupTask cmdQ dropTimer set_timers] in Hl. injection Hl as Hl.
        destruct Hq as (waiting & Hp & _). rewrite Hl in Hp. contradiction.
      * pose proof (assoc_ok (Begin n) _ _ Hs Hl ltac:(discriminate)) as Ho.
        destruct (runTask_ok now (Begin n) body (dropTimer id s) false)
          as [[E T]|[E _]]; [discriminate|exact Ho|exact Hs| |discriminate].
        left. split; [rewrite E; reflexivity|exact T].
      * pose proof (assoc_ok (Stop n) _ _ Hs Hl ltac:(discriminate)) as Ho.
        destruct (runTask_ok now (Stop n) body (dropTimer id s) false)
          as [[E T]|[E _]]; [discriminate|exact Ho|exact Hs| |discriminate].
        left. split; [rewrite E; reflexivity|exact T].
      * pose proof (assoc_ok Configure _ _ Hs Hl ltac:(discriminate)) as Ho.
        destruct (runTask_ok now Configure body (dropTimer id s) false)
          as [[E T]|[E _]]; [discriminate|exact Ho|exact Hs| |discriminate].
        left. split; [rewrite E; reflexivity|exact T].
  - (* a request settles *)
    destruct (lookupTask w s) as [[q|k|body]|] eqn:Hl; try (left; auto; fail).
    destruct w as [|n|n|].
    + cbn [lookupTask] in Hl. injection Hl as Hl.
      destruct Hq as (waiting & Hp & _). rewrite Hl in Hp. cbn [TaskPlan] in Hp.
      destruct (advance_queue cfg (k r) waiting (Hp r) now s)
        as (new & rest & _ & _ & _ & _ & _ & _ & H7 & _).
      left. unfold runTask. cbn [storeTask halted tasks set_cmdQ].
      rewrite advance_tasks. auto.
    + pose proof (assoc_ok (Begin n) _ _ Hs Hl ltac:(discriminate)) as [Ho1 Ho2].
      destruct r as [resp|err].
      * destruct (runTask_ok now (Begin n) (k (Responded resp)) s false)
          as [[E T]|[E _]]; [discriminate|apply Ho1|exact Hs| |discriminate].
        left. auto.
      * destruct (runTask_ok now (Begin n) (k (Failed err)) s true)
          as [[E T]|(_ & _ & T)]; [discriminate|apply Ho2|exact Hs| |].
        -- left. auto.
        -- right. split; [exact T|]. right. left. exists (Begin n), err. eauto.
    + pose proof (assoc_ok (Stop n) _ _ Hs Hl ltac:(discriminate)) as Ho.
      destruct (runTask_ok now (Stop n) (k r) s false)
        as [[E T]|[E _]]; [discriminate|apply Ho|exact Hs| |discriminate].
      left. auto.
    + pose proof (assoc_ok Configure _ _ Hs Hl ltac:(discriminate)) as [Ho1 Ho2].
      destruct r as [resp|err].
      * destruct (runTask_ok now Configure (k (Responded resp)) s false)
          as [[E T]|[E _]]; [discriminate|apply Ho1|exact Hs| |discriminate].
        left. auto.
      * destruct (runTask_ok now Configure (k (Failed err)) s true)
          as [[E T]|(_ & _ & T)]; [discriminate|apply Ho2|exact Hs| |].
        -- left. auto.
        -- right. split; [exact T|]. right. left. exists Configure, err. eauto.
  - destruct (runTask_ok now Configure (onListening cfg) (set_listener Listening s)
                false)
      as [[E T]|[E _]]; [discriminate|apply calm_onListening|exact Hs| |discriminate].
    left. auto.
  - right. split; [reflexivity|]. left. reflexivity.
Qed.

Lemma pump_tasks : forall now s, tasks (pump now s) = tasks s.
Proof.
  intros now s. unfold pump. destruct (cmdQ s) as [p| |]; try reflexivity.
  unfold runTask. cbn [storeTask tasks set_cmdQ]. apply advance_tasks.
Qed.

Lemma handle_live : forall cfg now e s s',
  reachable cfg s ->
  handle cfg now e s = Some s' ->
  (halted s = false -> Forall taskOk (tasks s)) ->
  (halted s' = false -> Forall taskOk (tasks s')) /\
  (halted s' = true -> fatal cfg s e).
Proof.
  intros cfg now e s s' Hr Hh Hi.
  pose proof (reachable_queue cfg s Hr) as Hq.
  destruct (handle_queue cfg now e s s' Hq Hh) as (_ & Hhalt & _).
  apply handle_inv in Hh. destruct Hh as [Hen ->].
  destruct (enabled_parts now e s Hen) as [Hl _].
  rewrite pump_tasks. rewrite Hhalt.
  destruct (react_live cfg now e (set_clock now s) Hq (Hi Hl)) as [[E T]|[E F]].
  - cbn [halted set_clock] in E. rewrite E, Hl.
    split; [intros _; exact T|discriminate].
  - rewrite E. split; [discriminate|intros _; exact F].
Qed.

Lemma reachable_live : forall cfg s,
  reachable cfg s -> halted s = false -> Forall taskOk (tasks s).
Proof.
  intros cfg s H. induction H as [t0 port|s now e s' Hr IH Hh].
  - intros _. constructor.
  - apply (handle_live cfg now e s s' Hr Hh IH).
Qed.

Lemma startRefusedRun_halts :
  exists s s',
    run cfg0 (firstn 6 startRefusedRun) (initial 0 port0) = Some s /\
    handle cfg0 2030 (FetchSettles (Begin 0) (Failed "ECONNREFUSED")) s = Some s' /\
    halted s' = true.
Proof.
  eexists. eexists. split; [vm_compute; reflexivity|].
  split; [vm_compute; reflexivity|].
  reflexivity.
Qed.

(** X22.  What can end the process.  From a reachable state, a turn of
    the event loop ends the process only in three cases: an error of the
    TCP server; a transport failure of a request of the listen callback or
    of a begin sequence; the timer of a 'b' byte that finds the server not
    started while the TCP port is outside 0..65535, where [server.listen]
    throws.  Nothing that arrives on the serial port or on a socket, no
    other timer, no answer of whatever HTTP status, no failure of a
    command of the queue and no failure of a stop call ends it. *)
Theorem only_failures_end_the_process : forall cfg s now e s',
  reachable cfg s ->
  handle cfg now e s = Some s' ->
  halted s' = true ->
  e = ServerError \/
  (exists w err,
     e = FetchSettles w (Failed err) /\
     (w = Configure \/ exists n, w = Begin n)) \/
  (exists id tm,
     e = TimerFires id /\ findTimer id s = Some tm /\ tm_cb tm = CbBegin /\
     serverStarted s = false /\ validPort (tcpPort cfg) = false).
Proof.
  intros cfg s now e s' Hr Hh Hd.
  apply (proj2 (handle_live cfg now e s s' Hr Hh (reachable_live cfg s Hr)) Hd).
Qed.

Lemma badPort_halts :
  exists s s',
    run cfgBadPort triggerRun (initial 0 port0) = Some s /\
    handle cfgBadPort 1010 (TimerFires 0) s = Some s' /\
    halted s' = true.
Proof.
  eexists. eexists. split; [vm_compute; reflexivity|].
  split; [vm_compute; reflexivity|].
  reflexivity.
Qed.

(** The begin sequence when the network refuses the start-stream request:
    the rejection arises inside the timer callback of [startStream], out of
    reach of the [catch] of the trigger, and the process ends.  And the
    timer of a 'b' byte with a TCP port of 70000: [server.listen] throws
    and the process ends. *)
Lemma only_failures_end_the_process_witness :
  (exists s s',
     run cfg0 (firstn 6 startRefusedRun) (initial 0 port0) = Some s /\
     handle cfg0 2030 (FetchSettles (Begin 0) (Failed "ECONNREFUSED")) s = Some s' /\
     halted s' = true /\
     exists w err,
       FetchSettles (Begin 0) (Failed "ECONNREFUSED") = FetchSettles w (Failed err) /\
       (w = Configure \/ exists n, w = Begin n)) /\
  (exists s s',
     run cfgBadPort triggerRun (initial 0 port0) = Some s /\
     handle cfgBadPort 1010 (TimerFires 0) s = Some s' /\
     halted s' = true /\
     exists id tm,
       TimerFires 0 = TimerFires id /\ findTimer id s = Some tm /\
       tm_cb tm = CbBegin /\
       serverStarted s = false /\ validPort (tcpPort cfgBadPort) = false).
Proof.
  split.
  - destruct startRefusedRun_halts as (s & s' & Hrun & Hh & Hd). exists s, s'.
    assert (Hreach : reachable cfg0 s)
      by (eapply run_reachable; [apply reachable_initial|exact Hrun]).
    split; [exact Hrun|]. split; [exact Hh|]. split; [exact Hd|].
    destruct (only_failures_end_the_process cfg0 s 2030 _ s' Hreach Hh Hd)
      as [H|[H|(id & tm & H & _)]]; [discriminate H|exact H|discriminate H].
  - destruct badPort_halts as (s & s' & Hrun & Hh & Hd). exists s, s'.
    assert (Hreach : reachable cfgBadPort s)
      by (eapply run_reachable; [apply reachable_initial|exact Hrun]).
    split; [exact Hrun|]. split; [exact Hh|]. split; [exact Hd|].
    destruct (only_failures_end_the_process cfgBadPort s 1010 _ s' Hreach Hh Hd)
      as [H|[(w & err & H & _)|H]]; [discriminate H|discriminate H|exact H].
Defined.

(** ** Command line and environment *)

Lemma indexOfArg_absent : forall x argv i,
  ~ In x argv -> indexOfArg x argv i = -1.
Proof.
  intros x argv. induction argv as [|a argv IH]; intros i H; [reflexivity|].
  cbn [indexOfArg]. destruct (String.eqb a x) eqn:E.
  - apply String.eqb_eq in E. subst a. exfalso. apply H. left. reflexivity.
  - apply IH. intros Hin. apply H. right. exact Hin.
Qed.

Lemma indexOfArg_first : forall x pre rest i,
  ~ In x pre ->
  indexOfArg x (pre ++ x :: rest) i = i + Z.of_nat (List.length pre).
Proof.
  intros x pre. induction pre as [|a pre IH]; intros rest i H.
  - cbn [app indexOfArg List.length]. rewrite String.eqb_refl. simpl. lia.
  - cbn [app indexOfArg]. destruct (String.eqb a x) eqn:E.
    + apply String.eqb_eq in E. subst a. exfalso. apply H. left. reflexivity.
    + rewrite IH by (intros Hin; apply H; right; exact Hin).
      cbn [List.length]. lia.
Qed.

Lemma arg_absent : forall argv name def,
  ~ In ("--" ++ name)%string argv -> arg argv name def = def.
Proof.
  intros argv name def H. unfold arg.
  rewrite indexOfArg_absent by exact H. reflexivity.
Qed.

Lemma arg_present : forall pre rest name def,
  ~ In ("--" ++ name)%string pre ->
  arg (pre ++ ("--" ++ name)%string :: rest) name def =
    match rest with
    | [] => Bool true
    | v :: _ => if negb (truthy v) || prefix "--" v then Bool true else Str v
    end.
Proof.
  intros pre rest name def H. unfold arg.
  rewrite indexOfArg_first by exact H.
  assert (E : (0 + Z.of_nat (List.length pre) =? -1) = false)
    by (apply Z.eqb_neq; lia).
  rewrite E.
  replace (Z.to_nat (0 + Z.of_nat (List.length pre) + 1))
    with (List.length pre + 1)%nat by lia.
  rewrite nth_error_app2 by lia.
  replace (List.length pre + 1 - List.length pre)%nat with 1%nat by lia.
  destruct rest; reflexivity.
Qed.

(** X23.  [arg] reads the argument that follows the first occurrence of
    the flag.  Without the flag it gives the default.  With the flag the
    default is out of play: the result is the next argument when there is
    one, not empty and not starting with "--", and [true] otherwise. *)
Theorem arg_reads_first_flag : forall name def pre rest argv,
  (~ In ("--" ++ name)%string argv -> arg argv name def = def) /\
  (~ In ("--" ++ name)%string pre ->
   arg (pre ++ ("--" ++ name)%string :: rest) name def =
     match rest with
     | [] => Bool true
     | v :: _ => if negb (truthy v) || prefix "--" v then Bool true else Str v
     end).
Proof.
  intros name def pre rest argv. split; intros H.
  - apply arg_absent. exact H.
  - apply arg_present. exact H.
Qed.

Lemma arg_reads_first_flag_witness :
  arg ["node"; "bridge.js"; "--serial"; "COM7"; "--init"; "--verbose"] "init"
      (Str "/0") = Bool true /\
  arg ["node"; "bridge.js"; "--serial"; "COM7"; "--init"; "--verbose"] "serial"
      Undefined = Str "COM7".
Proof.
  split.
  - apply (proj2 (arg_reads_first_flag "init" (Str "/0")
                    ["node"; "bridge.js"; "--serial"; "COM7"] ["--verbose"] [])).
    simpl. intros [H|[H|[H|[H|[]]]]]; discriminate.
  - apply (proj2 (arg_reads_first_flag "serial" Undefined
                    ["node"; "bridge.js"] ["COM7"; "--init"; "--verbose"] [])).
    simpl. intros [H|[H|[]]]; discriminate.
Defined.

(** X24.  Where the initialization command comes from.  It is always
    trimmed.  Without the flag --init it is the trimmed value of INIT_CMD,
    or empty when that is not set.  With the flag, INIT_CMD is out of
    play: the command is the trimmed argument after the flag, and it is the
    text "true" when no argument follows, or an empty one, or one that
    starts with "--". *)
Theorem init_command_sources : forall argv env pre rest,
  trim (initCmdOf argv env) = initCmdOf argv env /\
  (~ In "--init" argv ->
   initCmdOf argv env =
     trim (match env "INIT_CMD" with Some v => v | None => "" end)) /\
  (~ In "--init" pre ->
   initCmdOf (pre ++ "--init" :: rest) env =
     match rest with
     | [] => "true"
     | v :: _ => if negb (truthy v) || prefix "--" v then "true" else trim v
     end).
Proof.
  intros argv env pre rest. split; [apply trim_idem|]. split; intros H.
  - unfold initCmdOf.
    rewrite (arg_absent argv "init" _ H).
    unfold getenv. destruct (env "INIT_CMD") as [v|]; cbn [nullish].
    + unfold orElse. cbn [truthyValue]. destruct v; reflexivity.
    + reflexivity.
  - unfold initCmdOf.
    rewrite (arg_present pre rest "init" _ H).
    destruct rest as [|v rest]; [reflexivity|].
    destruct (negb (truthy v) || prefix "--" v) eqn:E; [reflexivity|].
    apply orb_false_iff in E. destruct E as [E _].
    apply negb_false_iff in E.
    unfold orElse. cbn [truthyValue]. rewrite E. reflexivity.
Qed.

Lemma init_command_sources_witness :
  initCmdOf ["node"; "bridge.js"; "--verbose"] envGap = "/0" /\
  initCmdOf ["node"; "bridge.js"; "--init"; " /0d~6 "] envGap = "/0d~6" /\
  initCmdOf ["node"; "bridge.js"; "--init"] envGap = "true".
Proof.
  split; [|split].
  - apply (proj1 (proj2 (init_command_sources
                           ["node"; "bridge.js"; "--verbose"] envGap [] []))).
    simpl. intros [H|[H|[H|[]]]]; discriminate.
  - apply (proj2 (proj2 (init_command_sources [] envGap
                           ["node"; "bridge.js"] [" /0d~6 "]))).
    simpl. intros [H|[H|[]]]; discriminate.
  - apply (proj2 (proj2 (init_command_sources [] envGap
                           ["node"; "bridge.js"] []))).
    simpl. intros [H|[H|[]]]; discriminate.
Defined.

Lemma channelsFrom_spec : forall env turns i,
  let l := channelsFrom env turns i in
  List.map fst l = seq i (List.length l) /\
  (List.length l <= turns)%nat /\
  (forall j, (j < List.length l)%nat ->
     exists v, env (channelKey (i + j)) = Some v /\
               truthy (trim v) = true /\
               nth_error l j = Some ((i + j)%nat, trim v)) /\
  ((List.length l < turns)%nat -> blank env (channelKey (i + List.length l))).
Proof.
  intros env turns. induction turns as [|turns IH]; intros i.
  - cbn. split; [reflexivity|]. split; [lia|].
    split; [intros j Hj; inversion Hj|intros H; inversion H].
  - cbn [channelsFrom]. unfold blank.
    destruct (env (channelKey i)) as [v|] eqn:Ev.
    + cbv zeta. destruct (truthy (trim v)) eqn:Et.
      * destruct (IH (S i)) as (H1 & H2 & H3 & H4).
        cbv zeta in H1, H2, H3, H4.
        set (l := channelsFrom env turns (S i)) in *.
        cbn [List.map fst List.length seq].
        split; [rewrite H1; reflexivity|]. split; [lia|]. split.
        -- intros [|j] Hj.
           ++ exists v. rewrite Nat.add_0_r. auto.
           ++ destruct (H3 j ltac:(lia)) as (v' & A & B & C).
              exists v'. replace (i + S j)%nat with (S i + j)%nat by lia. auto.
        -- intros Hl. replace (i + S (List.length l))%nat
             with (S i + List.length l)%nat by lia.
           apply H4. lia.
      * cbn [List.map List.length seq]. split; [reflexivity|]. split; [lia|].
        split; [intros j Hj; inversion Hj|].
        intros _. rewrite Nat.add_0_r, Ev. exact Et.
    + cbn [List.map List.length seq]. split; [reflexivity|]. split; [lia|].
      split; [intros j Hj; inversion Hj|].
      intros _. rewrite Nat.add_0_r, Ev. exact I.
Qed.

(** X25.  The channel commands are read from CH1, CH2, ... up to the
    first variable that is not set or is blank, and no further than CH32.
    The result holds the channels 1 to n in order, each with the trimmed
    value of its variable, which is not empty; CH(n+1) is not set or blank
    unless n is 32.  So a variable behind a gap is never read. *)
Theorem channel_commands_stop_at_first_gap : forall env,
  let l := readChannelCmdsFromEnv env in
  List.map fst l = seq 1 (List.length l) /\
  (List.length l <= 32)%nat /\
  (forall i, (1 <= i <= List.length l)%nat ->
     exists v, env (channelKey i) = Some v /\
               truthy (trim v) = true /\
               nth_error l (i - 1) = Some (i, trim v)) /\
  ((List.length l < 32)%nat -> blank env (channelKey (S (List.length l)))) /\
  (forall k, (1 <= k)%nat -> blank env (channelKey k) ->
     (List.length l < k)%nat).
Proof.
  intros env l.
  destruct (channelsFrom_spec env 32 1) as (H1 & H2 & H3 & H4).
  cbv zeta in H1, H2, H3, H4. fold (readChannelCmdsFromEnv env) in H1, H2, H3, H4.
  fold l in H1, H2, H3, H4.
  assert (H3' : forall i, (1 <= i <= List.length l)%nat ->
            exists v, env (channelKey i) = Some v /\
                      truthy (trim v) = true /\
                      nth_error l (i - 1) = Some (i, trim v)).
  { intros i Hi. destruct (H3 (i - 1)%nat ltac:(lia)) as (v & A & B & C).
    replace (1 + (i - 1))%nat with i in A, C by lia. eauto. }
  split; [exact H1|]. split; [exact H2|]. split; [exact H3'|]. split.
  - intros Hl. apply (H4 Hl).
  - intros k Hk Hb.
    destruct (Nat.lt_ge_cases (List.length l) k) as [Hlt|Hge]; [exact Hlt|].
    destruct (H3' k ltac:(lia)) as (v & A & B & _).
    unfold blank in Hb. rewrite A in Hb. congruence.
Qed.

Lemma channel_commands_stop_at_first_gap_witness :
  readChannelCmdsFromEnv envGap = [(1%nat, "x1060110X"); (2%nat, "x2060110X")] /\
  (List.length (readChannelCmdsFromEnv envGap) < 3)%nat.
Proof.
  split; [reflexivity|].
  apply (proj2 (proj2 (proj2 (proj2
           (channel_commands_stop_at_first_gap envGap)))) 3%nat);
    [lia|exact I].
Defined.

(** ** The end of the loop, the overflow of the accumulator *)

Lemma whileLoop_length : forall fuel now s,
  (List.length (tcpBuffer (whileLoop fuel now s)) <= List.length (tcpBuffer s))%nat.
Proof.
  induction fuel as [|fuel IH]; intros now s; [simpl; lia|]. rewrite whileLoop_S.
  destruct (33 <=? List.length (tcpBuffer s))%nat eqn:Hlen; [|lia].
  apply Nat.leb_le in Hlen.
  pose proof (loopBody_shrinks now s Hlen) as Hs.
  pose proof (loopBody_returns now s Hlen) as Hr.
  destruct (loopBody now s) as [[|] s']; cbn [fst snd] in *.
  - specialize (Hs eq_refl). specialize (IH now s'). lia.
  - rewrite (Hr eq_refl). simpl. lia.
Qed.

(** X26.  The [while] loop of [processTcpBuffer] ends by itself: every
    turn that continues shortens the buffer, so the loop takes at most as
    many turns as there are bytes, and more turns than that change
    nothing.  The call never lengthens the buffer, and a second call right
    after it does nothing. *)
Theorem reassembly_loop_terminates : forall now s,
  (forall fuel,
     (List.length (tcpBuffer s) < fuel)%nat ->
     whileLoop fuel now s = processTcpBuffer now s) /\
  (List.length (tcpBuffer (processTcpBuffer now s))
   <= List.length (tcpBuffer s))%nat /\
  processTcpBuffer now (processTcpBuffer now s) = processTcpBuffer now s.
Proof.
  intros now s. split; [|split].
  - intros fuel Hf. unfold processTcpBuffer. apply whileLoop_fuel; lia.
  - apply whileLoop_length.
  - apply processTcpBuffer_short. unfold processTcpBuffer.
    apply whileLoop_exits. lia.
Qed.

Lemma reassembly_loop_terminates_witness :
  let s := set_tcpBuffer (x01 :: frameWith xc0 ++ frameWith x07 ++ [xa0])
                         (initial 0 port0) in
  whileLoop 1000 5 s = processTcpBuffer 5 s /\
  tcpBuffer (processTcpBuffer 5 s) = [xa0].
Proof.
  intros s. split.
  - apply (proj1 (reassembly_loop_terminates 5 s) 1000%nat).
    vm_compute. lia.
  - reflexivity.
Defined.

Lemma chars_length : forall n c, String.length (chars n c) = n.
Proof. induction n as [|n IH]; intros c; simpl; [reflexivity|]. rewrite IH. reflexivity. Qed.

(** X27.  The overflow of the accumulator.  From an empty accumulator, a
    run of 257 plain characters (no NUL, end of line, 'X' or 'Z'; the first
    not a single-character command) is thrown away as its last character
    arrives: nothing is queued and the accumulator is empty. *)
Theorem accumulator_overflow_resets : forall cfg now s line c,
  plainLine line = true ->
  String.length line = 256%nat ->
  plainChar c = true ->
  cmdBuf s = "" ->
  cmdBuf (feedCmdBytes cfg now (bytesOf (line ++ String c "")) s) = "" /\
  tokensOf (trace (feedCmdBytes cfg now (bytesOf (line ++ String c "")) s)) =
    tokensOf (trace s).
Proof.
  intros cfg now s line c Hp Hl Hc Hb.
  destruct (feedCmdBytes_tokenize cfg now (bytesOf (line ++ String c "")) s)
    as [-> ->].
  rewrite Hb, bytesOf_app, tokenize_app, (tokenize_plain line Hp).
  cbn [fst snd app].
  change (bytesOf (String c "")) with [byte_of_ascii c].
  cbn [tokenize].
  assert (E : tokenStep line (byte_of_ascii c) = ("", [])).
  { unfold tokenStep. rewrite ascii_of_byte_of_ascii.
    unfold plainChar in Hc. apply negb_true_iff in Hc.
    repeat (apply orb_false_iff in Hc; destruct Hc as [Hc ?]).
    destruct (Byte.eqb (byte_of_ascii c) x00) eqn:E0.
    { apply Byte.byte_dec_bl in E0.
      apply (f_equal ascii_of_byte) in E0. rewrite ascii_of_byte_of_ascii in E0.
      subst c. discriminate. }
    repeat match goal with
           | H : Ascii.eqb c _ = false |- _ => rewrite H; clear H
           end.
    cbn [orb].
    assert (L : String.length (line ++ String c "") = 257%nat)
      by (rewrite length_append, Hl; reflexivity).
    rewrite L. reflexivity. }
  rewrite E. cbn [fst snd]. rewrite !app_nil_r. split; reflexivity.
Qed.

Lemma accumulator_overflow_resets_witness :
  let s := initial 0 port0 in
  cmdBuf (feedCmdBytes cfg0 5 (bytesOf (chars 256 "a" ++ "c")) s) = "" /\
  tokensOf (trace (feedCmdBytes cfg0 5 (bytesOf (chars 256 "a" ++ "c")) s)) = [].
Proof.
  intros s.
  apply (accumulator_overflow_resets cfg0 5 s (chars 256 "a") "c"%char).
  - vm_compute. reflexivity.
  - apply chars_length.
  - reflexivity.
  - reflexivity.
Defined.

(** ** The begin sequence, whatever else goes on *)




Lemma who_eqb_sym : forall a b, who_eqb a b = who_eqb b a.
Proof.
  intros [|n|n|] [|m|m|]; simpl; try reflexivity; apply Nat.eqb_sym.
Qed.













































(** The process may end before the sequence does: when the /tcp request of
    the listen callback is refused while the stop-stream call is under
    way, the rejection has no handler and the process ends, with that one
    call of the sequence made; no event is handled any more. *)
Lemma configuration_failure_ends_process :
  exists s,
    run cfg0 tcpRefusedRun (initial 0 port0) = Some s /\
    halted s = true /\
    requestsOf (Begin 0) (trace s) = [ (1010, streamStop cfg0) ] /\
    forall now e, handle cfg0 now e s = None.
Proof.
  eexists. split; [vm_compute; reflexivity|].
  split; [reflexivity|]. split; [reflexivity|].
  intros now e. reflexivity.
Qed.
